(** * Slic3r geometric model: bounding boxes, entity graph, arrangement

    A shallow embedding of [xs/src/libslic3r/Model.cpp]: the owned entity
    graph (Model, ModelObject, ModelVolume, ModelInstance), the transform
    pipeline that derives bounding boxes, the arrangement entry points and
    the duplication utilities.

    Numbers.  [coordf_t] (double) is modelled by the exact rationals [Q]:
    every arithmetic operation on doubles is the exact one.  Where the
    source narrows a double to a float, [float(..)], the value is rounded
    to single precision by [to_float]; the widening [double(..)] is the
    identity.  [size_t] is [N] with its 64-bit wrap-around written out
    where the code subtracts or counts up to its argument, and libnest2d's
    [Coord] (a 64-bit integer) is [Z].

    Effects.  Methods that mutate [this] take the old value and return the
    new one.  A call that can abort returns an [outcome]: the fatal
    [CONFESS], a thrown string, undefined behaviour of the C++ (an index
    past the end of a vector, [front()] of an empty vector), a loop that
    never ends, or a double that is an infinity or a NaN and so no
    rational. *)

From Stdlib Require Import String QArith Qabs ZArith NArith List Bool Lia Lqa.
From Stdlib Require DecimalString.
Import ListNotations.

Open Scope Q_scope.

(** ** Outcomes of a call *)

Inductive outcome (A : Type) : Type :=
| Ok (a : A)
| Confess (msg : string)
| Throw (msg : string)
| Undefined
| Diverges
| NonFinite.

Arguments Ok {A} a.
Arguments Confess {A} msg.
Arguments Throw {A} msg.
Arguments Undefined {A}.
Arguments Diverges {A}.
Arguments NonFinite {A}.

Definition bind {A B : Type} (c : outcome A) (k : A -> outcome B) : outcome B :=
  match c with
  | Ok a => k a
  | Confess msg => Confess msg
  | Throw msg => Throw msg
  | Undefined => Undefined
  | Diverges => Diverges
  | NonFinite => NonFinite
  end.

Notation "x <- c ;; k" := (bind c (fun x => k))
  (at level 61, c at next level, right associativity).
Notation "' p <- c ;; k" := (bind c (fun p => k))
  (at level 61, p pattern, c at next level, right associativity).

(** [v[i]] and [v.front()] on a [std::vector]: undefined past the end. *)
Definition vec_at {A : Type} (v : list A) (i : nat) : outcome A :=
  match nth_error v i with
  | Some a => Ok a
  | None => Undefined
  end.

Definition vec_front {A : Type} (v : list A) : outcome A :=
  match v with
  | a :: _ => Ok a
  | [] => Undefined
  end.

(** [std::min] and [std::max] as <algorithm> defines them. *)
Definition Qltb (a b : Q) : bool := negb (Qle_bool b a).

Definition std_min (a b : Q) : Q := if Qltb b a then b else a.
Definition std_max (a b : Q) : Q := if Qltb a b then b else a.

(** [static_cast<Coord>(double)]: truncation towards zero. *)
Definition to_Coord (q : Q) : Z := Z.quot (Qnum q) (Zpos (Qden q)).

(** ** Single precision *)

(** [float(x)], the narrowing conversion of a double to single precision:
    [x] rounded to the nearest number with a significand of 24 bits, ties
    to the even significand.  The exponent range is not modelled, as it is
    not for [double]: no value overflows to an infinity or underflows to
    zero. *)
Definition round_half_even (a b : Z) : Z :=
  let q := (a / b)%Z in
  let r := (a mod b)%Z in
  match (2 * r ?= b)%Z with
  | Lt => q
  | Gt => (q + 1)%Z
  | Eq => if Z.even q then q else (q + 1)%Z
  end.

(** The rounding of [n / d]: with [2^e <= n / d < 2^(e + 1)] the quotient
    is rounded to a multiple of [2^(e - 23)]. *)
Definition float_of_positive (n d : positive) : Q :=
  let e0 := (Z.log2 (Zpos n) - Z.log2 (Zpos d))%Z in
  let below := if (0 <=? e0)%Z then (Zpos n <? Zpos d * 2 ^ e0)%Z
               else (Zpos n * 2 ^ (- e0) <? Zpos d)%Z in
  let e := if below then (e0 - 1)%Z else e0 in
  let k := (23 - e)%Z in
  if (0 <=? k)%Z then
    Qmake (round_half_even (Zpos n * 2 ^ k) (Zpos d)) (Z.to_pos (2 ^ k))
  else
    inject_Z (round_half_even (Zpos n) (Zpos d * 2 ^ (- k)) * 2 ^ (- k)).

Definition to_float (q : Q) : Q :=
  match Qnum (Qred q) with
  | Z0 => 0
  | Zpos n => Qred (float_of_positive n (Qden (Qred q)))
  | Zneg n => - Qred (float_of_positive n (Qden (Qred q)))
  end.

(** ** Geometric primitives *)

Record Pointf : Type := mkPointf { px : Q; py : Q }.

Record Pointf3 : Type := mkPointf3 { x : Q; y : Q; z : Q }.

Definition Pointfs := list Pointf.

(** [Sizef3] is a [Pointf3]; pushing one into a [Pointfs] keeps x and y. *)
Definition to_Pointf (p : Pointf3) : Pointf := mkPointf (x p) (y p).

Definition Pointf_translate (p : Pointf) (dx dy : Q) : Pointf :=
  mkPointf (px p + dx) (py p + dy).

Definition Pointf_minus (a b : Pointf) : Pointf :=
  mkPointf (px a - px b) (py a - py b).

Definition Pointf3_translate (p v : Pointf3) : Pointf3 :=
  mkPointf3 (x p + x v) (y p + y v) (z p + z v).

(** Modelled from the spec: [BoundingBoxf3] of BoundingBox.hpp, which is not
    among the sources.  The spec calls it a pure value type with merge and
    translate and speaks of an "empty/undefined bounding box": a box is its
    two corners and a [defined] flag, the default box has both corners at
    the origin and is not defined. *)
Record BoundingBoxf3 : Type := mkBB3 {
  bmin : Pointf3;
  bmax : Pointf3;
  defined : bool
}.

Definition BoundingBoxf3_default : BoundingBoxf3 :=
  mkBB3 (mkPointf3 0 0 0) (mkPointf3 0 0 0) false.

(** [merge(const Pointf3&)]: the first point defines the box, later points
    extend it componentwise. *)
Definition merge_point (bb : BoundingBoxf3) (p : Pointf3) : BoundingBoxf3 :=
  if defined bb then
    mkBB3 (mkPointf3 (std_min (x p) (x (bmin bb)))
                     (std_min (y p) (y (bmin bb)))
                     (std_min (z p) (z (bmin bb))))
          (mkPointf3 (std_max (x p) (x (bmax bb)))
                     (std_max (y p) (y (bmax bb)))
                     (std_max (z p) (z (bmax bb))))
          true
  else mkBB3 p p true.

(** [merge(const BoundingBoxf3&)]: an undefined argument is ignored. *)
Definition merge_box (bb other : BoundingBoxf3) : BoundingBoxf3 :=
  if defined other then
    if defined bb then
      mkBB3 (mkPointf3 (std_min (x (bmin other)) (x (bmin bb)))
                       (std_min (y (bmin other)) (y (bmin bb)))
                       (std_min (z (bmin other)) (z (bmin bb))))
            (mkPointf3 (std_max (x (bmax other)) (x (bmax bb)))
                       (std_max (y (bmax other)) (y (bmax bb)))
                       (std_max (z (bmax other)) (z (bmax bb))))
            true
    else mkBB3 (bmin other) (bmax other) true
  else bb.

(** [BoundingBoxf3(pmin, pmax)]: defined when the extent is positive on
    every axis. *)
Definition BoundingBoxf3_of_corners (pmin pmax : Pointf3) : BoundingBoxf3 :=
  mkBB3 pmin pmax
        (Qltb (x pmin) (x pmax) && Qltb (y pmin) (y pmax) && Qltb (z pmin) (z pmax)).

Definition bb_size (bb : BoundingBoxf3) : Pointf3 :=
  mkPointf3 (x (bmax bb) - x (bmin bb))
            (y (bmax bb) - y (bmin bb))
            (z (bmax bb) - z (bmin bb)).

Definition bb_center (bb : BoundingBoxf3) : Pointf3 :=
  mkPointf3 ((x (bmax bb) + x (bmin bb)) / 2)
            ((y (bmax bb) + y (bmin bb)) / 2)
            ((z (bmax bb) + z (bmin bb)) / 2).

Definition bb_translate (bb : BoundingBoxf3) (dx dy dz : Q) : BoundingBoxf3 :=
  mkBB3 (Pointf3_translate (bmin bb) (mkPointf3 dx dy dz))
        (Pointf3_translate (bmax bb) (mkPointf3 dx dy dz))
        (defined bb).

(** Modelled from the spec: [empty(bbox)] of BoundingBox.hpp: no positive
    extent on some axis. *)
Definition empty (bb : BoundingBoxf3) : bool :=
  Qle_bool (x (bmax bb)) (x (bmin bb))
  || Qle_bool (y (bmax bb)) (y (bmin bb))
  || Qle_bool (z (bmax bb)) (z (bmin bb)).

Definition contains_point (bb : BoundingBoxf3) (p : Pointf3) : bool :=
  Qle_bool (x (bmin bb)) (x p) && Qle_bool (x p) (x (bmax bb))
  && Qle_bool (y (bmin bb)) (y p) && Qle_bool (y p) (y (bmax bb))
  && Qle_bool (z (bmin bb)) (z p) && Qle_bool (z p) (z (bmax bb)).

(** [contains(other)]: both corners of [other] lie in the box. *)
Definition contains (bb other : BoundingBoxf3) : bool :=
  contains_point bb (bmin other) && contains_point bb (bmax other).

(** [intersects(other)]: the open extents overlap on every axis. *)
Definition intersects (bb other : BoundingBoxf3) : bool :=
  Qltb (x (bmin bb)) (x (bmax other)) && Qltb (x (bmin other)) (x (bmax bb))
  && Qltb (y (bmin bb)) (y (bmax other)) && Qltb (y (bmin other)) (y (bmax bb))
  && Qltb (z (bmin bb)) (z (bmax other)) && Qltb (z (bmin other)) (z (bmax bb)).

(** Modelled from the spec: the two-dimensional [BoundingBoxf], also of
    BoundingBox.hpp: the "bin" rectangle handed to the packers. *)
Record BoundingBoxf : Type := mkBB2 {
  bmin2 : Pointf;
  bmax2 : Pointf;
  defined2 : bool
}.

(** [BoundingBoxf(points)]: the extent of a point set; the constructor
    confesses on an empty set. *)
Definition BoundingBoxf_of_points (pts : Pointfs) : outcome BoundingBoxf :=
  match pts with
  | [] => Confess "Empty point set supplied to BoundingBoxBase constructor"
  | p :: rest =>
      let lo := fold_left (fun m q => mkPointf (std_min (px q) (px m)) (std_min (py q) (py m))) rest p in
      let hi := fold_left (fun m q => mkPointf (std_max (px q) (px m)) (std_max (py q) (py m))) rest p in
      Ok (mkBB2 lo hi (Qltb (px lo) (px hi) && Qltb (py lo) (py hi)))
  end.

Definition bb2_scale (bb : BoundingBoxf) (f : Q) : BoundingBoxf :=
  mkBB2 (mkPointf (px (bmin2 bb) * f) (py (bmin2 bb) * f))
        (mkPointf (px (bmax2 bb) * f) (py (bmax2 bb) * f))
        (defined2 bb).

(** ** Meshes *)

Record stl_facet : Type := mkFacet {
  vertex0 : Pointf3;
  vertex1 : Pointf3;
  vertex2 : Pointf3
}.

(** [facet.vertex[j]] for [j = 0, 1, 2]. *)
Definition facet_vertices (f : stl_facet) : list Pointf3 :=
  [vertex0 f; vertex1 f; vertex2 f].

(** A [TriangleMesh] is its facet array; [stl.stats.number_of_facets] is the
    length of the array. *)
Record TriangleMesh : Type := mkMesh { facet_start : list stl_facet }.

Definition number_of_facets (m : TriangleMesh) : nat := length (facet_start m).

Definition mesh_vertices (m : TriangleMesh) : list Pointf3 :=
  flat_map facet_vertices (facet_start m).

Definition map_vertices (f : Pointf3 -> Pointf3) (m : TriangleMesh) : TriangleMesh :=
  mkMesh (map (fun t => mkFacet (f (vertex0 t)) (f (vertex1 t)) (f (vertex2 t)))
              (facet_start m)).

(** Modelled from the spec: [TriangleMesh::bounding_box], [translate],
    [scale] and [merge] of TriangleMesh.cpp, which is not among the sources
    (the spec treats mesh internals as a collaborator).  The box of a mesh
    is the extent of its vertices and is always flagged defined; the stats
    of a mesh without facets are all zero. *)
Definition mesh_bounding_box (m : TriangleMesh) : BoundingBoxf3 :=
  match mesh_vertices m with
  | [] => mkBB3 (mkPointf3 0 0 0) (mkPointf3 0 0 0) true
  | v :: vs => fold_left merge_point vs (mkBB3 v v true)
  end.

Definition mesh_translate (dx dy dz : Q) (m : TriangleMesh) : TriangleMesh :=
  map_vertices (fun v => mkPointf3 (x v + dx) (y v + dy) (z v + dz)) m.

Definition mesh_scale_versor (versor : Pointf3) (m : TriangleMesh) : TriangleMesh :=
  map_vertices (fun v => mkPointf3 (x v * x versor) (y v * y versor) (z v * z versor)) m.

Definition mesh_scale (factor : Q) (m : TriangleMesh) : TriangleMesh :=
  mesh_scale_versor (mkPointf3 factor factor factor) m.

Definition mesh_merge (a b : TriangleMesh) : TriangleMesh :=
  mkMesh (facet_start a ++ facet_start b).

Inductive Axis : Type := AxisX | AxisY | AxisZ.

(** A closed contour in the packer's integer coordinates. *)
Definition IntPoint : Type := (Z * Z)%type.
Definition Polygon : Type := list IntPoint.

(** ** Collaborators outside the sources *)

(** The C library's [cos] and [sin]. *)
Class Libm : Type := {
  cos : Q -> Q;
  sin : Q -> Q
}.

(** The constants of libslic3r.h. *)
Class Libslic3r : Type := {
  EPSILON : Q;
  SCALING_FACTOR : Q
}.

(** [TriangleMesh::split] and [TriangleMesh::repair], which
    [ModelVolume::split] calls: the parts of a mesh, and a mesh as the
    repair leaves it. *)
Class MeshParts : Type := {
  mesh_split : TriangleMesh -> list TriangleMesh;
  mesh_repair : TriangleMesh -> TriangleMesh
}.

(** The mesh operations of TriangleMesh.cpp that the model only passes
    through: rotation about an axis, mirroring, a 3x4 affine matrix, and the
    convex hull of the top-down projection with the ring orientation fix. *)
Class MeshOps : Type := {
  mesh_rotate : Q -> Axis -> TriangleMesh -> TriangleMesh;
  mesh_mirror : Axis -> TriangleMesh -> TriangleMesh;
  mesh_transform : list Q -> TriangleMesh -> TriangleMesh;
  convex_hull : TriangleMesh -> Polygon;
  make_clockwise : Polygon -> Polygon
}.

(** [Slic3r::Geometry::arrange(total_parts, part_size, dist, bb, positions)]:
    the rectangular packer.  It receives the output vector and returns the
    success flag with the vector as it leaves it. *)
Class GeometryLib : Type := {
  geometry_arrange : nat -> Pointf -> Q -> option BoundingBoxf -> Pointfs -> bool * Pointfs
}.

(** ** Entity graph *)

Inductive PrintVolumeState : Type :=
| PVS_Inside
| PVS_Partly_Outside
| PVS_Fully_Outside.

Record ModelInstance : Type := mkInstance {
  rotation : Q;
  scaling_factor : Q;
  offset : Pointf;
  print_volume_state : PrintVolumeState
}.

(** The [config] of a volume is the list of its serialized options. *)
Record ModelVolume : Type := mkVolume {
  volume_name : string;
  mesh : TriangleMesh;
  modifier : bool;
  material_id : string;
  config : list (string * string)
}.

(** A pointer to a [ModelObject] is the address of the object; [nullptr] is address 0. *)
Definition ptr : Type := N.
Definition nullptr : ptr := 0%N.

Record ModelObject : Type := mkObject {
  this : ptr;
  name : string;
  input_file : string;
  instances : list ModelInstance;
  volumes : list ModelVolume;
  origin_translation : Pointf3;
  m_bounding_box : BoundingBoxf3;
  m_bounding_box_valid : bool
}.

Record ModelMaterial : Type := mkMaterial {
  attributes : list (string * string)
}.

Record Model : Type := mkModel {
  materials : list (string * ModelMaterial);
  objects : list ModelObject
}.

(** Field updates. *)
Definition set_instances (o : ModelObject) (l : list ModelInstance) : ModelObject :=
  mkObject (this o) (name o) (input_file o) l (volumes o)
           (origin_translation o) (m_bounding_box o) (m_bounding_box_valid o).

Definition set_volumes (o : ModelObject) (l : list ModelVolume) : ModelObject :=
  mkObject (this o) (name o) (input_file o) (instances o) l
           (origin_translation o) (m_bounding_box o) (m_bounding_box_valid o).

Definition set_origin_translation (o : ModelObject) (p : Pointf3) : ModelObject :=
  mkObject (this o) (name o) (input_file o) (instances o) (volumes o)
           p (m_bounding_box o) (m_bounding_box_valid o).

Definition set_cache (o : ModelObject) (bb : BoundingBoxf3) (valid : bool) : ModelObject :=
  mkObject (this o) (name o) (input_file o) (instances o) (volumes o)
           (origin_translation o) bb valid.

Definition set_objects (m : Model) (l : list ModelObject) : Model :=
  mkModel (materials m) l.

Definition set_mesh (v : ModelVolume) (t : TriangleMesh) : ModelVolume :=
  mkVolume (volume_name v) t (modifier v) (material_id v) (config v).

Definition set_placement (i : ModelInstance) (rot : Q) (off : Pointf) : ModelInstance :=
  mkInstance rot (scaling_factor i) off (print_volume_state i).

Definition set_offset (i : ModelInstance) (off : Pointf) : ModelInstance :=
  mkInstance (rotation i) (scaling_factor i) off (print_volume_state i).

Definition set_print_volume_state (i : ModelInstance) (s : PrintVolumeState) : ModelInstance :=
  mkInstance (rotation i) (scaling_factor i) (offset i) s.

(** The constructor of a fresh [ModelInstance]: the default placement. *)
Definition ModelInstance_default : ModelInstance :=
  mkInstance 0 1 (mkPointf 0 0) PVS_Inside.

(** [vector::erase(begin() + idx)]. *)
Fixpoint erase {A : Type} (l : list A) (idx : nat) : list A :=
  match l, idx with
  | [], _ => []
  | _ :: t, O => t
  | h :: t, S n => h :: erase t n
  end.

(** [size_t] subtraction, modulo 2^64. *)
Definition size_t_sub (a b : N) : N := ((a + 2 ^ 64 - b) mod 2 ^ 64)%N.

Fixpoint foldM {A B : Type} (f : B -> A -> outcome B) (l : list A) (b : B) : outcome B :=
  match l with
  | [] => Ok b
  | a :: t => b' <- f b a ;; foldM f t b'
  end.

(** [SIZE_MAX], the largest [size_t]. *)
Definition SIZE_MAX : N := (2 ^ 64 - 1)%N.

(** [for (size_t c = 1; c <= n; ++c) body].  Below [SIZE_MAX] the body runs
    for c = 1, ..., n.  With [n = SIZE_MAX] the condition holds for every
    [size_t], the counter wraps around and the loop never ends: a first body
    that does not return decides the outcome, and when the bodies return
    (as those of this file do for every counter) the call does not. *)
Definition for_size_t {S : Type} (n : N) (body : nat -> S -> outcome S) (s : S) : outcome S :=
  if (n =? SIZE_MAX)%N then
    _ <- body 1%nat s ;; Diverges
  else foldM (fun s c => body c s) (seq 1 (N.to_nat n)) s.

(** Writing through the [n]-th pointer of a vector of owned pointers. *)
Fixpoint update_nth {A : Type} (f : A -> A) (l : list A) (n : nat) : list A :=
  match l, n with
  | [], _ => []
  | h :: t, O => f h :: t
  | h :: t, S k => h :: update_nth f t k
  end.

(** ** Transform pipeline *)

Section TransformPipeline.
Context {libm : Libm} {consts : Libslic3r}.

(** The rotation about Z that the bounding-box loops write out, with
    [c = cos(rotation)] and [s = sin(rotation)]. *)
Definition rotate_z (c s : Q) (v : Pointf3) : Pointf3 :=
  mkPointf3 (c * x v - s * y v) (s * x v + c * y v) (z v).

(** The rotated vertex [transform_mesh_bounding_box] writes back into the
    [stl_vertex], whose coordinates are floats. *)
Definition rotate_z_float (c s : Q) (v : Pointf3) : Pointf3 :=
  mkPointf3 (to_float (c * x v - s * y v)) (to_float (s * x v + c * y v)) (z v).

(** The loop of [transform_mesh_bounding_box] over facets and their three
    vertices: the box of the rotated vertices. *)
Definition rotated_bounding_box (inst : ModelInstance) (m : TriangleMesh) : BoundingBoxf3 :=
  let c := cos (rotation inst) in
  let s := sin (rotation inst) in
  fold_left
    (fun bbox facet =>
       fold_left (fun bbox v => merge_point bbox (rotate_z_float c s v))
                 (facet_vertices facet) bbox)
    (facet_start m) BoundingBoxf3_default.

Definition transform_mesh_bounding_box
           (inst : ModelInstance) (m : TriangleMesh) (dont_translate : bool) : BoundingBoxf3 :=
  let bbox := rotated_bounding_box inst m in
  if negb (empty bbox) then
    let bbox :=
      if Qltb EPSILON (Qabs (scaling_factor inst - 1)) then
        let sf := to_float (scaling_factor inst) in
        mkBB3 (mkPointf3 (x (bmin bbox) * sf) (y (bmin bbox) * sf) (z (bmin bbox) * sf))
              (mkPointf3 (x (bmax bbox) * sf) (y (bmax bbox) * sf) (z (bmax bbox) * sf))
              (defined bbox)
      else bbox in
    if negb dont_translate then
      let tx := to_float (px (offset inst)) in
      let ty := to_float (py (offset inst)) in
      mkBB3 (mkPointf3 (x (bmin bbox) + tx) (y (bmin bbox) + ty) (z (bmin bbox)))
            (mkPointf3 (x (bmax bbox) + tx) (y (bmax bbox) + ty) (z (bmax bbox)))
            (defined bbox)
    else bbox
  else bbox.

(** Modelled from the spec: the affine matrix that [transform_bounding_box]
    builds with Eigen (translate, then rotate about Z, then scale, each
    multiplied on the right) and [BoundingBoxf3::transformed], neither among
    the sources: the eight corners are scaled, rotated and translated, and
    the result is the box of their images ("each instance's affine transform
    applied to that single box").  The matrix is one of floats: offset,
    rotation and scaling factor are narrowed where the source hands them to
    Eigen; the arithmetic inside Eigen is taken as exact. *)
Definition affine (inst : ModelInstance) (dont_translate : bool) (p : Pointf3) : Pointf3 :=
  let sf := to_float (scaling_factor inst) in
  let angle := to_float (rotation inst) in
  let r := rotate_z (cos angle) (sin angle)
                    (mkPointf3 (x p * sf) (y p * sf) (z p * sf)) in
  if dont_translate then r
  else mkPointf3 (x r + to_float (px (offset inst))) (y r + to_float (py (offset inst)))
                 (z r).

Definition corners (bb : BoundingBoxf3) : list Pointf3 :=
  let lo := bmin bb in
  let hi := bmax bb in
  [ mkPointf3 (x lo) (y lo) (z lo); mkPointf3 (x hi) (y lo) (z lo);
    mkPointf3 (x hi) (y hi) (z lo); mkPointf3 (x lo) (y hi) (z lo);
    mkPointf3 (x lo) (y lo) (z hi); mkPointf3 (x hi) (y lo) (z hi);
    mkPointf3 (x hi) (y hi) (z hi); mkPointf3 (x lo) (y hi) (z hi) ].

Definition transformed (f : Pointf3 -> Pointf3) (bb : BoundingBoxf3) : BoundingBoxf3 :=
  match map f (corners bb) with
  | [] => BoundingBoxf3_default
  | v :: vs =>
      let lo := fold_left (fun m q => mkPointf3 (std_min (x m) (x q)) (std_min (y m) (y q))
                                                (std_min (z m) (z q))) vs v in
      let hi := fold_left (fun m q => mkPointf3 (std_max (x m) (x q)) (std_max (y m) (y q))
                                                (std_max (z m) (z q))) vs v in
      BoundingBoxf3_of_corners lo hi
  end.

Definition transform_bounding_box
           (inst : ModelInstance) (bbox : BoundingBoxf3) (dont_translate : bool) : BoundingBoxf3 :=
  transformed (affine inst dont_translate) bbox.

(** ** ModelObject *)

Definition invalidate_bounding_box (o : ModelObject) : ModelObject :=
  set_cache o (m_bounding_box o) false.

(** [add_volume(const TriangleMesh&)]: a fresh volume, no modifier flag, no
    material. *)
Definition add_volume (o : ModelObject) (m : TriangleMesh) : ModelObject :=
  let v := mkVolume "" m false "" [] in
  invalidate_bounding_box (set_volumes o (volumes o ++ [v])).

(** [add_volume(const ModelVolume&)]. *)
Definition add_volume_copy (o : ModelObject) (other : ModelVolume) : ModelObject :=
  invalidate_bounding_box (set_volumes o (volumes o ++ [other])).

Definition delete_volume (o : ModelObject) (idx : nat) : outcome ModelObject :=
  _ <- vec_at (volumes o) idx ;;
  Ok (invalidate_bounding_box (set_volumes o (erase (volumes o) idx))).

Definition clear_volumes (o : ModelObject) : ModelObject :=
  invalidate_bounding_box (set_volumes o []).

Definition add_instance (o : ModelObject) : ModelObject :=
  invalidate_bounding_box (set_instances o (instances o ++ [ModelInstance_default])).

(** [add_instance(const ModelInstance&)]: the copy takes rotation, scaling
    factor and offset of [other] and starts as inside the print volume. *)
Definition add_instance_copy (o : ModelObject) (other : ModelInstance) : ModelObject :=
  let i := mkInstance (rotation other) (scaling_factor other) (offset other) PVS_Inside in
  invalidate_bounding_box (set_instances o (instances o ++ [i])).

Definition delete_instance (o : ModelObject) (idx : nat) : outcome ModelObject :=
  _ <- vec_at (instances o) idx ;;
  Ok (invalidate_bounding_box (set_instances o (erase (instances o) idx))).

Definition delete_last_instance (o : ModelObject) : outcome ModelObject :=
  delete_instance o (N.to_nat (size_t_sub (N.of_nat (length (instances o))) 1)).

Definition clear_instances (o : ModelObject) : ModelObject :=
  invalidate_bounding_box (set_instances o []).

(** [bounding_box() const]: the box of the transformed instances, computed
    when the cache is not valid and stored in the mutable cache. *)
Definition bounding_box (o : ModelObject) : BoundingBoxf3 * ModelObject :=
  if negb (m_bounding_box_valid o) then
    let raw_bbox :=
      fold_left (fun bb v => if negb (modifier v)
                             then merge_box bb (mesh_bounding_box (mesh v)) else bb)
                (volumes o) BoundingBoxf3_default in
    let bb :=
      fold_left (fun bb i => merge_box bb (transform_bounding_box i raw_bbox false))
                (instances o) BoundingBoxf3_default in
    (bb, set_cache o bb true)
  else (m_bounding_box o, o).

Definition raw_mesh (o : ModelObject) : TriangleMesh :=
  fold_left (fun acc v => if negb (modifier v) then mesh_merge acc (mesh v) else acc)
            (volumes o) (mkMesh []).

Definition raw_bounding_box (o : ModelObject) : outcome BoundingBoxf3 :=
  foldM (fun bb v =>
           if negb (modifier v) then
             _ <- (if match instances o with [] => true | _ => false end
                   then Confess "Can't call raw_bounding_box() with no instances"
                   else Ok tt) ;;
             front <- vec_front (instances o) ;;
             Ok (merge_box bb (transform_mesh_bounding_box front (mesh v) true))
           else Ok bb)
        (volumes o) BoundingBoxf3_default.

Definition instance_bounding_box
           (o : ModelObject) (instance_idx : nat) (dont_translate : bool) : outcome BoundingBoxf3 :=
  foldM (fun bb v =>
           if negb (modifier v) then
             inst <- vec_at (instances o) instance_idx ;;
             Ok (merge_box bb (transform_mesh_bounding_box inst (mesh v) dont_translate))
           else Ok bb)
        (volumes o) BoundingBoxf3_default.
End TransformPipeline.

Section ObjectMutators.
Context {libm : Libm} {consts : Libslic3r} {meshops : MeshOps}.

Definition map_meshes (f : TriangleMesh -> TriangleMesh) (o : ModelObject) : ModelObject :=
  set_volumes o (map (fun v => set_mesh v (f (mesh v))) (volumes o)).

(** [translate(x, y, z)]: moves every volume's mesh by the vector narrowed
    to floats; a valid cached box is moved along by the vector itself, an
    invalid one is left alone. *)
Definition translate (o : ModelObject) (dx dy dz : Q) : ModelObject :=
  let o := map_meshes (mesh_translate (to_float dx) (to_float dy) (to_float dz)) o in
  if m_bounding_box_valid o
  then set_cache o (bb_translate (m_bounding_box o) dx dy dz) (m_bounding_box_valid o)
  else o.

Definition scale (o : ModelObject) (versor : Pointf3) : ModelObject :=
  let o := map_meshes (mesh_scale_versor versor) o in
  invalidate_bounding_box (set_origin_translation o (mkPointf3 0 0 0)).

Definition rotate (o : ModelObject) (angle : Q) (axis : Axis) : ModelObject :=
  let o := map_meshes (mesh_rotate angle axis) o in
  invalidate_bounding_box (set_origin_translation o (mkPointf3 0 0 0)).

(** [transform(const float* matrix3x4)]: a null matrix is [None]. *)
Definition transform (o : ModelObject) (matrix3x4 : option (list Q)) : ModelObject :=
  match matrix3x4 with
  | None => o
  | Some mat =>
      let o := map_meshes (mesh_transform mat) o in
      invalidate_bounding_box (set_origin_translation o (mkPointf3 0 0 0))
  end.

Definition mirror (o : ModelObject) (axis : Axis) : ModelObject :=
  let o := map_meshes (mesh_mirror axis) o in
  invalidate_bounding_box (set_origin_translation o (mkPointf3 0 0 0)).

(** The vertex loop shared by [tight_bounding_box] and
    [check_instances_print_volume_state]: scale, rotate about Z, translate,
    merge. *)
Definition placed_vertex (inst : ModelInstance) (c s : Q) (v : Pointf3) : Pointf3 :=
  let p := mkPointf3 (x v * scaling_factor inst) (y v * scaling_factor inst)
                     (z v * scaling_factor inst) in
  let p := mkPointf3 (c * x p - s * y p) (s * x p + c * y p) (z p) in
  mkPointf3 (x p + px (offset inst)) (y p + py (offset inst)) (z p).

Definition merge_placed_facets
           (inst : ModelInstance) (m : TriangleMesh) (bb : BoundingBoxf3) : BoundingBoxf3 :=
  let c := cos (rotation inst) in
  let s := sin (rotation inst) in
  fold_left
    (fun bb facet =>
       fold_left (fun bb v => merge_point bb (placed_vertex inst c s v))
                 (facet_vertices facet) bb)
    (facet_start m) bb.

Definition tight_bounding_box (o : ModelObject) (include_modifiers : bool) : BoundingBoxf3 :=
  fold_left
    (fun bb vol =>
       if include_modifiers || negb (modifier vol) then
         fold_left (fun bb inst => merge_placed_facets inst (mesh vol) bb) (instances o) bb
       else bb)
    (volumes o) BoundingBoxf3_default.

(** The three-way test at the end of the instance loop. *)
Definition classify (print_volume bb : BoundingBoxf3) : PrintVolumeState :=
  if contains print_volume bb then PVS_Inside
  else if intersects print_volume bb then PVS_Partly_Outside
  else PVS_Fully_Outside.

(** [check_instances_print_volume_state]: the volume loop is the outer
    one; inside it every instance gets a fresh box [bb] filled from that
    volume's facets and its state is assigned from that box. *)
Definition check_instances_print_volume_state
           (o : ModelObject) (print_volume : BoundingBoxf3) : ModelObject :=
  fold_left
    (fun o vol =>
       if negb (modifier vol) then
         set_instances o
           (map (fun inst =>
                   let bb := merge_placed_facets inst (mesh vol) BoundingBoxf3_default in
                   set_print_volume_state inst (classify print_volume bb))
                (instances o))
       else o)
    (volumes o) o.
End ObjectMutators.

(** ** Model *)

Section ModelOps.
Context {libm : Libm} {consts : Libslic3r} {meshops : MeshOps} {geom : GeometryLib}.

(** [delete_object(size_t idx)]. *)
Definition delete_object_at (m : Model) (idx : nat) : outcome Model :=
  _ <- vec_at (objects m) idx ;;
  Ok (set_objects m (erase (objects m) idx)).

(** The search loop of [delete_object(ModelObject* object)]: the first
    owned pointer equal to [object] is deleted and erased. *)
Fixpoint delete_object_search (objs : list ModelObject) (object : ptr) : list ModelObject :=
  match objs with
  | [] => []
  | obj :: rest =>
      if N.eqb (this obj) object then rest
      else obj :: delete_object_search rest object
  end.

Definition delete_object (m : Model) (object : ptr) : Model :=
  if N.eqb object nullptr then m
  else set_objects m (delete_object_search (objects m) object).

(** [Model::bounding_box() const]: merges the objects' boxes; each call to
    the object's [bounding_box()] may refresh that object's cache. *)
Fixpoint merge_object_boxes (objs : list ModelObject) (bb : BoundingBoxf3)
  : BoundingBoxf3 * list ModelObject :=
  match objs with
  | [] => (bb, [])
  | o :: rest =>
      let (ob, o') := bounding_box o in
      let (bb', rest') := merge_object_boxes rest (merge_box bb ob) in
      (bb', o' :: rest')
  end.

Definition Model_bounding_box (m : Model) : BoundingBoxf3 * Model :=
  let (bb, objs) := merge_object_boxes (objects m) BoundingBoxf3_default in
  (bb, set_objects m objs).

(** The static [_arrange]: the rectangular packer, retried without the
    bin when it fails with one. *)
Definition _arrange (sizes : Pointfs) (dist : Q) (bb : option BoundingBoxf) (out : Pointfs)
  : outcome (bool * Pointfs) :=
  match sizes with
  | [] => Ok (true, out)
  | _ =>
      cell <- BoundingBoxf_of_points sizes ;;
      let (result, out) := geometry_arrange (length sizes) (bmax2 cell) dist bb out in
      if negb result && match bb with Some _ => true | None => false end then
        cell <- BoundingBoxf_of_points sizes ;;
        Ok (geometry_arrange (length sizes) (bmax2 cell) dist None out)
      else Ok (result, out)
  end.
End ModelOps.

(** ** Arrangement engine *)

(** Modelled from the spec: the value types of libnest2d, which is not among
    the sources.  An [Item] is a footprint polygon with the rotation and the
    translation the packer tracks for it; a [Box] is the bin rectangle; a
    pile is the sequence of shapes already placed, the one under evaluation
    last. *)
Record Item : Type := mkItem {
  contour : Polygon;
  item_rotation : Q;
  item_translation : IntPoint
}.

Definition vertexCount (it : Item) : nat := length (contour it).

Record Box : Type := mkBox {
  minCorner : IntPoint;
  maxCorner : IntPoint
}.

Definition Box_default : Box := mkBox (0, 0)%Z (0, 0)%Z.

Definition Box_width (b : Box) : Z := (fst (maxCorner b) - fst (minCorner b))%Z.

Definition Pile : Type := list Polygon.

Inductive Alignment : Type := CENTER | BOTTOM_LEFT | BOTTOM_RIGHT | TOP_LEFT | TOP_RIGHT.

(** The placement configuration handed to the arranger; the objective
    function receives the pile, the summed area, the norming factor and the
    penalty. *)
Record PConf : Type := mkPConf {
  alignment : Alignment;
  starting_point : Alignment;
  rotations : list Q;
  object_function : Pile -> Q -> Q -> Q -> outcome Q
}.

(** An arrangement result: pack groups (one per bin), each a sequence of
    input indices with the placed item. *)
Definition PackGroup : Type := list (nat * Item).

(** The operations of libnest2d the arrangement calls: the geometry helpers
    used by the objective function, and the arranger itself, which receives
    the bin, the minimum object distance, the placement configuration and
    the shapes.  The progress indicator only reports; it is left out. *)
Class Nest2D : Type := {
  boundingBox : Pile -> Box;
  referenceVertex : Polygon -> IntPoint;
  Box_center : Box -> IntPoint;
  distance : IntPoint -> IntPoint -> Q;
  wouldFit : Box -> Box -> bool;
  arrangeIndexed : Box -> Z -> PConf -> list Item -> list PackGroup
}.

(** A pointer to a [ModelInstance] owned by the model: the position of its
    object in [objects] and its own position in [instances]. *)
Definition InstancePtr : Type := (nat * nat)%type.

Definition ShapeData2D : Type := list (InstancePtr * Item).

Definition instance_at (m : Model) (p : InstancePtr) : option ModelInstance :=
  match nth_error (objects m) (fst p) with
  | Some o => nth_error (instances o) (snd p)
  | None => None
  end.

Definition write_instance (m : Model) (p : InstancePtr) (f : ModelInstance -> ModelInstance) : Model :=
  set_objects m
    (update_nth (fun o => set_instances o (update_nth f (instances o) (snd p)))
                (objects m) (fst p)).

Section Arrange.
Context {libm : Libm} {consts : Libslic3r} {meshops : MeshOps} {geom : GeometryLib}
        {nest : Nest2D}.

(** The instance loop of [projectModelFromTop] for the object at position
    [oi]: scale the raw mesh, take its hull, orient and close the ring,
    and keep the item when it has more than three vertices. *)
Definition project_instance (rmesh : TriangleMesh) (oi : nat)
           (acc : ShapeData2D * nat) (objinst : ModelInstance) : outcome (ShapeData2D * nat) :=
  let (ret, ii) := acc in
  let tmpmesh := mesh_scale (scaling_factor objinst) rmesh in
  let p := make_clockwise (convex_hull tmpmesh) in
  first_point <- vec_front p ;;
  let p := p ++ [first_point] in
  let item := mkItem p 0 (0, 0)%Z in
  if Nat.ltb 3 (vertexCount item) then
    let item := mkItem (contour item) (rotation objinst)
                       (to_Coord (px (offset objinst) / SCALING_FACTOR),
                        to_Coord (py (offset objinst) / SCALING_FACTOR)) in
    Ok (ret ++ [((oi, ii), item)], S ii)
  else Ok (ret, S ii).

Definition projectModelFromTop (model : Model) : outcome ShapeData2D :=
  r <- foldM (fun (acc : ShapeData2D * nat) objptr =>
                let (ret, oi) := acc in
                let rmesh := raw_mesh objptr in
                '(ret, _) <- foldM (project_instance rmesh oi) (instances objptr) (ret, O) ;;
                Ok (ret, S oi))
             (objects model) ([], O) ;;
  Ok (fst r).

(** The quotient of two doubles: by zero it is an infinity or a NaN, and no
    rational. *)
Definition double_div (a b : Q) : outcome Q :=
  if Qeq_bool b 0 then NonFinite else Ok (a / b).

(** The objective function of [arr::arrange], closed over [bin] and
    [hasbin].  [pile.back()] of an empty pile is undefined. *)
Definition arrange_object_function (bin : Box) (hasbin : bool)
           (pile : Pile) (area norm penality : Q) : outcome Q :=
  let bb := boundingBox pile in
  sh <- vec_front (rev pile) ;;
  let rv := referenceVertex sh in
  let c := Box_center bin in
  let d := distance rv c in
  score <- double_div d norm ;;
  let score := if hasbin && negb (wouldFit bb bin) then 2 * penality - score else score in
  Ok score.

Definition hasbin_of (bb : option BoundingBoxf) : bool :=
  match bb with
  | Some b => defined2 b
  | None => false
  end.

Definition bin_of (bb : option BoundingBoxf) : Box :=
  match bb with
  | Some b =>
      if defined2 b then
        let bbb := bb2_scale b (1 / SCALING_FACTOR) in
        mkBox (to_Coord (px (bmin2 bbb)), to_Coord (py (bmin2 bbb)))
              (to_Coord (px (bmax2 bbb)), to_Coord (py (bmax2 bbb)))
      else Box_default
  | None => Box_default
  end.

(** The call [arranger.arrangeIndexed(shapes.begin(), shapes.end())] with
    the configuration [arr::arrange] builds. *)
Definition arrange_result (shapemap : ShapeData2D) (dist : Q) (bb : option BoundingBoxf)
  : list PackGroup :=
  let min_obj_distance := to_Coord (dist / SCALING_FACTOR) in
  let hasbin := hasbin_of bb in
  let shapes := map snd shapemap in
  let bin := bin_of bb in
  let pcfg := mkPConf CENTER CENTER [0] (arrange_object_function bin hasbin) in
  arrangeIndexed bin min_obj_distance pcfg shapes.

(** [applyResult]: every entry of the group writes the item's rotation and
    its translation, scaled back and shifted by the batch offset, onto the
    instance the shape map holds for the entry's index. *)
Definition applyResult (shapemap : ShapeData2D) (model : Model)
           (group : PackGroup) (batch_offset : Z) : outcome Model :=
  foldM (fun model (r : nat * Item) =>
           let idx := fst r in
           let item := snd r in
           entry <- vec_at shapemap idx ;;
           let inst_ptr := fst entry in
           let off := item_translation item in
           let rot := item_rotation item in
           let foff := mkPointf (inject_Z (fst off) * SCALING_FACTOR + inject_Z batch_offset)
                                (inject_Z (snd off) * SCALING_FACTOR) in
           Ok (write_instance model inst_ptr (fun i => set_placement i rot foff)))
        group model.

Definition arrange (model : Model) (dist : Q) (bb : option BoundingBoxf)
           (first_bin_only : bool) : outcome (bool * Model) :=
  let ret := true in
  shapemap <- projectModelFromTop model ;;
  let bin := bin_of bb in
  let result := arrange_result shapemap dist bb in
  model <- (if first_bin_only then
              front <- vec_front result ;;
              applyResult shapemap model front 0
            else
              let stride := to_Coord ((12 # 10) * inject_Z (Box_width bin) * SCALING_FACTOR) in
              r <- foldM (fun (acc : Model * Z) group =>
                            let (model, batch_offset) := acc in
                            model <- applyResult shapemap model group batch_offset ;;
                            Ok (model, (batch_offset + stride)%Z))
                         result (model, 0%Z) ;;
              Ok (fst r)) ;;
  let model := set_objects model (map invalidate_bounding_box (objects model)) in
  Ok (ret && Nat.eqb (length result) 1, model).
End Arrange.

Section Layout.
Context {libm : Libm} {consts : Libslic3r} {meshops : MeshOps} {geom : GeometryLib}
        {nest : Nest2D}.

(** The first loop of the branch of [arrange_objects] without a bin: the
    snug size and centre of every instance, in model order. *)
Definition instance_sizes_centers (model : Model) : outcome (Pointfs * Pointfs) :=
  foldM (fun (acc : Pointfs * Pointfs) o =>
           foldM (fun (acc : Pointfs * Pointfs) i =>
                    let (instance_sizes, instance_centers) := acc in
                    bbox <- instance_bounding_box o i true ;;
                    Ok (instance_sizes ++ [to_Pointf (bb_size bbox)],
                        instance_centers ++ [to_Pointf (bb_center bbox)]))
                 (seq 0 (length (instances o))) acc)
        (objects model) ([], []).

(** The second loop: instance number [idx] moves to
    [positions[idx] - instance_centers[idx]]. *)
Definition apply_positions (positions instance_centers : Pointfs) (model : Model)
  : outcome Model :=
  r <- foldM (fun (acc : list ModelObject * nat) o =>
                let (done, idx) := acc in
                r <- foldM (fun (acc : list ModelInstance * nat) i =>
                              let (placed, idx) := acc in
                              pos <- vec_at positions idx ;;
                              ctr <- vec_at instance_centers idx ;;
                              Ok (placed ++ [set_offset i (Pointf_minus pos ctr)], S idx))
                           (instances o) ([], idx) ;;
                Ok (done ++ [invalidate_bounding_box (set_instances o (fst r))], snd r))
             (objects model) ([], O) ;;
  Ok (set_objects model (fst r)).

Definition arrange_objects (model : Model) (dist : Q) (bb : option BoundingBoxf)
  : outcome (bool * Model) :=
  let ret := false in
  if hasbin_of bb then
    r <- arrange model dist bb false ;;
    let ret := fst r in
    Ok (ret, snd r)
  else
    sc <- instance_sizes_centers model ;;
    let (instance_sizes, instance_centers) := sc in
    r <- _arrange instance_sizes dist bb [] ;;
    let (ok, positions) := r in
    if negb ok then Ok (false, model)
    else
      model <- apply_positions positions instance_centers model ;;
      Ok (ret, model).

(** [duplicate(copies_num, dist, bb)]. *)
Definition duplicate (model : Model) (copies_num : N) (dist : Q) (bb : option BoundingBoxf)
  : outcome Model :=
  let (mbb, model) := Model_bounding_box model in
  let model_sizes :=
    repeat (to_Pointf (bb_size mbb)) (N.to_nat (size_t_sub copies_num 1)) in
  r <- _arrange model_sizes dist bb [] ;;
  let (ok, positions) := r in
  if negb ok then
    Confess "Cannot duplicate part as the resulting objects would not fit on the print bed."
  else
    Ok (set_objects model
          (map (fun o =>
                  let snapshot := instances o in
                  let o :=
                    fold_left
                      (fun o i =>
                         fold_left
                           (fun o pos =>
                              let o := add_instance_copy o i in
                              set_instances o
                                (update_nth
                                   (fun inst => set_offset inst
                                      (Pointf_translate (offset inst) (px pos) (py pos)))
                                   (instances o) (length (instances o) - 1)))
                           positions o)
                      snapshot o in
                  invalidate_bounding_box o)
               (objects model))).

(** [duplicate_objects(copies_num, dist, bb)]: the result of
    [arrange_objects] is dropped. *)
Definition duplicate_objects (model : Model) (copies_num : N) (dist : Q)
           (bb : option BoundingBoxf) : outcome Model :=
  let model :=
    set_objects model
      (map (fun o =>
              fold_left
                (fun o i =>
                   fold_left (fun o _ => add_instance_copy o i)
                             (seq 2 (N.to_nat copies_num - 1)) o)
                (instances o) o)
           (objects model)) in
  r <- arrange_objects model dist bb ;;
  Ok (snd r).

(** [duplicate_objects_grid(x, y, dist)]; [x] and [y] are [size_t], at most
    [SIZE_MAX]. *)
Definition duplicate_objects_grid (model : Model) (nx ny : N) (dist : Q) : outcome Model :=
  if Nat.ltb 1 (length (objects model))
  then Throw "Grid duplication is not supported with multiple objects"
  else
    match objects model with
    | [] => Throw "No objects!"
    | object :: others =>
        let object := clear_instances object in
        let (bb, object) := bounding_box object in
        let size := bb_size bb in
        object <-
          for_size_t nx
            (fun x_copy object =>
               for_size_t ny
                 (fun y_copy object =>
                    let object := add_instance object in
                    Ok (set_instances object
                          (update_nth
                             (fun instance =>
                                set_offset instance
                                  (mkPointf
                                     ((x size + dist) * inject_Z (Z.of_nat (x_copy - 1)))
                                     ((y size + dist) * inject_Z (Z.of_nat (y_copy - 1)))))
                             (instances object) (length (instances object) - 1))))
                 object)
            object ;;
        Ok (set_objects model (object :: others))
    end.
End Layout.

(** ** Materials, default instances, extruder numbering *)

(** The material map [std::map<t_model_material_id, ModelMaterial*>] is the
    association list [materials]; a key occurs at most once.  No modelled
    function iterates over the map, so the position of a new key in the list
    is not observed. *)
Fixpoint materials_find (mats : list (string * ModelMaterial)) (material_id : string)
  : option ModelMaterial :=
  match mats with
  | [] => None
  | (k, mat) :: rest =>
      if String.eqb k material_id then Some mat else materials_find rest material_id
  end.

(** [materials[material_id] = material]. *)
Fixpoint materials_assign (mats : list (string * ModelMaterial)) (material_id : string)
         (material : ModelMaterial) : list (string * ModelMaterial) :=
  match mats with
  | [] => [(material_id, material)]
  | (k, mat) :: rest =>
      if String.eqb k material_id then (material_id, material) :: rest
      else (k, mat) :: materials_assign rest material_id material
  end.

(** [materials.erase(i)] for the iterator [i] found for [material_id]. *)
Definition materials_erase (mats : list (string * ModelMaterial)) (material_id : string)
  : list (string * ModelMaterial) :=
  filter (fun kv => negb (String.eqb (fst kv) material_id)) mats.

Definition set_materials (m : Model) (mats : list (string * ModelMaterial)) : Model :=
  mkModel mats (objects m).

(** Modelled from the spec: [Model::get_material] of Model.hpp, which is not
    among the sources: the material "resolved against the owning Model's
    material map", null when the map has no entry for the id. *)
Definition get_material (m : Model) (material_id : string) : option ModelMaterial :=
  materials_find (materials m) material_id.

Definition delete_material (m : Model) (material_id : string) : Model :=
  match materials_find (materials m) material_id with
  | Some _ => set_materials m (materials_erase (materials m) material_id)
  | None => m
  end.

Definition clear_materials (m : Model) : Model := set_materials m [].

Definition clear_objects (m : Model) : Model := set_objects m [].

(** [add_material(material_id)]: the existing material, or a fresh one with
    no attributes stored under the id.  The result is the material the
    returned pointer refers to, with the model. *)
Definition add_material (m : Model) (material_id : string) : ModelMaterial * Model :=
  match get_material m material_id with
  | Some material => (material, m)
  | None =>
      let material := mkMaterial [] in
      (material, set_materials m (materials_assign (materials m) material_id material))
  end.

(** [add_material(material_id, other)]: a copy of [other] replaces whatever
    the id held. *)
Definition add_material_copy (m : Model) (material_id : string) (other : ModelMaterial)
  : ModelMaterial * Model :=
  let material := mkMaterial (attributes other) in
  (material, set_materials m (materials_assign (materials m) material_id material)).

(** A pointer to a [ModelVolume] owned by the model: the position of its
    object and its own position in [volumes]. *)
Definition VolumePtr : Type := (nat * nat)%type.

Definition volume_at (m : Model) (p : VolumePtr) : option ModelVolume :=
  match nth_error (objects m) (fst p) with
  | Some o => nth_error (volumes o) (snd p)
  | None => None
  end.

Definition write_volume (m : Model) (p : VolumePtr) (f : ModelVolume -> ModelVolume) : Model :=
  set_objects m
    (update_nth (fun o => set_volumes o (update_nth f (volumes o) (snd p)))
                (objects m) (fst p)).

Definition set_material_id (v : ModelVolume) (id : string) : ModelVolume :=
  mkVolume (volume_name v) (mesh v) (modifier v) id (config v).

(** [ModelVolume::material_id(material_id)], called on the volume [p]. *)
Definition ModelVolume_material_id (m : Model) (p : VolumePtr) (id : string) : outcome Model :=
  match volume_at m p with
  | None => Undefined
  | Some _ =>
      let m := write_volume m p (fun v => set_material_id v id) in
      Ok (snd (add_material m id))
  end.

(** [ModelVolume::material() const]. *)
Definition ModelVolume_material (m : Model) (p : VolumePtr) : outcome (option ModelMaterial) :=
  match volume_at m p with
  | None => Undefined
  | Some v => Ok (get_material m (material_id v))
  end.

(** [ModelVolume::set_material(material_id, material)]. *)
Definition ModelVolume_set_material (m : Model) (p : VolumePtr) (id : string)
           (material : ModelMaterial) : outcome Model :=
  match volume_at m p with
  | None => Undefined
  | Some _ =>
      let m := write_volume m p (fun v => set_material_id v id) in
      Ok (snd (add_material_copy m id material))
  end.

(** [add_default_instances]: an object without instances gets the default
    one. *)
Definition add_default_instances (m : Model) : bool * Model :=
  (true, set_objects m (map (fun o => match instances o with
                                      | [] => add_instance o
                                      | _ => o
                                      end) (objects m))).

(** The static [s_auto_extruder_id] is an [unsigned int]: [N] modulo 2^32.
    The functions take the counter and return it with their result. *)
Definition uint_incr (n : N) : N := ((n + 1) mod 2 ^ 32)%N.

Definition reset_auto_extruder_id (s_auto_extruder_id : N) : N := 1%N.

Definition get_auto_extruder_id (s_auto_extruder_id max_extruders : N) : N * N :=
  let id := s_auto_extruder_id in
  let s_auto_extruder_id := uint_incr s_auto_extruder_id in
  if (max_extruders <? s_auto_extruder_id)%N
  then (id, reset_auto_extruder_id s_auto_extruder_id)
  else (id, s_auto_extruder_id).

(** [n] successive calls of [get_auto_extruder_id]: the ids in call order and
    the counter left behind. *)
Fixpoint auto_extruder_ids (n : nat) (s_auto_extruder_id max_extruders : N) : list N * N :=
  match n with
  | O => ([], s_auto_extruder_id)
  | S k =>
      let (id, s) := get_auto_extruder_id s_auto_extruder_id max_extruders in
      let (ids, s') := auto_extruder_ids k s max_extruders in
      (id :: ids, s')
  end.

(** [get_auto_extruder_id_as_string]: the format is ["%ud"], the id in
    decimal followed by the letter d. *)
Definition decimal (n : N) : string :=
  DecimalString.NilZero.string_of_uint (N.to_uint n).

Definition get_auto_extruder_id_as_string (s_auto_extruder_id max_extruders : N)
  : string * N :=
  let (id, s_auto_extruder_id) := get_auto_extruder_id s_auto_extruder_id max_extruders in
  ((decimal id ++ "d")%string, s_auto_extruder_id).

(** ** Splitting a volume *)

Definition set_volume_name (v : ModelVolume) (n : string) : ModelVolume :=
  mkVolume n (mesh v) (modifier v) (material_id v) (config v).

Definition set_config (v : ModelVolume) (c : list (string * string)) : ModelVolume :=
  mkVolume (volume_name v) (mesh v) (modifier v) (material_id v) c.

(** Modelled from the spec: [DynamicPrintConfig::set_deserialize] of
    PrintConfig, which is not among the sources ("per-volume config
    overrides"): the option is overwritten, or added when it is not set. *)
Fixpoint set_deserialize (c : list (string * string)) (key value : string)
  : list (string * string) :=
  match c with
  | [] => [(key, value)]
  | (k, old) :: rest =>
      if String.eqb k key then (k, value) :: rest
      else (k, old) :: set_deserialize rest key value
  end.

(** Modelled from the spec: the constructor
    [ModelVolume(object, other, mesh)] of Model.hpp, which is not among the
    sources: the new volume has the name, the configuration, the modifier
    flag and the material id of [other] and the mesh it is given. *)
Definition ModelVolume_with_mesh (other : ModelVolume) (m : TriangleMesh) : ModelVolume :=
  mkVolume (volume_name other) m (modifier other) (material_id other) (config other).

(** [v.insert(v.begin() + i, a)]; past the end it is undefined. *)
Definition vec_insert {A : Type} (v : list A) (i : nat) (a : A) : outcome (list A) :=
  if Nat.leb i (length v) then Ok (firstn i v ++ a :: skipn i v) else Undefined.

Section VolumeSplit.
Context {parts : MeshParts}.

(** [ModelVolume::split(max_extruders)] for the volume at position [this]
    of the object's volumes, with the static extruder counter.  It returns
    the number of parts, the object and the counter.  [std::find] gives the
    position of the volume itself; the first part replaces its mesh, every
    further part becomes a copy of the volume inserted behind the last
    one.  The object's bounding-box cache is not touched. *)
Definition ModelVolume_split (o : ModelObject) (this : nat) (max_extruders : N)
           (s_auto_extruder_id : N) : outcome (N * ModelObject * N) :=
  self <- vec_at (volumes o) this ;;
  let meshptrs := mesh_split (mesh self) in
  if Nat.leb (length meshptrs) 1 then
    _ <- vec_front meshptrs ;;
    Ok (1%N, o, s_auto_extruder_id)
  else
    let ivolume := this in
    let name := volume_name self in
    let s_auto_extruder_id := reset_auto_extruder_id s_auto_extruder_id in
    r <- foldM (fun (acc : N * nat * list ModelVolume * N) part =>
                  let '(idx, ivolume, vols, s_auto_extruder_id) := acc in
                  let part := mesh_repair part in
                  '(ivolume, vols) <-
                    (if (idx =? 0)%N then
                       Ok (ivolume, update_nth (fun v => set_mesh v part) vols this)
                     else
                       self <- vec_at vols this ;;
                       let ivolume := S ivolume in
                       vols <- vec_insert vols ivolume (ModelVolume_with_mesh self part) ;;
                       Ok (ivolume, vols)) ;;
                  let str_idx := ("_" ++ decimal (idx + 1))%string in
                  _ <- vec_at vols ivolume ;;
                  let vols := update_nth (fun v => set_volume_name v (name ++ str_idx)%string)
                                         vols ivolume in
                  let (extruder, s_auto_extruder_id) :=
                    get_auto_extruder_id_as_string s_auto_extruder_id max_extruders in
                  let vols :=
                    update_nth (fun v => set_config v (set_deserialize (config v) "extruder"
                                                                      extruder))
                               vols ivolume in
                  Ok ((idx + 1)%N, ivolume, vols, s_auto_extruder_id))
               meshptrs (0%N, ivolume, volumes o, s_auto_extruder_id) ;;
    let '(idx, _, vols, s_auto_extruder_id) := r in
    Ok (idx, set_volumes o vols, s_auto_extruder_id).
End VolumeSplit.

(** [facets_count]: the facets of the volumes that are not modifiers. *)
Definition facets_count (o : ModelObject) : nat :=
  fold_left (fun num v => if negb (modifier v) then (num + number_of_facets (mesh v))%nat else num)
            (volumes o) O.

(** ** Centring *)

(** Modelled from the spec: [negative], [rotate], [scale] and [translate] of
    [Pointf3] (Point.hpp is not among the sources), "pure value types with
    ... translate/rotate/scale": the rotation is the planar one about the
    origin and leaves z alone. *)
Definition Pointf3_negative (p : Pointf3) : Pointf3 := mkPointf3 (- x p) (- y p) (- z p).

Definition Pointf3_rotate `{Libm} (angle : Q) (p : Pointf3) : Pointf3 :=
  let s := sin angle in
  let c := cos angle in
  mkPointf3 (c * x p - s * y p) (c * y p + s * x p) (z p).

Definition Pointf3_scale (factor : Q) (p : Pointf3) : Pointf3 :=
  mkPointf3 (x p * factor) (y p * factor) (z p * factor).

Section Centring.
Context {libm : Libm} {consts : Libslic3r}.

(** The first loop of [center_instances_around_point]: the merged snug box
    of all instances of all objects. *)
Definition all_instances_bounding_box (m : Model) : outcome BoundingBoxf3 :=
  foldM (fun bb o =>
           foldM (fun bb i =>
                    b <- instance_bounding_box o i false ;;
                    Ok (merge_box bb b))
                 (seq 0 (length (instances o))) bb)
        (objects m) BoundingBoxf3_default.

Definition center_instances_around_point (m : Model) (point : Pointf) : outcome Model :=
  bb <- all_instances_bounding_box m ;;
  let size := bb_size bb in
  let shift_x := - x (bmin bb) + px point - x size / 2 in
  let shift_y := - y (bmin bb) + py point - y size / 2 in
  Ok (set_objects m
        (map (fun o =>
                invalidate_bounding_box
                  (set_instances o
                     (map (fun i => set_offset i (Pointf_translate (offset i) shift_x shift_y))
                          (instances o))))
             (objects m))).

(** The displacement [center_around_origin] computes from the box of the
    solid volumes: the box is put on the origin and then centred in x and
    y. *)
Definition center_vector (o : ModelObject) : Pointf3 :=
  let bb := fold_left (fun bb v => if negb (modifier v)
                                   then merge_box bb (mesh_bounding_box (mesh v)) else bb)
                      (volumes o) BoundingBoxf3_default in
  let vector := mkPointf3 (- x (bmin bb)) (- y (bmin bb)) (- z (bmin bb)) in
  let size := bb_size bb in
  mkPointf3 (x vector - x size / 2) (y vector - y size / 2) (z vector).

Definition center_around_origin (o : ModelObject) : ModelObject :=
  let vector := center_vector o in
  let o := translate o (x vector) (y vector) (z vector) in
  let o := set_origin_translation o (Pointf3_translate (origin_translation o) vector) in
  match instances o with
  | [] => o
  | _ =>
      invalidate_bounding_box
        (set_instances o
           (map (fun i =>
                   let v := Pointf3_negative vector in
                   let v := Pointf3_rotate (rotation i) v in
                   let v := Pointf3_scale (scaling_factor i) v in
                   set_offset i (Pointf_translate (offset i) (x v) (y v)))
                (instances o)))
  end.
(** [adjust_min_z]: when the box of the model reaches below z = 0, every
    object whose own box does is lifted by the depth of its own box. *)
Definition adjust_min_z (m : Model) : Model :=
  match objects m with
  | [] => m
  | _ =>
      let (bb, m) := Model_bounding_box m in
      if Qltb (z (bmin bb)) 0 then
        set_objects m
          (map (fun obj =>
                  let (obb, obj) := bounding_box obj in
                  let obj_min_z := z (bmin obb) in
                  if Qltb obj_min_z 0 then translate obj 0 0 (- obj_min_z) else obj)
               (objects m))
      else m
  end.

End Centring.

(** ** Reference notions used to state the properties *)

(** Componentwise equality of boxes up to equality of rationals. *)
Definition Pointf3_eq (p q : Pointf3) : Prop :=
  x p == x q /\ y p == y q /\ z p == z q.

Definition bbox_eq (a b : BoundingBoxf3) : Prop :=
  Pointf3_eq (bmin a) (bmin b) /\ Pointf3_eq (bmax a) (bmax b) /\ defined a = defined b.

(** Least and greatest element of a non-empty sequence of numbers. *)
Definition min_element (a : Q) (l : list Q) : Q := fold_left (fun m q => std_min q m) l a.
Definition max_element (a : Q) (l : list Q) : Q := fold_left (fun m q => std_max q m) l a.

(** The componentwise min/max box of a point set; no point, no box. *)
Definition points_bbox (pts : list Pointf3) : BoundingBoxf3 :=
  match pts with
  | [] => BoundingBoxf3_default
  | p :: rest =>
      mkBB3 (mkPointf3 (min_element (x p) (map x rest)) (min_element (y p) (map y rest))
                       (min_element (z p) (map z rest)))
            (mkPointf3 (max_element (x p) (map x rest)) (max_element (y p) (map y rest))
                       (max_element (z p) (map z rest)))
            true
  end.

Section Reference.
Context {libm : Libm} {consts : Libslic3r}.

(** The transform of the spec for a vertex [v]: [R_z(theta) (s v)], plus
    the offset in x and y unless [dont_translate]. *)
Definition spec_vertex (theta s : Q) (t : Pointf) (dont_translate : bool) (v : Pointf3)
  : Pointf3 :=
  let sv := mkPointf3 (s * x v) (s * y v) (s * z v) in
  let r := mkPointf3 (cos theta * x sv - sin theta * y sv)
                     (sin theta * x sv + cos theta * y sv) (z sv) in
  if dont_translate then r else mkPointf3 (x r + px t) (y r + py t) (z r).

Definition spec_mesh_bounding_box (inst : ModelInstance) (m : TriangleMesh)
           (dont_translate : bool) : BoundingBoxf3 :=
  points_bbox (map (spec_vertex (rotation inst) (scaling_factor inst) (offset inst)
                                dont_translate) (mesh_vertices m)).

(** The snug box of one instance over all the non-modifier volumes of its
    object, translation applied. *)
Definition snug_instance_box (o : ModelObject) (inst : ModelInstance) : BoundingBoxf3 :=
  points_bbox
    (map (spec_vertex (rotation inst) (scaling_factor inst) (offset inst) false)
         (flat_map (fun v => if modifier v then [] else mesh_vertices (mesh v)) (volumes o))).

(** The box of an object as the spec words it: "the object's raw-volume
    bounding box merged, then each instance's affine transform applied to
    that single box", the boxes of the instances merged in turn.  Modifier
    volumes do not enter the raw box. *)
Definition merged (boxes : list BoundingBoxf3) : BoundingBoxf3 :=
  fold_left merge_box boxes BoundingBoxf3_default.

Definition spec_raw_volume_box (o : ModelObject) : BoundingBoxf3 :=
  merged (map (fun v => mesh_bounding_box (mesh v))
              (filter (fun v => negb (modifier v)) (volumes o))).

Definition spec_bounding_box (o : ModelObject) : BoundingBoxf3 :=
  merged (map (fun i => transform_bounding_box i (spec_raw_volume_box o) false)
              (instances o)).

(** The cache invariant: a cache flagged valid holds the box of the object
    as it is now. *)
Definition cache_consistent (o : ModelObject) : Prop :=
  m_bounding_box_valid o = true -> m_bounding_box o = spec_bounding_box o.
End Reference.

(** The placement of an instance: rotation, scaling factor and offset,
    that is, everything but the stored classification. *)
Definition placement (i : ModelInstance) : Q * Q * Pointf :=
  (rotation i, scaling_factor i, offset i).

(** The grid of the spec for an object of size [(sx, sy)]: one offset
    [((sx + dist) i, (sy + dist) j)] for every [i < nx] and [j < ny]. *)
Definition grid_offsets (sx sy dist : Q) (nx ny : nat) : list Pointf :=
  flat_map (fun i => map (fun j => mkPointf ((sx + dist) * inject_Z (Z.of_nat i))
                                            ((sy + dist) * inject_Z (Z.of_nat j)))
                         (seq 0 ny))
           (seq 0 nx).

Section CacheSteps.
Context {libm : Libm} {meshops : MeshOps} {parts : MeshParts}.

(** One mutation of the volumes or instances of an object through a method
    that calls [invalidate_bounding_box]. *)
Inductive invalidating_mutation (o : ModelObject) : ModelObject -> Prop :=
| mut_add_volume (m : TriangleMesh) : invalidating_mutation o (add_volume o m)
| mut_add_volume_copy (v : ModelVolume) : invalidating_mutation o (add_volume_copy o v)
| mut_delete_volume (idx : nat) (o' : ModelObject) :
    delete_volume o idx = Ok o' -> invalidating_mutation o o'
| mut_clear_volumes : invalidating_mutation o (clear_volumes o)
| mut_add_instance : invalidating_mutation o (add_instance o)
| mut_add_instance_copy (i : ModelInstance) : invalidating_mutation o (add_instance_copy o i)
| mut_delete_instance (idx : nat) (o' : ModelObject) :
    delete_instance o idx = Ok o' -> invalidating_mutation o o'
| mut_delete_last_instance (o' : ModelObject) :
    delete_last_instance o = Ok o' -> invalidating_mutation o o'
| mut_clear_instances : invalidating_mutation o (clear_instances o)
| mut_scale (versor : Pointf3) : invalidating_mutation o (scale o versor)
| mut_rotate (angle : Q) (axis : Axis) : invalidating_mutation o (rotate o angle axis)
| mut_transform (mat : list Q) : invalidating_mutation o (transform o (Some mat))
| mut_mirror (axis : Axis) : invalidating_mutation o (mirror o axis)
| mut_center_around_origin :
    instances o <> [] -> invalidating_mutation o (center_around_origin o).

(** One mutation of the volumes of an object through a method that does not
    call [invalidate_bounding_box]: [translate], [center_around_origin] on
    an object without instances, and [ModelVolume::split] on one of the
    volumes. *)
Inductive cache_keeping_mutation (o : ModelObject) : ModelObject -> Prop :=
| mut_translate (dx dy dz : Q) : cache_keeping_mutation o (translate o dx dy dz)
| mut_center_without_instances :
    instances o = [] -> cache_keeping_mutation o (center_around_origin o)
| mut_split (this : nat) (max_extruders s n s' : N) (o' : ModelObject) :
    ModelVolume_split o this max_extruders s = Ok (n, o', s') ->
    cache_keeping_mutation o o'.
End CacheSteps.

Section ModelWriters.
Context {libm : Libm} {consts : Libslic3r} {meshops : MeshOps} {geom : GeometryLib}
        {nest : Nest2D}.

(** A call of a method of the model that itself writes placements of
    instances or adds instances, and changes the model. *)
Inductive model_writer (m : Model) : Model -> Prop :=
| write_center (point : Pointf) (m' : Model) :
    center_instances_around_point m point = Ok m' -> model_writer m m'
| write_arrange (dist : Q) (bb : option BoundingBoxf) (first_bin_only r : bool) (m' : Model) :
    arrange m dist bb first_bin_only = Ok (r, m') -> model_writer m m'
| write_arrange_objects (dist : Q) (bb : option BoundingBoxf) (r : bool) (m' : Model) :
    arrange_objects m dist bb = Ok (r, m') -> m' <> m -> model_writer m m'
| write_duplicate (copies_num : N) (dist : Q) (bb : option BoundingBoxf) (m' : Model) :
    duplicate m copies_num dist bb = Ok m' -> model_writer m m'.
End ModelWriters.

(** The instance [p] is the target of some entry of the pack group. *)
Definition targets (shapemap : ShapeData2D) (group : PackGroup) (p : InstancePtr) : Prop :=
  exists idx item entry,
    In (idx, item) group /\ nth_error shapemap idx = Some entry /\ fst entry = p.

(** The placement an entry writes: rotation and offset come from the item,
    scaling factor and classification stay. *)
Definition placed `{Libslic3r} (item : Item) (batch_offset : Z) (i : ModelInstance) : ModelInstance :=
  mkInstance (item_rotation item) (scaling_factor i)
             (mkPointf (inject_Z (fst (item_translation item)) * SCALING_FACTOR
                        + inject_Z batch_offset)
                       (inject_Z (snd (item_translation item)) * SCALING_FACTOR))
             (print_volume_state i).

(** Two instances that differ at most in rotation and offset. *)
Definition same_but_placement (a b : option ModelInstance) : Prop :=
  option_map scaling_factor a = option_map scaling_factor b
  /\ option_map print_volume_state a = option_map print_volume_state b.

Section Scores.
Context {nest : Nest2D}.

(** The normalised distance of a shape's reference vertex from the bin
    centre. *)
Definition distance_score (bin : Box) (norm : Q) (sh : Polygon) : Q :=
  distance (referenceVertex sh) (Box_center bin) / norm.
End Scores.

(** What no arrangement touches in an object: its identity, its volumes,
    and for every instance the scaling factor and the stored
    classification. *)
Definition kept_by_packing (o : ModelObject)
  : ptr * string * string * list ModelVolume * Pointf3 * list (Q * PrintVolumeState) :=
  (this o, name o, input_file o, volumes o, origin_translation o,
   map (fun i => (scaling_factor i, print_volume_state i)) (instances o)).

(** The distance along X between consecutive pack groups when
    [arr::arrange] lays out every bin: 1.2 times the bin width. *)
Definition arrange_stride `{Libslic3r} (bb : option BoundingBoxf) : Z :=
  to_Coord ((12 # 10) * inject_Z (Box_width (bin_of bb)) * SCALING_FACTOR).

(** The instance [duplicate] adds for the instance [i] at the packed
    position [pos]: a copy of [i] moved by [pos]. *)
Definition duplicate_at (i : ModelInstance) (pos : Pointf) : ModelInstance :=
  mkInstance (rotation i) (scaling_factor i)
             (Pointf_translate (offset i) (px pos) (py pos)) PVS_Inside.

(** A double that is a single-precision number: narrowing leaves it as it
    is. *)
Definition representable (q : Q) : Prop := to_float q == q.

(** The offset of the instance is made of single-precision numbers, before
    and after a move by [(sx, sy)]. *)
Definition placed_on_floats (sx sy : Q) (i : ModelInstance) : Prop :=
  representable (px (offset i)) /\ representable (py (offset i))
  /\ representable (px (offset i) + sx) /\ representable (py (offset i) + sy).

(** The box [b] is the box [a] moved by [(sx, sy, sz)], up to equality of
    rationals; nothing is said about the corners of an undefined box. *)
Definition moved_box (sx sy sz : Q) (a b : BoundingBoxf3) : Prop :=
  defined a = defined b
  /\ (defined a = true ->
      (x (bmin b) == x (bmin a) + sx /\ y (bmin b) == y (bmin a) + sy
       /\ z (bmin b) == z (bmin a) + sz)
      /\ (x (bmax b) == x (bmax a) + sx /\ y (bmax b) == y (bmax a) + sy
          /\ z (bmax b) == z (bmax a) + sz)).

(** No solid volume of the object is flat under any of its instances: the
    box of its rotated vertices has a positive extent on every axis, unless
    the mesh has no vertex at all. *)
Definition no_flat_volume `{Libm} (o : ModelObject) : Prop :=
  forall v inst,
    In v (volumes o) -> modifier v = false -> In inst (instances o) ->
    empty (rotated_bounding_box inst (mesh v)) = false
    \/ defined (rotated_bounding_box inst (mesh v)) = false.

(** ** Concrete collaborators and models for the examples *)

(** The values of libslic3r.h. *)
Definition libslic3r_h : Libslic3r :=
  {| EPSILON := 1 # 10000; SCALING_FACTOR := 1 # 1000000 |}.

(** [cos] and [sin] at rotation 0, the rotation of every instance in the
    examples. *)
Definition libm_at_zero : Libm :=
  {| cos := fun _ => 1; sin := fun _ => 0 |}.

(** An axis-aligned box as a closed mesh of twelve facets. *)
Definition box_mesh (lo hi : Pointf3) : TriangleMesh :=
  let v (a b c : bool) :=
    mkPointf3 (if a then x hi else x lo) (if b then y hi else y lo) (if c then z hi else z lo) in
  let quad (p q r s : Pointf3) := [mkFacet p q r; mkFacet p r s] in
  mkMesh
    (quad (v false false false) (v false true false) (v true true false) (v true false false)
     ++ quad (v false false true) (v true false true) (v true true true) (v false true true)
     ++ quad (v false false false) (v true false false) (v true false true) (v false false true)
     ++ quad (v false true false) (v false true true) (v true true true) (v true true false)
     ++ quad (v false false false) (v false false true) (v false true true) (v false true false)
     ++ quad (v true false false) (v true true false) (v true true true) (v true false true)).

Section ExampleCollaborators.
Context {libm : Libm} {consts : Libslic3r}.

Definition rotate_about (angle : Q) (axis : Axis) (v : Pointf3) : Pointf3 :=
  let c := cos angle in
  let s := sin angle in
  match axis with
  | AxisX => mkPointf3 (x v) (c * y v - s * z v) (s * y v + c * z v)
  | AxisY => mkPointf3 (c * x v + s * z v) (y v) (c * z v - s * x v)
  | AxisZ => mkPointf3 (c * x v - s * y v) (s * x v + c * y v) (z v)
  end.

Definition mirror_about (axis : Axis) (v : Pointf3) : Pointf3 :=
  match axis with
  | AxisX => mkPointf3 (- x v) (y v) (z v)
  | AxisY => mkPointf3 (x v) (- y v) (z v)
  | AxisZ => mkPointf3 (x v) (y v) (- z v)
  end.

Definition apply_matrix3x4 (mat : list Q) (v : Pointf3) : Pointf3 :=
  let a i := nth i mat 0 in
  mkPointf3 (a 0%nat * x v + a 1%nat * y v + a 2%nat * z v + a 3%nat)
            (a 4%nat * x v + a 5%nat * y v + a 6%nat * z v + a 7%nat)
            (a 8%nat * x v + a 9%nat * y v + a 10%nat * z v + a 11%nat).

(** The footprint of a box-shaped mesh in the packer's coordinates: the
    rectangle under it, listed clockwise.  It is the convex hull of the
    projection for the box meshes of the examples. *)
Definition footprint_rectangle (m : TriangleMesh) : Polygon :=
  match mesh_vertices m with
  | [] => []
  | _ =>
      let bb := mesh_bounding_box m in
      let sc q := to_Coord (q / SCALING_FACTOR) in
      [ (sc (x (bmin bb)), sc (y (bmin bb))); (sc (x (bmin bb)), sc (y (bmax bb)));
        (sc (x (bmax bb)), sc (y (bmax bb))); (sc (x (bmax bb)), sc (y (bmin bb))) ]
  end.

Definition example_meshops : MeshOps :=
  {| mesh_rotate := fun angle axis => map_vertices (rotate_about angle axis);
     mesh_mirror := fun axis => map_vertices (mirror_about axis);
     mesh_transform := fun mat => map_vertices (apply_matrix3x4 mat);
     convex_hull := footprint_rectangle;
     make_clockwise := fun p => p |}.
End ExampleCollaborators.

(** The mesh collaborator with the constants of libslic3r.h and the
    rotation-0 trigonometry. *)
Definition cube_meshops : MeshOps := @example_meshops libm_at_zero libslic3r_h.

(** A mesh made of boxes of twelve facets each comes apart into its
    boxes; the repair finds nothing to mend. *)
Fixpoint chunks (fuel : nat) (facets : list stl_facet) : list TriangleMesh :=
  match fuel, facets with
  | O, _ => []
  | _, [] => []
  | S k, _ => mkMesh (firstn 12 facets) :: chunks k (skipn 12 facets)
  end.

Definition box_parts : MeshParts :=
  {| mesh_split := fun m => chunks (length (facet_start m)) (facet_start m);
     mesh_repair := fun m => m |}.

(** A rectangular packer that lays the cells out in one row along X and
    never fails. *)
Definition row_packer : GeometryLib :=
  {| geometry_arrange := fun total_parts part_size dist _ _ =>
       (true, map (fun i => mkPointf ((px part_size + dist) * inject_Z (Z.of_nat i)) 0)
                  (seq 0 total_parts)) |}.

(** A rectangular packer that gives up as soon as it is handed a bin and
    lays the cells out in one row when it is not. *)
Definition bin_shy_packer : GeometryLib :=
  {| geometry_arrange := fun total_parts part_size dist bb out =>
       match bb with
       | Some _ => (false, out)
       | None =>
           (true, map (fun i => mkPointf ((px part_size + dist) * inject_Z (Z.of_nat i)) 0)
                      (seq 0 total_parts))
       end |}.

(** A rectangular packer with room for a single cell: it fails as soon as
    there are two parts. *)
Definition single_cell_packer : GeometryLib :=
  {| geometry_arrange := fun total_parts part_size dist bb out =>
       if Nat.leb total_parts 1
       then (true, repeat (mkPointf 0 0) total_parts)
       else (false, out) |}.

(** A rectangular packer that always fails. *)
Definition failing_packer : GeometryLib :=
  {| geometry_arrange := fun _ _ _ _ out => (false, out) |}.

(** A nesting collaborator for the examples.  The geometry helpers follow
    their names: extent of the pile, topmost (then rightmost) vertex, centre
    of the box, Euclidean distance rounded down, and a fit test on width and
    height.  The arranger opens one bin per item and puts the item at the
    centre of the bin. *)
Definition extent (pts : list IntPoint) : Box :=
  match pts with
  | [] => Box_default
  | p :: rest =>
      mkBox (fold_left (fun m q => (Z.min (fst m) (fst q), Z.min (snd m) (snd q))) rest p)
            (fold_left (fun m q => (Z.max (fst m) (fst q), Z.max (snd m) (snd q))) rest p)
  end.

Definition topmost_rightmost (sh : Polygon) : IntPoint :=
  fold_left (fun m q => if (snd m <? snd q)%Z || ((snd m =? snd q)%Z && (fst m <? fst q)%Z)
                        then q else m)
            sh (hd (0, 0)%Z sh).

Definition one_item_per_bin : Nest2D :=
  let center (b : Box) : IntPoint :=
    (((fst (minCorner b) + fst (maxCorner b)) / 2)%Z,
     ((snd (minCorner b) + snd (maxCorner b)) / 2)%Z) in
  {| boundingBox := fun pile => extent (concat pile);
     referenceVertex := topmost_rightmost;
     Box_center := center;
     distance := fun a b =>
       inject_Z (Z.sqrt ((fst a - fst b) * (fst a - fst b) + (snd a - snd b) * (snd a - snd b)));
     wouldFit := fun bb bin =>
       (Box_width bb <=? Box_width bin)%Z
       && (snd (maxCorner bb) - snd (minCorner bb) <=? snd (maxCorner bin) - snd (minCorner bin))%Z;
     arrangeIndexed := fun bin _ _ shapes =>
       map (fun k => match nth_error shapes k with
                     | Some it => [(k, mkItem (contour it) (item_rotation it) (center bin))]
                     | None => []
                     end)
           (seq 0 (length shapes)) |}.

(** A cube of side 10 at the origin, as a solid volume and as an object with
    one default instance. *)
Definition cube10 : TriangleMesh := box_mesh (mkPointf3 0 0 0) (mkPointf3 10 10 10).

Definition cube_volume : ModelVolume := mkVolume "cube" cube10 false "" [].

Definition cube_object : ModelObject :=
  mkObject 1%N "cube" "cube.stl" [ModelInstance_default] [cube_volume]
           (mkPointf3 0 0 0) BoundingBoxf3_default false.

Definition cube_model : Model := mkModel [] [cube_object].

(** Two solid boxes in one object: a cube at the origin and a cube far away. *)
Definition far_cube : TriangleMesh := box_mesh (mkPointf3 100 100 100) (mkPointf3 110 110 110).

Definition two_part_object : ModelObject :=
  mkObject 2%N "two parts" "parts.amf" [ModelInstance_default]
           [mkVolume "far" far_cube false "" []; cube_volume]
           (mkPointf3 0 0 0) BoundingBoxf3_default false.

Definition print_volume_50 : BoundingBoxf3 :=
  mkBB3 (mkPointf3 0 0 0) (mkPointf3 50 50 50) true.

(** An object without instances whose only volume is a modifier, and one
    without instances that holds a solid cube. *)
Definition modifier_only_object : ModelObject :=
  mkObject 3%N "modifier" "" [] [mkVolume "mod" cube10 true "" []]
           (mkPointf3 0 0 0) BoundingBoxf3_default false.

Definition cube_without_instances : ModelObject :=
  mkObject 4%N "cube" "cube.stl" [] [cube_volume]
           (mkPointf3 0 0 0) BoundingBoxf3_default false.

(** The cube with one instance scaled by 2, and a model whose cube has two
    instances, the second at (40, 0). *)
Definition scaled_cube_object : ModelObject :=
  mkObject 5%N "cube" "cube.stl" [mkInstance 0 2 (mkPointf 0 0) PVS_Inside] [cube_volume]
           (mkPointf3 0 0 0) BoundingBoxf3_default false.

Definition two_cubes_model : Model :=
  mkModel []
    [mkObject 1%N "cube" "cube.stl"
              [ModelInstance_default; mkInstance 0 1 (mkPointf 40 0) PVS_Inside]
              [cube_volume] (mkPointf3 0 0 0) BoundingBoxf3_default false].

Definition small_bin : BoundingBoxf := mkBB2 (mkPointf 0 0) (mkPointf 12 12) true.

(** The shape map of the two-cube model and the two pack groups the
    one-item-per-bin arranger returns for it on the small bin. *)
Definition two_cubes_shapemap : ShapeData2D :=
  Eval vm_compute in
    match @projectModelFromTop libslic3r_h cube_meshops two_cubes_model with
    | Ok shapemap => shapemap
    | _ => []
    end.

Definition two_cubes_groups : list PackGroup :=
  Eval vm_compute in
    @arrange_result libslic3r_h one_item_per_bin two_cubes_shapemap 5 (Some small_bin).

(** Piles for the examples, on the bin (-10,-10)..(10,10): a square whose
    reference vertex is the bin centre, and the same square followed by one
    placed 30 units to the right, which makes the pile too wide for the
    bin. *)
Definition bin20 : Box := mkBox (-10, -10)%Z (10, 10)%Z.
Definition centre_square : Polygon := [(-2, -2); (-2, 0); (0, 0); (0, -2)]%Z.
Definition far_square : Polygon := [(28, -2); (28, 0); (30, 0); (30, -2)]%Z.

(** A model that owns the cube and the two-part object, with one material. *)
Definition pair_model : Model :=
  mkModel [("pla"%string, mkMaterial [("color"%string, "red"%string)])]
          [cube_object; two_part_object].

(** A model whose second object has no instance yet. *)
Definition model_missing_instance : Model :=
  mkModel [] [cube_object; cube_without_instances].

(** One volume whose mesh is made of two boxes, with its cache filled. *)
Definition two_box_object : ModelObject :=
  snd (@bounding_box libm_at_zero
         (mkObject 6%N "pair" "pair.stl" [ModelInstance_default]
                   [mkVolume "pair" (mesh_merge cube10 far_cube) false "" []]
                   (mkPointf3 0 0 0) BoundingBoxf3_default false)).

(** A flat square sheet of side 10 in the plane z = 0: two facets. *)
Definition flat_sheet : TriangleMesh :=
  mkMesh [mkFacet (mkPointf3 0 0 0) (mkPointf3 10 0 0) (mkPointf3 10 10 0);
          mkFacet (mkPointf3 0 0 0) (mkPointf3 10 10 0) (mkPointf3 0 10 0)].

(** * Properties *)

(** ** Basic facts *)

Lemma Qltb_true (a b : Q) : Qltb a b = true <-> a < b.
Proof.
  unfold Qltb. rewrite negb_true_iff.
  split; intro H.
  - apply Qnot_le_lt. intro Hle. apply Qle_bool_iff in Hle. congruence.
  - destruct (Qle_bool b a) eqn:E; [|reflexivity].
    apply Qle_bool_iff in E. exfalso. apply (Qlt_not_le _ _ H E).
Qed.

Lemma Qltb_false (a b : Q) : Qltb a b = false <-> b <= a.
Proof.
  unfold Qltb. rewrite negb_false_iff. apply Qle_bool_iff.
Qed.

(** ** Single precision *)

Lemma to_float_compat (a b : Q) : a == b -> to_float a = to_float b.
Proof.
  intro E. unfold to_float. rewrite (Qred_complete a b E). reflexivity.
Qed.


Lemma round_half_even_positive (a b : Z) :
  (0 < b)%Z -> (b <= a)%Z -> (0 < round_half_even a b)%Z.
Proof.
  intros Hb Hab. unfold round_half_even.
  assert (Hq : (0 < a / b)%Z) by (apply Z.div_str_pos; lia).
  destruct (2 * (a mod b) ?= b)%Z; [destruct (Z.even (a / b))| |]; lia.
Qed.

Lemma float_of_positive_positive (n d : positive) : 0 < float_of_positive n d.
Proof.
  unfold float_of_positive.
  set (e0 := (Z.log2 (Zpos n) - Z.log2 (Zpos d))%Z).
  set (below := if (0 <=? e0)%Z then (Zpos n <? Zpos d * 2 ^ e0)%Z
                else (Zpos n * 2 ^ (- e0) <? Zpos d)%Z).
  set (e := if below then (e0 - 1)%Z else e0).
  assert (He : (e <= e0)%Z) by (unfold e; destruct below; lia).
  clearbody e. clear below.
  destruct (Z.log2_spec (Zpos n)) as [Hn1 Hn2]; [lia|].
  destruct (Z.log2_spec (Zpos d)) as [Hd1 Hd2]; [lia|].
  pose proof (Z.log2_nonneg (Zpos n)) as Hln.
  pose proof (Z.log2_nonneg (Zpos d)) as Hld.
  destruct (Z.leb_spec 0 (23 - e)) as [Hk | Hk].
  - assert (Hpow : (0 < 2 ^ (23 - e))%Z) by (apply Z.pow_pos_nonneg; lia).
    assert (Hbig : (Zpos d <= Zpos n * 2 ^ (23 - e))%Z).
    { assert (H1 : (2 ^ Z.succ (Z.log2 (Zpos d)) <= 2 ^ (Z.log2 (Zpos n) + (23 - e)))%Z)
        by (apply Z.pow_le_mono_r; unfold e0 in He; lia).
      rewrite Z.pow_add_r in H1 by lia. nia. }
    pose proof (round_half_even_positive _ _ (Pos2Z.is_pos d) Hbig) as Hr.
    unfold Qlt. cbn [Qnum Qden]. lia.
  - assert (Hpow : (0 < 2 ^ (- (23 - e)))%Z) by (apply Z.pow_pos_nonneg; lia).
    assert (Hbig : (Zpos d * 2 ^ (- (23 - e)) <= Zpos n)%Z).
    { assert (H1 : (2 ^ (Z.succ (Z.log2 (Zpos d)) + (- (23 - e))) <= 2 ^ Z.log2 (Zpos n))%Z)
        by (apply Z.pow_le_mono_r; unfold e0 in He; lia).
      rewrite Z.pow_add_r in H1 by lia. nia. }
    assert (Hden : (0 < Zpos d * 2 ^ (- (23 - e)))%Z) by lia.
    pose proof (round_half_even_positive _ _ Hden Hbig) as Hr.
    unfold Qlt, inject_Z. cbn [Qnum Qden]. nia.
Qed.

(** The narrowing keeps the sign: a positive double gives a positive
    float. *)
Lemma to_float_positive (q : Q) : 0 < q -> 0 < to_float q.
Proof.
  intro Hq. unfold to_float.
  assert (Hred : 0 < Qred q) by (rewrite Qred_correct; exact Hq).
  destruct (Qred q) as [num den]. unfold Qlt in Hred. cbn [Qnum Qden] in *.
  destruct num as [|n|n]; try lia.
  rewrite Qred_correct. apply float_of_positive_positive.
Qed.

Lemma std_min_cases (a b : Q) :
  (b < a /\ std_min a b = b) \/ (a <= b /\ std_min a b = a).
Proof.
  unfold std_min. destruct (Qltb b a) eqn:E.
  - left. split; [apply Qltb_true; exact E | reflexivity].
  - right. split; [apply Qltb_false; exact E | reflexivity].
Qed.

Lemma std_max_cases (a b : Q) :
  (a < b /\ std_max a b = b) \/ (b <= a /\ std_max a b = a).
Proof.
  unfold std_max. destruct (Qltb a b) eqn:E.
  - left. split; [apply Qltb_true; exact E | reflexivity].
  - right. split; [apply Qltb_false; exact E | reflexivity].
Qed.

Lemma set_objects_same (m : Model) : set_objects m (objects m) = m.
Proof. destruct m; reflexivity. Qed.

Lemma update_nth_end {A : Type} (f : A -> A) (l : list A) (a : A) :
  update_nth f (l ++ [a]) (length l) = l ++ [f a].
Proof.
  induction l as [|h t IH]; simpl; [reflexivity | rewrite IH; reflexivity].
Qed.

Lemma update_nth_last {A : Type} (f : A -> A) (l : list A) (a : A) :
  update_nth f (l ++ [a]) (length (l ++ [a]) - 1) = l ++ [f a].
Proof.
  rewrite length_app. simpl. rewrite Nat.add_sub. apply update_nth_end.
Qed.

(** ** Deleting an object by pointer *)

Lemma delete_object_search_absent (objs : list ModelObject) (object : ptr) :
  ~ In object (map this objs) -> delete_object_search objs object = objs.
Proof.
  induction objs as [|obj rest IH]; simpl; intro Hnot; [reflexivity|].
  destruct (N.eqb_spec (this obj) object) as [E|_].
  - exfalso. apply Hnot. left. exact E.
  - f_equal. apply IH. intro Hin. apply Hnot. right. exact Hin.
Qed.

(** C9.  [delete_object] called with the null pointer, or with a pointer
    that is none of the model's owned objects, returns the model as it was:
    the same objects in the same order and the same materials.  The method
    has no failure path, so no error is reported. *)
Theorem delete_object_null_or_foreign_pointer (m : Model) (object : ptr) :
  object = nullptr \/ ~ In object (map this (objects m)) ->
  delete_object m object = m.
Proof.
  intros [Hnull | Habsent]; unfold delete_object.
  - rewrite Hnull. reflexivity.
  - destruct (N.eqb object nullptr); [reflexivity|].
    rewrite (delete_object_search_absent _ _ Habsent). apply set_objects_same.
Qed.

Lemma delete_object_null_or_foreign_pointer_witness :
  (7%N = nullptr \/ ~ In 7%N (map this (objects cube_model)))
  /\ delete_object cube_model 7%N = cube_model.
Proof.
  assert (H : 7%N = nullptr \/ ~ In 7%N (map this (objects cube_model))).
  { right. simpl. intros [E | []]. discriminate E. }
  split; [exact H | exact (delete_object_null_or_foreign_pointer cube_model 7%N H)].
Defined.

(** An owned pointer, for contrast, removes exactly that object. *)
Lemma delete_object_owned_pointer :
  objects (delete_object two_cubes_model 1%N) = [].
Proof. reflexivity. Qed.

(** ** Duplicating the model once *)

Section DuplicateOnce.
Context {libm : Libm} {consts : Libslic3r} {meshops : MeshOps} {geom : GeometryLib}.

Lemma bounding_box_keeps_instances (o : ModelObject) :
  instances (snd (bounding_box o)) = instances o.
Proof.
  unfold bounding_box. destruct (negb (m_bounding_box_valid o)); reflexivity.
Qed.

Lemma merge_object_boxes_keeps_instances (objs : list ModelObject) (bb : BoundingBoxf3) :
  map instances (snd (merge_object_boxes objs bb)) = map instances objs.
Proof.
  revert bb. induction objs as [|o rest IH]; intro bb; simpl; [reflexivity|].
  destruct (bounding_box o) as [ob o'] eqn:Eo.
  specialize (IH (merge_box bb ob)).
  destruct (merge_object_boxes rest (merge_box bb ob)) as [bb' rest'].
  simpl in *. rewrite IH. f_equal.
  change o' with (snd (ob, o')). rewrite <- Eo. apply bounding_box_keeps_instances.
Qed.

Lemma size_t_sub_1_1 : size_t_sub 1 1 = 0%N.
Proof. vm_compute. reflexivity. Qed.

Lemma no_position_no_copy (o : ModelObject) (snapshot : list ModelInstance) :
  fold_left
    (fun o i =>
       fold_left
         (fun o pos =>
            let o := add_instance_copy o i in
            set_instances o
              (update_nth
                 (fun inst => set_offset inst (Pointf_translate (offset inst) (px pos) (py pos)))
                 (instances o) (length (instances o) - 1)))
         (@nil Pointf) o)
    snapshot o = o.
Proof.
  induction snapshot as [|i rest IH]; simpl; [reflexivity | exact IH].
Qed.

(** C10.  [duplicate] with [copies_num = 1] always returns normally (the
    size list is empty, so [_arrange] succeeds without calling the packer
    and the fatal abort is not reached), and every object keeps its
    instance list exactly as it was. *)
Theorem duplicate_one_copy_keeps_instances (m : Model) (dist : Q) (bb : option BoundingBoxf) :
  exists m', duplicate m 1 dist bb = Ok m'
             /\ map instances (objects m') = map instances (objects m).
Proof.
  unfold duplicate, Model_bounding_box.
  pose proof (merge_object_boxes_keeps_instances (objects m) BoundingBoxf3_default) as Hkeep.
  destruct (merge_object_boxes (objects m) BoundingBoxf3_default) as [mbb objs].
  simpl in Hkeep. rewrite size_t_sub_1_1. simpl.
  eexists. split; [reflexivity|].
  simpl. rewrite map_map. rewrite <- Hkeep.
  apply map_ext. intro o. rewrite no_position_no_copy. reflexivity.
Qed.
End DuplicateOnce.

(** For contrast: a packer that fails makes [duplicate] with two copies
    abort, and one that succeeds adds the copies. *)
Lemma duplicate_two_copies_can_confess :
  @duplicate libm_at_zero failing_packer cube_model 2 5 None
  = Confess "Cannot duplicate part as the resulting objects would not fit on the print bed.".
Proof. vm_compute. reflexivity. Qed.

Lemma duplicate_two_copies_adds_one :
  exists m', @duplicate libm_at_zero row_packer cube_model 2 5 None = Ok m'
             /\ map (fun o => length (instances o)) (objects m') = [2%nat].
Proof. eexists. split; [vm_compute; reflexivity | reflexivity]. Qed.

(** ** Grid duplication *)

Section Grid.
Context {libm : Libm}.

Let grid_step (size : Pointf3) (dist : Q) (x_copy : nat) (object : ModelObject) (y_copy : nat) :=
  let object := add_instance object in
  set_instances object
    (update_nth
       (fun instance =>
          set_offset instance
            (mkPointf ((x size + dist) * inject_Z (Z.of_nat (x_copy - 1)))
                      ((y size + dist) * inject_Z (Z.of_nat (y_copy - 1)))))
       (instances object) (length (instances object) - 1)).

Lemma grid_column (size : Pointf3) (dist : Q) (x_copy : nat) (ys : list nat) (o : ModelObject) :
  instances (fold_left (grid_step size dist x_copy) ys o)
  = instances o
    ++ map (fun y_copy =>
              set_offset ModelInstance_default
                (mkPointf ((x size + dist) * inject_Z (Z.of_nat (x_copy - 1)))
                          ((y size + dist) * inject_Z (Z.of_nat (y_copy - 1))))) ys.
Proof.
  revert o. induction ys as [|y_copy rest IH]; intro o; simpl.
  - rewrite app_nil_r. reflexivity.
  - rewrite IH. unfold grid_step. simpl.
    rewrite update_nth_last. rewrite <- app_assoc. reflexivity.
Qed.

Lemma grid_rows (size : Pointf3) (dist : Q) (xs ys : list nat) (o : ModelObject) :
  instances (fold_left (fun object x_copy => fold_left (grid_step size dist x_copy) ys object)
                       xs o)
  = instances o
    ++ flat_map (fun x_copy =>
                   map (fun y_copy =>
                          set_offset ModelInstance_default
                            (mkPointf ((x size + dist) * inject_Z (Z.of_nat (x_copy - 1)))
                                      ((y size + dist) * inject_Z (Z.of_nat (y_copy - 1))))) ys)
                xs.
Proof.
  revert o. induction xs as [|x_copy rest IH]; intro o; simpl.
  - rewrite app_nil_r. reflexivity.
  - rewrite IH, grid_column, <- app_assoc. reflexivity.
Qed.

Lemma foldM_returns {A B : Type} (f : B -> A -> B) (l : list A) (b : B) :
  foldM (fun b a => Ok (f b a)) l b = Ok (fold_left f l b).
Proof.
  revert b. induction l as [|a t IH]; intro b; cbn [foldM fold_left bind]; [reflexivity|].
  apply IH.
Qed.

Lemma for_size_t_ext {S : Type} (n : N) (body body' : nat -> S -> outcome S) (s : S) :
  (forall c s, body c s = body' c s) -> for_size_t n body s = for_size_t n body' s.
Proof.
  intro Hext. unfold for_size_t. rewrite Hext. destruct (n =? SIZE_MAX)%N; [reflexivity|].
  generalize (seq 1 (N.to_nat n)). intro l. revert s.
  induction l as [|c t IH]; intro s; cbn [foldM]; [reflexivity|].
  rewrite Hext. destruct (body' c s); cbn [bind]; try reflexivity. apply IH.
Qed.

Lemma for_size_t_returns {S : Type} (n : N) (f : S -> nat -> S) (s : S) :
  (n < SIZE_MAX)%N ->
  for_size_t n (fun c s => Ok (f s c)) s = Ok (fold_left f (seq 1 (N.to_nat n)) s).
Proof.
  intro Hn. unfold for_size_t.
  destruct (N.eqb_spec n SIZE_MAX) as [E | _]; [lia|]. apply foldM_returns.
Qed.

Lemma map_pred_seq {A : Type} (f : nat -> A) (n : nat) :
  map (fun k => f (k - 1)%nat) (seq 1 n) = map f (seq 0 n).
Proof.
  rewrite <- seq_shift, map_map. apply map_ext. intro k. simpl.
  rewrite Nat.sub_0_r. reflexivity.
Qed.

(** On every model with exactly one object the call succeeds and leaves
    [nx * ny] instances on the grid whose pitch is [dist] plus the size of
    the default box: the box is measured after the instances were cleared,
    so the object's own extent does not enter. *)
Lemma duplicate_objects_grid_offsets (mats : list (string * ModelMaterial)) (o : ModelObject)
      (nx ny : N) (dist : Q) :
  (nx < SIZE_MAX)%N -> (ny < SIZE_MAX)%N ->
  exists o', duplicate_objects_grid (mkModel mats [o]) nx ny dist = Ok (mkModel mats [o'])
             /\ map offset (instances o')
                = grid_offsets (x (bb_size BoundingBoxf3_default))
                               (y (bb_size BoundingBoxf3_default)) dist
                               (N.to_nat nx) (N.to_nat ny)
             /\ volumes o' = volumes o.
Proof.
  intros Hnx Hny. unfold duplicate_objects_grid.
  cbn [objects length Nat.ltb Nat.leb bounding_box clear_instances invalidate_bounding_box
       set_instances set_cache m_bounding_box_valid negb instances volumes fold_left
       m_bounding_box].
  match goal with
  | |- context [for_size_t nx ?body ?start] =>
      rewrite (for_size_t_ext nx body
                 (fun x_copy object =>
                    Ok (fold_left (grid_step (bb_size BoundingBoxf3_default) dist x_copy)
                                  (seq 1 (N.to_nat ny)) object)) start)
        by (intros c s0;
            exact (for_size_t_returns ny (grid_step (bb_size BoundingBoxf3_default) dist c)
                                      s0 Hny))
  end.
  rewrite (for_size_t_returns nx
             (fun object x_copy =>
                fold_left (grid_step (bb_size BoundingBoxf3_default) dist x_copy)
                          (seq 1 (N.to_nat ny)) object)) by exact Hnx.
  cbn [bind set_objects materials].
  eexists. split; [reflexivity|]. split.
  - match goal with
    | |- map offset (instances (fold_left ?f _ _)) = _ =>
        change f with (fun object x_copy =>
                         fold_left (grid_step (bb_size BoundingBoxf3_default) dist x_copy)
                                   (seq 1 (N.to_nat ny)) object)
    end.
    rewrite grid_rows. simpl instances. rewrite app_nil_l. unfold grid_offsets.
    rewrite !flat_map_concat_map, concat_map, map_map.
    rewrite <- (map_pred_seq (fun i => map _ (seq 0 (N.to_nat ny)))).
    f_equal. apply map_ext. intro i. rewrite map_map.
    rewrite <- (map_pred_seq (fun j => mkPointf _ ((_ + dist) * inject_Z (Z.of_nat j)))).
    reflexivity.
  - generalize (seq 1 (N.to_nat nx)), (seq 1 (N.to_nat ny)). intros xs ys.
    match goal with
    | |- volumes (fold_left _ xs ?start) = _ =>
        change (volumes o) with (volumes start); generalize start
    end.
    induction xs as [|a xs IHx]; intro s0; simpl; [reflexivity|].
    rewrite IHx. clear IHx. revert s0.
    induction ys as [|b ys IHy]; intro s0; simpl; [reflexivity|].
    rewrite IHy. reflexivity.
Qed.
End Grid.

(** C6.  The cube of size (10, 10, 10) with [duplicate_objects_grid(2, 3, 5)]:
    the call leaves six instances, but their offsets are the grid of pitch 5,
    [(5 i, 5 j)], and not the grid [(15 i, 15 j)] of pitch size + dist; the
    offset (15, 0) of the second column is missing. *)
Theorem duplicate_objects_grid_misses_object_size :
  bb_size (fst (@bounding_box libm_at_zero cube_object)) = mkPointf3 10 10 10
  /\ exists m',
      @duplicate_objects_grid libm_at_zero cube_model 2 3 5 = Ok m'
      /\ map (fun o => map offset (instances o)) (objects m')
         = [[mkPointf 0 0; mkPointf 0 5; mkPointf 0 10;
             mkPointf 5 0; mkPointf 5 5; mkPointf 5 10]]
      /\ In (mkPointf 15 0) (grid_offsets 10 10 5 2 3)
      /\ forall p, In p (concat (map (fun o => map offset (instances o)) (objects m'))) ->
                   ~ (px p == 15).
Proof.
  split; [vm_compute; reflexivity|].
  eexists. split; [vm_compute; reflexivity|].
  split; [reflexivity|]. split.
  - vm_compute. right. right. right. left. reflexivity.
  - simpl. intros p Hp.
    repeat (destruct Hp as [Hp | Hp]; [subst p; simpl; intro H; discriminate H|]).
    destruct Hp.
Qed.

(** ** Snug boxes of an object without instances *)

Section NoInstances.
Context {libm : Libm} {consts : Libslic3r}.

Lemma foldM_all_skipped {A B : Type} (f : B -> A -> outcome B) (l : list A) (b : B) :
  (forall a b', In a l -> f b' a = Ok b') -> foldM f l b = Ok b.
Proof.
  induction l as [|a t IH]; intro Hskip; simpl; [reflexivity|].
  rewrite Hskip by (left; reflexivity). simpl.
  apply IH. intros a' b' Hin. apply Hskip. right. exact Hin.
Qed.

(** The check of [raw_bounding_box] sits inside the volume loop: it is
    reached, and then confesses, exactly when a solid volume exists. *)
Lemma raw_bounding_box_confesses (o : ModelObject) :
  instances o = [] ->
  (exists v, In v (volumes o) /\ modifier v = false) ->
  raw_bounding_box o = Confess "Can't call raw_bounding_box() with no instances".
Proof.
  intros Hno [v [Hin Hsolid]]. unfold raw_bounding_box. rewrite Hno.
  generalize BoundingBoxf3_default. revert Hin.
  induction (volumes o) as [|w rest IH]; intros Hin bb; [destruct Hin|].
  simpl. destruct (modifier w) eqn:Ew; simpl.
  - destruct Hin as [E | Hin]; [subst w; congruence | apply IH; exact Hin].
  - reflexivity.
Qed.

Lemma raw_bounding_box_silent (o : ModelObject) :
  (forall v, In v (volumes o) -> modifier v = true) ->
  raw_bounding_box o = Ok BoundingBoxf3_default.
Proof.
  intro Hmod. unfold raw_bounding_box. apply foldM_all_skipped.
  intros v bb Hin. rewrite (Hmod v Hin). reflexivity.
Qed.

Lemma instance_bounding_box_silent (o : ModelObject) (idx : nat) (dont_translate : bool) :
  (forall v, In v (volumes o) -> modifier v = true) ->
  instance_bounding_box o idx dont_translate = Ok BoundingBoxf3_default.
Proof.
  intro Hmod. unfold instance_bounding_box. apply foldM_all_skipped.
  intros v bb Hin. rewrite (Hmod v Hin). reflexivity.
Qed.

(** [instance_bounding_box] has no check of its own: with a solid volume
    and no instance it indexes the empty instance vector. *)
Lemma instance_bounding_box_unchecked (o : ModelObject) (idx : nat) (dont_translate : bool) :
  instances o = [] ->
  (exists v, In v (volumes o) /\ modifier v = false) ->
  instance_bounding_box o idx dont_translate = Undefined.
Proof.
  intros Hno [v [Hin Hsolid]]. unfold instance_bounding_box. rewrite Hno.
  generalize BoundingBoxf3_default. revert Hin.
  induction (volumes o) as [|w rest IH]; intros Hin bb; [destruct Hin|].
  simpl. destruct (modifier w) eqn:Ew; simpl.
  - destruct Hin as [E | Hin]; [subst w; congruence | apply IH; exact Hin].
  - unfold vec_at. destruct idx; reflexivity.
Qed.
End NoInstances.

(** C8.  On an object without instances whose only volume is a modifier,
    both [raw_bounding_box] and [instance_bounding_box] return normally with
    the default box (corners at the origin, not defined): no failure is
    raised.  With a solid volume and no instance [raw_bounding_box] does
    confess, while [instance_bounding_box] reads past the end of the empty
    instance vector without any check. *)
Theorem bounding_boxes_without_instances_can_be_silent :
  instances modifier_only_object = []
  /\ @raw_bounding_box libm_at_zero libslic3r_h modifier_only_object = Ok BoundingBoxf3_default
  /\ @instance_bounding_box libm_at_zero libslic3r_h modifier_only_object 0 false
     = Ok BoundingBoxf3_default
  /\ instances cube_without_instances = []
  /\ @raw_bounding_box libm_at_zero libslic3r_h cube_without_instances
     = Confess "Can't call raw_bounding_box() with no instances"
  /\ @instance_bounding_box libm_at_zero libslic3r_h cube_without_instances 0 false = Undefined.
Proof.
  repeat split; vm_compute; reflexivity.
Qed.

(** ** The stored print-volume classification *)

Section PrintVolume.
Context {libm : Libm}.

Lemma check_keeps_volumes_gen (vols : list ModelVolume) (o : ModelObject) (pv : BoundingBoxf3) :
  let o' := fold_left
    (fun o vol =>
       if negb (modifier vol) then
         set_instances o
           (map (fun inst =>
                   let bb := merge_placed_facets inst (mesh vol) BoundingBoxf3_default in
                   set_print_volume_state inst (classify pv bb))
                (instances o))
       else o) vols o in
  volumes o' = volumes o
  /\ map placement (instances o') = map placement (instances o)
  /\ m_bounding_box o' = m_bounding_box o
  /\ m_bounding_box_valid o' = m_bounding_box_valid o.
Proof.
  revert o. induction vols as [|vol rest IH]; intro o; simpl; [repeat split|].
  destruct (IH (if negb (modifier vol)
                then set_instances o
                       (map (fun inst =>
                               set_print_volume_state inst
                                 (classify pv (merge_placed_facets inst (mesh vol)
                                                                   BoundingBoxf3_default)))
                            (instances o))
                else o)) as [Hv [Hp [Hb Hf]]].
  simpl in *. rewrite Hv, Hp, Hb, Hf.
  destruct (negb (modifier vol)); simpl; repeat split.
  rewrite map_map. reflexivity.
Qed.

(** The call changes no geometry: volumes, and rotation, scaling factor and
    offset of every instance, are as before; the bounding-box cache is not
    touched either. *)
Lemma check_instances_print_volume_state_keeps_geometry (o : ModelObject) (pv : BoundingBoxf3) :
  volumes (check_instances_print_volume_state o pv) = volumes o
  /\ map placement (instances (check_instances_print_volume_state o pv))
     = map placement (instances o).
Proof.
  destruct (check_keeps_volumes_gen (volumes o) o pv) as [Hv [Hp _]].
  split; assumption.
Qed.
End PrintVolume.

(** C5.  An object made of two solid volumes, a cube far outside the print
    volume followed by a cube inside it, with one instance.  The snug box of
    the instance over both volumes reaches from the origin to (110,110,110):
    it intersects the print volume without being contained, which classifies
    as partly outside.  The call stores [PVS_Inside]: the box is rebuilt for
    every volume and the state assigned last, from the inner cube alone,
    stays. *)
Theorem check_instances_print_volume_state_last_volume_wins :
  map print_volume_state
      (instances (@check_instances_print_volume_state libm_at_zero two_part_object
                                                      print_volume_50))
  = [PVS_Inside]
  /\ map (fun inst => classify print_volume_50
                        (@snug_instance_box libm_at_zero two_part_object inst))
         (instances two_part_object)
     = [PVS_Partly_Outside].
Proof.
  split; vm_compute; reflexivity.
Qed.

(** ** What the arrangement entry points return *)

Section ArrangeResult.
Context {libm : Libm} {consts : Libslic3r} {meshops : MeshOps} {geom : GeometryLib}
        {nest : Nest2D}.

(** The nesting path reports success exactly when the arranger returned a
    single pack group, that is, when every item went into the one bin. *)
Lemma arrange_true_iff_one_group (m m' : Model) (dist : Q) (bb : option BoundingBoxf)
      (first_bin_only r : bool) :
  arrange m dist bb first_bin_only = Ok (r, m') ->
  exists shapemap,
    projectModelFromTop m = Ok shapemap
    /\ (r = true <-> length (arrange_result shapemap dist bb) = 1%nat).
Proof.
  unfold arrange. intro H.
  destruct (projectModelFromTop m) as [shapemap| | | | |]; simpl in H; try discriminate H.
  exists shapemap. split; [reflexivity|].
  match type of H with
  | bind ?c _ = _ => destruct c as [written| | | | |]; simpl in H; try discriminate H
  end.
  injection H as Hr _. rewrite <- Hr. apply Nat.eqb_eq.
Qed.

Lemma arrange_objects_with_bin (m : Model) (dist : Q) (bb : option BoundingBoxf) :
  hasbin_of bb = true ->
  arrange_objects m dist bb
  = match arrange m dist bb false with
    | Ok r => Ok r
    | Confess msg => Confess msg
    | Throw msg => Throw msg
    | Undefined => Undefined
    | Diverges => Diverges
    | NonFinite => NonFinite
    end.
Proof.
  intro Hbin. unfold arrange_objects. rewrite Hbin.
  destruct (arrange m dist bb false) as [[r m']| | | | |]; reflexivity.
Qed.

(** Without a defined bin the returned flag is [false] on every path that
    returns: the local [ret] starts as [false] and only the nesting branch
    assigns it. *)
Lemma arrange_objects_without_bin_false (m m' : Model) (dist : Q) (bb : option BoundingBoxf)
      (r : bool) :
  hasbin_of bb = false ->
  arrange_objects m dist bb = Ok (r, m') ->
  r = false.
Proof.
  intros Hbin H. unfold arrange_objects in H. rewrite Hbin in H.
  destruct (instance_sizes_centers m) as [[sizes centers]| | | | |]; simpl in H; try discriminate H.
  destruct (_arrange sizes dist bb []) as [[ok positions]| | | | |]; simpl in H; try discriminate H.
  destruct ok; simpl in H.
  - destruct (apply_positions positions centers m); simpl in H; try discriminate H.
    injection H as Hr _. symmetry. exact Hr.
  - injection H as Hr _. symmetry. exact Hr.
Qed.
End ArrangeResult.

(** C1.  [arrange_objects] on the cube model without a bin, with a
    rectangular packer that succeeds: the branch finds the layout and
    applies it (the instance moves from (0,0) so that its snug box is centred
    on the packer's position, offset (-5,-5)), and the call still returns
    [false]. *)
Theorem arrange_objects_without_bin_returns_false_on_success :
  exists m' i,
    @arrange_objects libm_at_zero libslic3r_h cube_meshops row_packer one_item_per_bin
                     cube_model 5 None = Ok (false, m')
    /\ map instances (objects m') = [[i]]
    /\ px (offset i) == - (5) /\ py (offset i) == - (5)
    /\ map (fun o => map offset (instances o)) (objects cube_model) = [[mkPointf 0 0]].
Proof.
  eexists. eexists. split; [vm_compute; reflexivity|].
  split; [reflexivity|]. repeat split.
Qed.

(** ** The bounding-box cache *)

Section Cache.
Context {libm : Libm} {meshops : MeshOps} {parts : MeshParts}.

Lemma delete_volume_invalidates (o o' : ModelObject) (idx : nat) :
  delete_volume o idx = Ok o' -> m_bounding_box_valid o' = false.
Proof.
  unfold delete_volume. destruct (vec_at (volumes o) idx); simpl; intro H; try discriminate H.
  injection H as <-. reflexivity.
Qed.

Lemma delete_instance_invalidates (o o' : ModelObject) (idx : nat) :
  delete_instance o idx = Ok o' -> m_bounding_box_valid o' = false.
Proof.
  unfold delete_instance. destruct (vec_at (instances o) idx); simpl; intro H; try discriminate H.
  injection H as <-. reflexivity.
Qed.

(** A read through [bounding_box()] leaves the cache flagged valid, and
    consistent if it was consistent before. *)
Lemma bounding_box_marks_valid (o : ModelObject) :
  m_bounding_box_valid (snd (bounding_box o)) = true.
Proof.
  unfold bounding_box. destruct (m_bounding_box_valid o) eqn:E; simpl; [exact E | reflexivity].
Qed.

Lemma bounding_box_returns_cache (o : ModelObject) :
  fst (bounding_box o) = m_bounding_box (snd (bounding_box o)).
Proof.
  unfold bounding_box. destruct (m_bounding_box_valid o); reflexivity.
Qed.

Lemma bounding_box_when_valid (o : ModelObject) :
  m_bounding_box_valid o = true -> bounding_box o = (m_bounding_box o, o).
Proof.
  intro E. unfold bounding_box. rewrite E. reflexivity.
Qed.

(** The two loops of [bounding_box()] compute the box of the spec. *)
Lemma solid_volume_boxes_merged (vols : list ModelVolume) (a : BoundingBoxf3) :
  fold_left (fun bb v => if negb (modifier v)
                         then merge_box bb (mesh_bounding_box (mesh v)) else bb) vols a
  = fold_left merge_box
              (map (fun v => mesh_bounding_box (mesh v))
                   (filter (fun v => negb (modifier v)) vols)) a.
Proof.
  revert a. induction vols as [|v rest IH]; intro a; cbn [fold_left filter map]; [reflexivity|].
  destruct (negb (modifier v)); cbn [map fold_left]; apply IH.
Qed.

Lemma boxes_merged {A : Type} (box : A -> BoundingBoxf3) (l : list A) (a : BoundingBoxf3) :
  fold_left (fun bb i => merge_box bb (box i)) l a = fold_left merge_box (map box l) a.
Proof.
  revert a. induction l as [|i rest IH]; intro a; cbn [fold_left map]; [reflexivity|].
  apply IH.
Qed.

Lemma instance_boxes_merged (raw : BoundingBoxf3) (insts : list ModelInstance)
      (a : BoundingBoxf3) :
  fold_left (fun bb i => merge_box bb (transform_bounding_box i raw false)) insts a
  = fold_left merge_box (map (fun i => transform_bounding_box i raw false) insts) a.
Proof.
  exact (boxes_merged (fun i => transform_bounding_box i raw false) insts a).
Qed.

Lemma bounding_box_recomputes (o : ModelObject) :
  m_bounding_box_valid o = false ->
  bounding_box o = (spec_bounding_box o, set_cache o (spec_bounding_box o) true).
Proof.
  intro E. unfold bounding_box. rewrite E. cbn [negb]. cbv zeta.
  rewrite solid_volume_boxes_merged, instance_boxes_merged. reflexivity.
Qed.

Lemma bounding_box_consistent (o : ModelObject) :
  cache_consistent o -> cache_consistent (snd (bounding_box o)).
Proof.
  unfold cache_consistent. intros Hc _.
  destruct (m_bounding_box_valid o) eqn:E.
  - rewrite (bounding_box_when_valid o E). simpl. apply Hc. reflexivity.
  - rewrite (bounding_box_recomputes o E). reflexivity.
Qed.

(** [translate] is the one mutator of the meshes that does not invalidate:
    the flag is left as it was. *)
Lemma translate_keeps_flag (o : ModelObject) (dx dy dz : Q) :
  m_bounding_box_valid (translate o dx dy dz) = m_bounding_box_valid o.
Proof.
  unfold translate. simpl. destruct (m_bounding_box_valid o) eqn:E; simpl; [reflexivity | exact E].
Qed.

Lemma center_around_origin_flag (o : ModelObject) :
  m_bounding_box_valid (center_around_origin o)
  = match instances o with
    | [] => m_bounding_box_valid o
    | _ => false
    end.
Proof.
  unfold center_around_origin. cbv zeta.
  assert (Hinst : forall dx dy dz p,
             instances (set_origin_translation (translate o dx dy dz) p) = instances o).
  { intros dx dy dz p. unfold translate.
    destruct (m_bounding_box_valid (map_meshes _ o)); reflexivity. }
  rewrite Hinst. destruct (instances o); [|reflexivity].
  cbn [m_bounding_box_valid set_origin_translation]. apply translate_keeps_flag.
Qed.

Lemma ModelVolume_split_keeps_flag (o o' : ModelObject) (this : nat)
      (max_extruders s n s' : N) :
  ModelVolume_split o this max_extruders s = Ok (n, o', s') ->
  m_bounding_box_valid o' = m_bounding_box_valid o /\ instances o' = instances o.
Proof.
  unfold ModelVolume_split. intro H.
  destruct (vec_at (volumes o) this) as [self| | | | |]; cbn [bind] in H; try discriminate H.
  destruct (Nat.leb (length (mesh_split (mesh self))) 1).
  - destruct (vec_front (mesh_split (mesh self))); cbn [bind] in H; try discriminate H.
    injection H as _ <- _. split; reflexivity.
  - match type of H with
    | bind ?c _ = _ => destruct c as [[[[idx iv] vols] s1]| | | | |]
    end; cbn [bind] in H; try discriminate H.
    injection H as _ <- _. split; reflexivity.
Qed.

End Cache.

(** ** Writing placements back: which instances change *)

Lemma nth_error_update_nth_same {A : Type} (f : A -> A) (l : list A) (n : nat) :
  nth_error (update_nth f l n) n = option_map f (nth_error l n).
Proof.
  revert n. induction l as [|h t IH]; intros [|n]; simpl; try reflexivity. apply IH.
Qed.

Lemma nth_error_update_nth_other {A : Type} (f : A -> A) (l : list A) (n k : nat) :
  n <> k -> nth_error (update_nth f l n) k = nth_error l k.
Proof.
  revert n k. induction l as [|h t IH]; intros [|n] [|k] Hneq; simpl; try reflexivity.
  - contradiction.
  - apply IH. intro E. apply Hneq. rewrite E. reflexivity.
Qed.

Lemma instance_at_write_same (m : Model) (p : InstancePtr) (f : ModelInstance -> ModelInstance) :
  instance_at (write_instance m p f) p = option_map f (instance_at m p).
Proof.
  unfold instance_at, write_instance. simpl.
  rewrite nth_error_update_nth_same.
  destruct (nth_error (objects m) (fst p)) as [o|]; simpl; [|reflexivity].
  apply nth_error_update_nth_same.
Qed.

Lemma instance_at_write_other (m : Model) (p q : InstancePtr)
      (f : ModelInstance -> ModelInstance) :
  p <> q -> instance_at (write_instance m p f) q = instance_at m q.
Proof.
  intro Hneq. unfold instance_at, write_instance. simpl.
  destruct (Nat.eq_dec (fst p) (fst q)) as [Eo | No].
  - rewrite Eo, nth_error_update_nth_same.
    destruct (nth_error (objects m) (fst q)) as [o|]; simpl; [|reflexivity].
    apply nth_error_update_nth_other. intro Ei. apply Hneq.
    destruct p, q; simpl in *; congruence.
  - rewrite nth_error_update_nth_other by exact No. reflexivity.
Qed.

Lemma instance_at_invalidated (m : Model) (p : InstancePtr) :
  instance_at (set_objects m (map invalidate_bounding_box (objects m))) p = instance_at m p.
Proof.
  unfold instance_at. simpl. rewrite nth_error_map.
  destruct (nth_error (objects m) (fst p)); reflexivity.
Qed.

Lemma foldM_app {A B : Type} (f : B -> A -> outcome B) (l1 l2 : list A) (b : B) :
  foldM f (l1 ++ l2) b = (b' <- foldM f l1 b ;; foldM f l2 b').
Proof.
  revert b. induction l1 as [|a t IH]; intro b; simpl; [reflexivity|].
  destruct (f b a); simpl; try reflexivity. apply IH.
Qed.

Section WriteBack.
Context {consts : Libslic3r}.

Lemma targets_cons (shapemap : ShapeData2D) (r : nat * Item) (group : PackGroup)
      (p : InstancePtr) :
  ~ targets shapemap (r :: group) p ->
  (forall entry, nth_error shapemap (fst r) = Some entry -> fst entry <> p)
  /\ ~ targets shapemap group p.
Proof.
  intro Hnot. split.
  - intros entry Hentry Hp. apply Hnot. exists (fst r), (snd r), entry.
    split; [left; destruct r; reflexivity | split; assumption].
  - intros [idx [item [entry [Hin H]]]]. apply Hnot. exists idx, item, entry.
    split; [right; exact Hin | exact H].
Qed.

Lemma applyResult_returns (shapemap : ShapeData2D) (group : PackGroup) (batch_offset : Z)
      (m : Model) :
  (forall idx item, In (idx, item) group -> (idx < length shapemap)%nat) ->
  exists m', applyResult shapemap m group batch_offset = Ok m'.
Proof.
  unfold applyResult. revert m.
  induction group as [|[idx item] rest IH]; intros m Hrange; simpl.
  - exists m. reflexivity.
  - unfold vec_at.
    destruct (nth_error shapemap idx) as [entry|] eqn:E.
    + simpl. apply IH. intros i it Hin. apply (Hrange i it). right. exact Hin.
    + exfalso. apply nth_error_None in E.
      specialize (Hrange idx item (or_introl eq_refl)). lia.
Qed.

Lemma applyResult_frame (shapemap : ShapeData2D) (group : PackGroup) (batch_offset : Z)
      (m m' : Model) (p : InstancePtr) :
  applyResult shapemap m group batch_offset = Ok m' ->
  ~ targets shapemap group p ->
  instance_at m' p = instance_at m p.
Proof.
  unfold applyResult. revert m.
  induction group as [|r rest IH]; intros m Hrun Hnot; simpl in Hrun.
  - injection Hrun as <-. reflexivity.
  - destruct (targets_cons _ _ _ _ Hnot) as [Hr Hrest].
    unfold vec_at in Hrun.
    destruct (nth_error shapemap (fst r)) as [entry|] eqn:E; simpl in Hrun;
      [|discriminate Hrun].
    rewrite (IH _ Hrun Hrest).
    apply instance_at_write_other. apply Hr. reflexivity.
Qed.

Lemma applyResult_keeps_the_rest (shapemap : ShapeData2D) (group : PackGroup)
      (batch_offset : Z) (m m' : Model) (p : InstancePtr) :
  applyResult shapemap m group batch_offset = Ok m' ->
  same_but_placement (instance_at m' p) (instance_at m p).
Proof.
  unfold applyResult. revert m.
  induction group as [|r rest IH]; intros m Hrun; simpl in Hrun.
  - injection Hrun as <-. split; reflexivity.
  - unfold vec_at in Hrun.
    destruct (nth_error shapemap (fst r)) as [entry|] eqn:E; simpl in Hrun;
      [|discriminate Hrun].
    destruct (IH _ Hrun) as [Hs Hv]. unfold same_but_placement. rewrite Hs, Hv.
    destruct (Nat.eq_dec (fst (fst entry)) (fst p)) as [E1|N1];
      [destruct (Nat.eq_dec (snd (fst entry)) (snd p)) as [E2|N2]|].
    + assert (Ep : fst entry = p) by (destruct (fst entry), p; simpl in *; congruence).
      rewrite Ep, instance_at_write_same.
      destruct (instance_at m p); split; reflexivity.
    + rewrite instance_at_write_other; [split; reflexivity|].
      intro Ep. apply N2. rewrite Ep. reflexivity.
    + rewrite instance_at_write_other; [split; reflexivity|].
      intro Ep. apply N1. rewrite Ep. reflexivity.
Qed.

Lemma placed_only_reads_the_rest (item : Item) (batch_offset : Z) (a b : option ModelInstance) :
  same_but_placement a b ->
  option_map (placed item batch_offset) a = option_map (placed item batch_offset) b.
Proof.
  intros [Hs Hv]. destruct a as [i|], b as [j|]; simpl in *; try discriminate; [|reflexivity].
  unfold placed. injection Hs as Hs. injection Hv as Hv. rewrite Hs, Hv. reflexivity.
Qed.

Lemma applyResult_written (shapemap : ShapeData2D) (g1 g2 : PackGroup) (idx : nat) (item it : Item)
      (batch_offset : Z) (m m' : Model) (p : InstancePtr) :
  applyResult shapemap m (g1 ++ (idx, item) :: g2) batch_offset = Ok m' ->
  nth_error shapemap idx = Some (p, it) ->
  ~ targets shapemap g2 p ->
  instance_at m' p = option_map (placed item batch_offset) (instance_at m p).
Proof.
  unfold applyResult. rewrite foldM_app. intros Hrun Hentry Hlater.
  match type of Hrun with
  | bind ?c _ = _ => destruct c as [m1| | | | |] eqn:Hfirst; simpl in Hrun; try discriminate Hrun
  end.
  unfold vec_at in Hrun. rewrite Hentry in Hrun. simpl in Hrun.
  rewrite (applyResult_frame _ _ _ _ _ _ Hrun Hlater).
  rewrite instance_at_write_same.
  apply (placed_only_reads_the_rest item batch_offset).
  apply (applyResult_keeps_the_rest shapemap g1 batch_offset m m1 p). exact Hfirst.
Qed.
End WriteBack.

Section FirstBinOnly.
Context {libm : Libm} {consts : Libslic3r} {meshops : MeshOps} {geom : GeometryLib}
        {nest : Nest2D}.

(** C3.  [arr::arrange] with [first_bin_only = true], when the arranger
    returns a first pack group [front] (followed by any other groups [rest])
    whose indices lie within the shape map: the call returns, and
    - every instance that is not the target of an entry of [front], in
      particular every instance whose item went to a later group only, is
      exactly as before the call, offset and rotation included;
    - an instance that is the target of an entry of [front] carries the
      rotation and the scaled-back translation of the last such entry, with
      batch offset 0, and keeps its scaling factor. *)
Theorem first_bin_only_writes_first_group_only
        (m : Model) (dist : Q) (bb : option BoundingBoxf)
        (shapemap : ShapeData2D) (front : PackGroup) (rest : list PackGroup) :
  projectModelFromTop m = Ok shapemap ->
  arrange_result shapemap dist bb = front :: rest ->
  (forall idx item, In (idx, item) front -> (idx < length shapemap)%nat) ->
  exists m',
    arrange m dist bb true = Ok (Nat.eqb (length (front :: rest)) 1, m')
    /\ (forall p, ~ targets shapemap front p -> instance_at m' p = instance_at m p)
    /\ (forall g1 g2 idx item it p,
          front = g1 ++ (idx, item) :: g2 ->
          nth_error shapemap idx = Some (p, it) ->
          ~ targets shapemap g2 p ->
          instance_at m' p = option_map (placed item 0) (instance_at m p)).
Proof.
  intros Hproj Hres Hrange.
  destruct (applyResult_returns shapemap front 0 m Hrange) as [written Hwritten].
  exists (set_objects written (map invalidate_bounding_box (objects written))).
  split; [|split].
  - unfold arrange. rewrite Hproj. simpl. rewrite Hres. simpl.
    rewrite Hwritten. simpl. reflexivity.
  - intros p Hnot. rewrite instance_at_invalidated.
    apply (applyResult_frame shapemap front 0 m written p Hwritten Hnot).
  - intros g1 g2 idx item it p Hsplit Hentry Hlater.
    rewrite instance_at_invalidated. rewrite Hsplit in Hwritten.
    apply (applyResult_written shapemap g1 g2 idx item it 0 m written p Hwritten Hentry Hlater).
Qed.
End FirstBinOnly.

Lemma first_bin_only_writes_first_group_only_witness :
  @projectModelFromTop libslic3r_h cube_meshops two_cubes_model = Ok two_cubes_shapemap
  /\ length two_cubes_groups = 2%nat
  /\ exists m',
      @arrange libslic3r_h cube_meshops one_item_per_bin two_cubes_model 5 (Some small_bin) true
      = Ok (false, m')
      /\ instance_at m' (0%nat, 1%nat) = Some (mkInstance 0 1 (mkPointf 40 0) PVS_Inside)
      /\ option_map rotation (instance_at m' (0%nat, 0%nat)) = Some 0
      /\ option_map offset (instance_at m' (0%nat, 0%nat))
         = Some (mkPointf (inject_Z 6000000 * (1 # 1000000) + inject_Z 0)
                          (inject_Z 6000000 * (1 # 1000000))).
Proof.
  assert (Hproj : @projectModelFromTop libslic3r_h cube_meshops two_cubes_model
                  = Ok two_cubes_shapemap) by (vm_compute; reflexivity).
  assert (Hres : @arrange_result libslic3r_h one_item_per_bin two_cubes_shapemap 5
                                 (Some small_bin)
                 = hd [] two_cubes_groups :: tl two_cubes_groups) by (vm_compute; reflexivity).
  assert (Hrange : forall idx item, In (idx, item) (hd [] two_cubes_groups) ->
                                    (idx < length two_cubes_shapemap)%nat).
  { intros idx item [E | []]. injection E as <- _. simpl. lia. }
  split; [exact Hproj|]. split; [reflexivity|].
  destruct (@first_bin_only_writes_first_group_only
              libslic3r_h cube_meshops one_item_per_bin
              two_cubes_model 5 (Some small_bin) two_cubes_shapemap
              (hd [] two_cubes_groups) (tl two_cubes_groups) Hproj Hres Hrange)
    as [m' [Hret [Hframe Hwritten]]].
  exists m'. split; [exact Hret|]. split; [|split].
  - rewrite Hframe; [reflexivity|].
    intros [idx [item [entry [[E | []] [Hentry Hp]]]]].
    injection E as <- _. injection Hentry as <-. discriminate Hp.
  - rewrite (Hwritten [] [] 0%nat _ _ (0%nat, 0%nat) eq_refl eq_refl); [reflexivity|].
    intros [idx [item [entry [[] _]]]].
  - rewrite (Hwritten [] [] 0%nat _ _ (0%nat, 0%nat) eq_refl eq_refl); [reflexivity|].
    intros [idx [item [entry [[] _]]]].
Defined.

(** ** The objective function *)

Section Objective.
Context {nest : Nest2D}.

Lemma arrange_object_function_value (bin : Box) (hasbin : bool) (placed_before : Pile)
      (sh : Polygon) (area norm penality : Q) :
  ~ norm == 0 ->
  arrange_object_function bin hasbin (placed_before ++ [sh]) area norm penality
  = Ok (if hasbin && negb (wouldFit (boundingBox (placed_before ++ [sh])) bin)
        then 2 * penality - distance_score bin norm sh
        else distance_score bin norm sh).
Proof.
  intro Hnorm. unfold arrange_object_function, double_div. rewrite rev_app_distr.
  cbn [rev app vec_front bind].
  destruct (Qeq_bool norm 0) eqn:E; [apply Qeq_bool_iff in E; contradiction|].
  reflexivity.
Qed.

(** With a norming factor of zero the quotient is no finite score. *)
Remark arrange_object_function_without_norm (bin : Box) (hasbin : bool)
       (placed_before : Pile) (sh : Polygon) (area penality : Q) :
  arrange_object_function bin hasbin (placed_before ++ [sh]) area 0 penality = NonFinite.
Proof.
  unfold arrange_object_function. rewrite rev_app_distr. reflexivity.
Qed.

(** C2.  For a pile whose last shape [sh] is the item under evaluation and a
    norming factor that is not zero, the objective function returns the
    distance of the item's reference vertex from the bin centre divided by
    the norm; with a bin and a pile that would not fit the bin it returns
    2 * penality minus that distance score, and without a bin the fit is
    not looked at.  When the penalty is the maximum penalty, that is, no
    distance score exceeds it and the score of a placement in the bin stays
    below it, the placement that does not fit scores strictly larger than
    the one that fits. *)
Theorem fit_or_penalize (bin : Box) (pile1 pile2 : Pile) (sh1 sh2 : Polygon)
        (area1 area2 norm penality : Q) :
  ~ norm == 0 ->
  wouldFit (boundingBox (pile1 ++ [sh1])) bin = false ->
  wouldFit (boundingBox (pile2 ++ [sh2])) bin = true ->
  distance_score bin norm sh1 <= penality ->
  distance_score bin norm sh2 < penality ->
  exists out_score in_score,
    arrange_object_function bin true (pile1 ++ [sh1]) area1 norm penality = Ok out_score
    /\ arrange_object_function bin true (pile2 ++ [sh2]) area2 norm penality = Ok in_score
    /\ out_score = 2 * penality - distance_score bin norm sh1
    /\ in_score = distance_score bin norm sh2
    /\ arrange_object_function bin false (pile1 ++ [sh1]) area1 norm penality
       = Ok (distance_score bin norm sh1)
    /\ in_score < out_score.
Proof.
  intros Hnorm Hout Hin Hmax1 Hmax2.
  exists (2 * penality - distance_score bin norm sh1), (distance_score bin norm sh2).
  rewrite !arrange_object_function_value by exact Hnorm. rewrite Hout, Hin.
  cbn [andb negb]. repeat split. lra.
Qed.
End Objective.

Lemma fit_or_penalize_witness :
  exists out_score in_score,
    @arrange_object_function one_item_per_bin bin20 true ([centre_square] ++ [far_square])
                             0 1 100 = Ok out_score
    /\ @arrange_object_function one_item_per_bin bin20 true ([] ++ [centre_square]) 0 1 100
       = Ok in_score
    /\ out_score == 170 /\ in_score == 0 /\ in_score < out_score.
Proof.
  destruct (@fit_or_penalize one_item_per_bin bin20 [centre_square] [] far_square centre_square
                             0 0 1 100)
    as [out_score [in_score [Hout [Hin [Eout [Ein [_ Hlt]]]]]]].
  - intro H. discriminate H.
  - reflexivity.
  - reflexivity.
  - vm_compute. discriminate.
  - vm_compute. reflexivity.
  - exists out_score, in_score. split; [exact Hout|]. split; [exact Hin|].
    split; [rewrite Eout; vm_compute; reflexivity|].
    split; [rewrite Ein; vm_compute; reflexivity | exact Hlt].
Defined.

(** ** The snug box of a transformed mesh *)

Section Monotone.
Variable g : Q -> Q.
Hypothesis g_mono : forall a b, a <= b -> g a <= g b.

Lemma std_min_monotone (a b : Q) : g (std_min a b) == std_min (g a) (g b).
Proof.
  destruct (std_min_cases a b) as [[Hlt ->] | [Hle ->]];
    destruct (std_min_cases (g a) (g b)) as [[Hg ->] | [Hg ->]].
  - reflexivity.
  - apply Qle_antisym; [apply g_mono; apply Qlt_le_weak; exact Hlt | exact Hg].
  - exfalso. apply (Qlt_not_le _ _ Hg). apply g_mono. exact Hle.
  - reflexivity.
Qed.

Lemma std_max_monotone (a b : Q) : g (std_max a b) == std_max (g a) (g b).
Proof.
  destruct (std_max_cases a b) as [[Hlt ->] | [Hle ->]];
    destruct (std_max_cases (g a) (g b)) as [[Hg ->] | [Hg ->]].
  - reflexivity.
  - apply Qle_antisym; [exact Hg | apply g_mono; apply Qlt_le_weak; exact Hlt].
  - exfalso. apply (Qlt_not_le _ _ Hg). apply g_mono. exact Hle.
  - reflexivity.
Qed.
End Monotone.

(** [min_element] and [max_element] are what their names say: a bound of
    all the numbers that is one of them. *)
Lemma min_element_least (l : list Q) (a : Q) :
  min_element a l <= a
  /\ Forall (fun q => min_element a l <= q) l
  /\ In (min_element a l) (a :: l).
Proof.
  unfold min_element. revert a. induction l as [|q rest IH]; intro a; simpl.
  - split; [apply Qle_refl | split; [constructor | left; reflexivity]].
  - destruct (IH (std_min q a)) as [Hle [Hall Hin]].
    destruct (std_min_cases q a) as [[Hlt E] | [Hge E]]; rewrite E in *.
    + split; [exact Hle|]. split.
      * constructor; [lra | exact Hall].
      * destruct Hin as [Hin | Hin]; [left; exact Hin | right; right; exact Hin].
    + split; [lra|]. split.
      * constructor; [exact Hle | exact Hall].
      * destruct Hin as [Hin | Hin]; [right; left; exact Hin | right; right; exact Hin].
Qed.

Lemma max_element_greatest (l : list Q) (a : Q) :
  a <= max_element a l
  /\ Forall (fun q => q <= max_element a l) l
  /\ In (max_element a l) (a :: l).
Proof.
  unfold max_element. revert a. induction l as [|q rest IH]; intro a; simpl.
  - split; [apply Qle_refl | split; [constructor | left; reflexivity]].
  - destruct (IH (std_max q a)) as [Hle [Hall Hin]].
    destruct (std_max_cases q a) as [[Hlt E] | [Hge E]]; rewrite E in *.
    + split; [exact Hle|]. split.
      * constructor; [lra | exact Hall].
      * destruct Hin as [Hin | Hin]; [left; exact Hin | right; right; exact Hin].
    + split; [lra|]. split.
      * constructor; [exact Hle | exact Hall].
      * destruct Hin as [Hin | Hin]; [right; left; exact Hin | right; right; exact Hin].
Qed.

Lemma std_min_compat (a a' b b' : Q) : a == a' -> b == b' -> std_min a b == std_min a' b'.
Proof.
  intros Ea Eb.
  destruct (std_min_cases a b) as [[H ->] | [H ->]];
    destruct (std_min_cases a' b') as [[H' ->] | [H' ->]]; lra.
Qed.

Lemma std_max_compat (a a' b b' : Q) : a == a' -> b == b' -> std_max a b == std_max a' b'.
Proof.
  intros Ea Eb.
  destruct (std_max_cases a b) as [[H ->] | [H ->]];
    destruct (std_max_cases a' b') as [[H' ->] | [H' ->]]; lra.
Qed.

Lemma min_element_compat {A : Type} (f f' : A -> Q) (l : list A) (a a' : Q) :
  (forall v, f v == f' v) -> a == a' ->
  min_element a (map f l) == min_element a' (map f' l).
Proof.
  intro Hf. unfold min_element. revert a a'.
  induction l as [|v rest IH]; intros a a' Ea; simpl; [exact Ea|].
  apply IH. apply std_min_compat; [apply Hf | exact Ea].
Qed.

Lemma max_element_compat {A : Type} (f f' : A -> Q) (l : list A) (a a' : Q) :
  (forall v, f v == f' v) -> a == a' ->
  max_element a (map f l) == max_element a' (map f' l).
Proof.
  intro Hf. unfold max_element. revert a a'.
  induction l as [|v rest IH]; intros a a' Ea; simpl; [exact Ea|].
  apply IH. apply std_max_compat; [apply Hf | exact Ea].
Qed.

Lemma min_element_monotone (g : Q -> Q) (l : list Q) (a : Q) :
  (forall a b, a <= b -> g a <= g b) ->
  g (min_element a l) == min_element (g a) (map g l).
Proof.
  intro Hmono. unfold min_element. revert a.
  induction l as [|q rest IH]; intro a; simpl; [reflexivity|].
  rewrite IH.
  rewrite <- (map_id (map g rest)).
  apply (min_element_compat (fun q => q) (fun q => q)); [reflexivity|].
  apply std_min_monotone. exact Hmono.
Qed.

Lemma max_element_monotone (g : Q -> Q) (l : list Q) (a : Q) :
  (forall a b, a <= b -> g a <= g b) ->
  g (max_element a l) == max_element (g a) (map g l).
Proof.
  intro Hmono. unfold max_element. revert a.
  induction l as [|q rest IH]; intro a; simpl; [reflexivity|].
  rewrite IH.
  rewrite <- (map_id (map g rest)).
  apply (max_element_compat (fun q => q) (fun q => q)); [reflexivity|].
  apply std_max_monotone. exact Hmono.
Qed.

Lemma fold_facets_flat {B : Type} (g : B -> Pointf3 -> B) (facets : list stl_facet) (b : B) :
  fold_left (fun bbox facet => fold_left g (facet_vertices facet) bbox) facets b
  = fold_left g (flat_map facet_vertices facets) b.
Proof.
  revert b. induction facets as [|t rest IH]; intro b; simpl; [reflexivity | apply IH].
Qed.

Lemma fold_left_mapped {A B C : Type} (g : C -> B -> C) (f : A -> B) (l : list A) (c : C) :
  fold_left (fun acc a => g acc (f a)) l c = fold_left g (map f l) c.
Proof.
  revert c. induction l as [|a rest IH]; intro c; simpl; [reflexivity | apply IH].
Qed.

Lemma fold_merge_defined (pts : list Pointf3) (lo hi : Pointf3) :
  fold_left merge_point pts (mkBB3 lo hi true)
  = mkBB3 (mkPointf3 (min_element (x lo) (map x pts)) (min_element (y lo) (map y pts))
                     (min_element (z lo) (map z pts)))
          (mkPointf3 (max_element (x hi) (map x pts)) (max_element (y hi) (map y pts))
                     (max_element (z hi) (map z pts)))
          true.
Proof.
  revert lo hi. induction pts as [|q rest IH]; intros lo hi.
  - destruct lo, hi. reflexivity.
  - simpl. unfold merge_point at 2. simpl. rewrite IH. reflexivity.
Qed.

Lemma fold_merge_points (pts : list Pointf3) :
  fold_left merge_point pts BoundingBoxf3_default = points_bbox pts.
Proof.
  destruct pts as [|p rest]; [reflexivity|]. simpl. apply fold_merge_defined.
Qed.

Section SnugBox.
Context {libm : Libm} {consts : Libslic3r}.

Lemma rotated_bounding_box_points (inst : ModelInstance) (m : TriangleMesh) :
  rotated_bounding_box inst m
  = points_bbox (map (rotate_z_float (cos (rotation inst)) (sin (rotation inst)))
                     (mesh_vertices m)).
Proof.
  unfold rotated_bounding_box, mesh_vertices.
  rewrite (fold_facets_flat (fun bbox v => merge_point bbox (rotate_z_float _ _ v))).
  rewrite (fold_left_mapped merge_point). apply fold_merge_points.
Qed.

Lemma min_coordinate {A : Type} (g : Q -> Q) (fr fs : A -> Q) (v0 : A) (rest : list A) :
  (forall a b, a <= b -> g a <= g b) ->
  (forall v, g (fr v) == fs v) ->
  g (min_element (fr v0) (map fr rest)) == min_element (fs v0) (map fs rest).
Proof.
  intros Hmono Hpoint. rewrite (min_element_monotone g _ _ Hmono), map_map.
  apply (min_element_compat (fun v => g (fr v)) fs); [exact Hpoint | apply Hpoint].
Qed.

Lemma max_coordinate {A : Type} (g : Q -> Q) (fr fs : A -> Q) (v0 : A) (rest : list A) :
  (forall a b, a <= b -> g a <= g b) ->
  (forall v, g (fr v) == fs v) ->
  g (max_element (fr v0) (map fr rest)) == max_element (fs v0) (map fs rest).
Proof.
  intros Hmono Hpoint. rewrite (max_element_monotone g _ _ Hmono), map_map.
  apply (max_element_compat (fun v => g (fr v)) fs); [exact Hpoint | apply Hpoint].
Qed.

(** Monotone maps on the three coordinates carry the box of a point set to
    the box of the image. *)
Lemma points_bbox_image {A : Type} (gx gy gz : Q -> Q) (R S : A -> Pointf3)
      (v0 : A) (rest : list A) :
  (forall a b, a <= b -> gx a <= gx b) ->
  (forall a b, a <= b -> gy a <= gy b) ->
  (forall a b, a <= b -> gz a <= gz b) ->
  (forall v, gx (x (R v)) == x (S v)) ->
  (forall v, gy (y (R v)) == y (S v)) ->
  (forall v, gz (z (R v)) == z (S v)) ->
  bbox_eq (mkBB3 (mkPointf3 (gx (x (bmin (points_bbox (map R (v0 :: rest))))))
                            (gy (y (bmin (points_bbox (map R (v0 :: rest))))))
                            (gz (z (bmin (points_bbox (map R (v0 :: rest)))))))
                 (mkPointf3 (gx (x (bmax (points_bbox (map R (v0 :: rest))))))
                            (gy (y (bmax (points_bbox (map R (v0 :: rest))))))
                            (gz (z (bmax (points_bbox (map R (v0 :: rest)))))))
                 (defined (points_bbox (map R (v0 :: rest)))))
          (points_bbox (map S (v0 :: rest))).
Proof.
  intros Mx My Mz Px Py Pz.
  unfold bbox_eq, Pointf3_eq, points_bbox. cbn [map bmin bmax defined x y z].
  rewrite !map_map.
  repeat split.
  - apply (min_coordinate gx (fun v => x (R v)) (fun v => x (S v))); assumption.
  - apply (min_coordinate gy (fun v => y (R v)) (fun v => y (S v))); assumption.
  - apply (min_coordinate gz (fun v => z (R v)) (fun v => z (S v))); assumption.
  - apply (max_coordinate gx (fun v => x (R v)) (fun v => x (S v))); assumption.
  - apply (max_coordinate gy (fun v => y (R v)) (fun v => y (S v))); assumption.
  - apply (max_coordinate gz (fun v => z (R v)) (fun v => z (S v))); assumption.
Qed.

(** The guard of [transform_mesh_bounding_box]: a box without positive
    extent on some axis is returned as the rotation loop left it, neither
    scaled nor translated. *)
Lemma transform_mesh_bounding_box_of_empty_box
      (inst : ModelInstance) (m : TriangleMesh) (dont_translate : bool) :
  empty (rotated_bounding_box inst m) = true ->
  transform_mesh_bounding_box inst m dont_translate = rotated_bounding_box inst m.
Proof.
  intro Hempty. unfold transform_mesh_bounding_box. rewrite Hempty. reflexivity.
Qed.
End SnugBox.

(** C4.  The flat sheet, a square of side 10 in the plane z = 0 (two
    facets), under the instance with rotation 0, scaling factor 2 and offset
    (5, 5): the vertices mapped by [R_z(theta) (s v) + t] span the box
    (5, 5, 0) .. (25, 25, 0), but [transform_mesh_bounding_box] returns
    (0, 0, 0) .. (10, 10, 0), the box of the untransformed vertices.  The
    guard [! empty(bbox)] that is there for a mesh without facets also
    catches every mesh without extent on some axis, and with it the scaling
    and the translation are skipped.  The same square with the thickness 1
    gets the box of the mapped vertices. *)
Theorem flat_mesh_is_neither_scaled_nor_translated :
  number_of_facets flat_sheet = 2%nat
  /\ @transform_mesh_bounding_box libm_at_zero libslic3r_h
       (mkInstance 0 2 (mkPointf 5 5) PVS_Inside) flat_sheet false
     = mkBB3 (mkPointf3 0 0 0) (mkPointf3 10 10 0) true
  /\ bbox_eq (@spec_mesh_bounding_box libm_at_zero
                (mkInstance 0 2 (mkPointf 5 5) PVS_Inside) flat_sheet false)
             (mkBB3 (mkPointf3 5 5 0) (mkPointf3 25 25 0) true)
  /\ ~ bbox_eq (@transform_mesh_bounding_box libm_at_zero libslic3r_h
                  (mkInstance 0 2 (mkPointf 5 5) PVS_Inside) flat_sheet false)
               (@spec_mesh_bounding_box libm_at_zero
                  (mkInstance 0 2 (mkPointf 5 5) PVS_Inside) flat_sheet false)
  /\ bbox_eq (@transform_mesh_bounding_box libm_at_zero libslic3r_h
                (mkInstance 0 2 (mkPointf 5 5) PVS_Inside)
                (box_mesh (mkPointf3 0 0 0) (mkPointf3 10 10 1)) false)
             (@spec_mesh_bounding_box libm_at_zero
                (mkInstance 0 2 (mkPointf 5 5) PVS_Inside)
                (box_mesh (mkPointf3 0 0 0) (mkPointf3 10 10 1)) false).
Proof.
  split; [reflexivity|]. split; [vm_compute; reflexivity|].
  split; [vm_compute; repeat split|]. split.
  - unfold bbox_eq, Pointf3_eq. vm_compute. intros [[H _] _]. discriminate H.
  - vm_compute. repeat split.
Qed.

(** A negative scaling factor multiplies the two corners in place, which
    leaves the smaller corner above the larger one. *)
Remark negative_scaling_swaps_the_corners :
  bbox_eq (@transform_mesh_bounding_box libm_at_zero libslic3r_h
             (mkInstance 0 (- (1)) (mkPointf 0 0) PVS_Inside) cube10 true)
          (mkBB3 (mkPointf3 0 0 0) (mkPointf3 (- (10)) (- (10)) (- (10))) true).
Proof.
  vm_compute. repeat split.
Qed.

(** ** The box of a mesh that is not flat *)

Lemma min_element_compat_in {A : Type} (f f' : A -> Q) (l : list A) (a a' : Q) :
  (forall v, In v l -> f v == f' v) -> a == a' ->
  min_element a (map f l) == min_element a' (map f' l).
Proof.
  unfold min_element. revert a a'.
  induction l as [|v rest IH]; intros a a' Hf Ea; simpl; [exact Ea|].
  apply IH; [intros w Hw; apply Hf; right; exact Hw|].
  apply std_min_compat; [apply Hf; left; reflexivity | exact Ea].
Qed.

Lemma max_element_compat_in {A : Type} (f f' : A -> Q) (l : list A) (a a' : Q) :
  (forall v, In v l -> f v == f' v) -> a == a' ->
  max_element a (map f l) == max_element a' (map f' l).
Proof.
  unfold max_element. revert a a'.
  induction l as [|v rest IH]; intros a a' Hf Ea; simpl; [exact Ea|].
  apply IH; [intros w Hw; apply Hf; right; exact Hw|].
  apply std_max_compat; [apply Hf; left; reflexivity | exact Ea].
Qed.

(** Monotone maps on the three coordinates carry the box of a point set to
    the box of the image, the images compared on the points of the set
    only. *)
Lemma points_bbox_image_in (gx gy gz : Q -> Q) (R S : Pointf3 -> Pointf3)
      (pts : list Pointf3) :
  pts <> [] ->
  (forall a b, a <= b -> gx a <= gx b) ->
  (forall a b, a <= b -> gy a <= gy b) ->
  (forall a b, a <= b -> gz a <= gz b) ->
  (forall v, In v pts ->
             gx (x (R v)) == x (S v) /\ gy (y (R v)) == y (S v) /\ gz (z (R v)) == z (S v)) ->
  bbox_eq (mkBB3 (mkPointf3 (gx (x (bmin (points_bbox (map R pts)))))
                            (gy (y (bmin (points_bbox (map R pts)))))
                            (gz (z (bmin (points_bbox (map R pts))))))
                 (mkPointf3 (gx (x (bmax (points_bbox (map R pts)))))
                            (gy (y (bmax (points_bbox (map R pts)))))
                            (gz (z (bmax (points_bbox (map R pts))))))
                 (defined (points_bbox (map R pts))))
          (points_bbox (map S pts)).
Proof.
  intros Hpts Mx My Mz Hpoint. destruct pts as [|v0 rest]; [contradiction|].
  assert (H0 := Hpoint v0 (or_introl eq_refl)).
  assert (Hrest : forall v, In v rest ->
             gx (x (R v)) == x (S v) /\ gy (y (R v)) == y (S v) /\ gz (z (R v)) == z (S v))
    by (intros v Hv; apply Hpoint; right; exact Hv).
  unfold bbox_eq, Pointf3_eq, points_bbox. cbn [map bmin bmax defined x y z].
  rewrite !map_map.
  repeat split.
  - rewrite (min_element_monotone gx _ _ Mx), map_map.
    apply (min_element_compat_in (fun v => gx (x (R v))) (fun v => x (S v)));
      [intros v Hv; apply (Hrest v Hv) | apply H0].
  - rewrite (min_element_monotone gy _ _ My), map_map.
    apply (min_element_compat_in (fun v => gy (y (R v))) (fun v => y (S v)));
      [intros v Hv; apply (Hrest v Hv) | apply H0].
  - rewrite (min_element_monotone gz _ _ Mz), map_map.
    apply (min_element_compat_in (fun v => gz (z (R v))) (fun v => z (S v)));
      [intros v Hv; apply (Hrest v Hv) | apply H0].
  - rewrite (max_element_monotone gx _ _ Mx), map_map.
    apply (max_element_compat_in (fun v => gx (x (R v))) (fun v => x (S v)));
      [intros v Hv; apply (Hrest v Hv) | apply H0].
  - rewrite (max_element_monotone gy _ _ My), map_map.
    apply (max_element_compat_in (fun v => gy (y (R v))) (fun v => y (S v)));
      [intros v Hv; apply (Hrest v Hv) | apply H0].
  - rewrite (max_element_monotone gz _ _ Mz), map_map.
    apply (max_element_compat_in (fun v => gz (z (R v))) (fun v => z (S v)));
      [intros v Hv; apply (Hrest v Hv) | apply H0].
Qed.

Section SolidMesh.
Context {libm : Libm} {consts : Libslic3r}.

(** X27.  [transform_mesh_bounding_box] on a mesh that is not flat: when
    the box of the rotated vertices has a positive extent on every axis,
    the scaling factor is not negative and is either further than EPSILON
    from 1 or 1 itself, and the narrowing casts change nothing (scaling
    factor, offset and the rotated x and y of every vertex are
    single-precision numbers), the result is the componentwise min/max box
    of the vertices mapped by [R_z(theta) (s v)], plus the offset in x and
    y unless [dont_translate] is set. *)
Theorem transform_mesh_bounding_box_of_solid_mesh
        (inst : ModelInstance) (m : TriangleMesh) (dont_translate : bool) :
  empty (rotated_bounding_box inst m) = false ->
  0 <= scaling_factor inst ->
  EPSILON < Qabs (scaling_factor inst - 1) \/ scaling_factor inst == 1 ->
  representable (scaling_factor inst) ->
  representable (px (offset inst)) ->
  representable (py (offset inst)) ->
  (forall v, In v (mesh_vertices m) ->
             representable (cos (rotation inst) * x v - sin (rotation inst) * y v)
             /\ representable (sin (rotation inst) * x v + cos (rotation inst) * y v)) ->
  bbox_eq (transform_mesh_bounding_box inst m dont_translate)
          (spec_mesh_bounding_box inst m dont_translate).
Proof.
  intros Hne Hs He Hsf Hox Hoy Hrot.
  unfold representable in Hsf, Hox, Hoy.
  unfold transform_mesh_bounding_box. rewrite Hne. cbn [negb].
  unfold spec_mesh_bounding_box.
  rewrite rotated_bounding_box_points in *.
  assert (Hpts : mesh_vertices m <> [])
    by (intro E; rewrite E in Hne; discriminate Hne).
  assert (Hs' : 0 <= to_float (scaling_factor inst)) by (rewrite Hsf; exact Hs).
  destruct (Qltb EPSILON (Qabs (scaling_factor inst - 1))) eqn:Escale.
  - destruct dont_translate; cbn [negb bmin bmax defined x y z].
    + apply (points_bbox_image_in (fun q => q * to_float (scaling_factor inst))
                                  (fun q => q * to_float (scaling_factor inst))
                                  (fun q => q * to_float (scaling_factor inst)));
        [exact Hpts | intros a b Hab; nra | intros a b Hab; nra | intros a b Hab; nra |].
      intros v Hv. destruct (Hrot v Hv) as [Hx Hy]. unfold representable in Hx, Hy.
      unfold spec_vertex, rotate_z_float. cbn [x y z].
      rewrite Hx, Hy, Hsf. repeat split; ring.
    + apply (points_bbox_image_in
               (fun q => q * to_float (scaling_factor inst) + to_float (px (offset inst)))
               (fun q => q * to_float (scaling_factor inst) + to_float (py (offset inst)))
               (fun q => q * to_float (scaling_factor inst)));
        [exact Hpts | intros a b Hab; nra | intros a b Hab; nra | intros a b Hab; nra |].
      intros v Hv. destruct (Hrot v Hv) as [Hx Hy]. unfold representable in Hx, Hy.
      unfold spec_vertex, rotate_z_float. cbn [x y z].
      rewrite Hx, Hy, Hsf, Hox, Hoy. repeat split; ring.
  - assert (H1 : scaling_factor inst == 1).
    { destruct He as [He | He]; [|exact He].
      apply Qltb_true in He. rewrite He in Escale. discriminate Escale. }
    destruct dont_translate; cbn [negb bmin bmax defined x y z].
    + apply (points_bbox_image_in (fun q => q) (fun q => q) (fun q => q));
        [exact Hpts | intros a b Hab; exact Hab | intros a b Hab; exact Hab
         | intros a b Hab; exact Hab |].
      intros v Hv. destruct (Hrot v Hv) as [Hx Hy]. unfold representable in Hx, Hy.
      unfold spec_vertex, rotate_z_float. cbn [x y z].
      rewrite Hx, Hy, H1. repeat split; ring.
    + apply (points_bbox_image_in (fun q => q + to_float (px (offset inst)))
                                  (fun q => q + to_float (py (offset inst)))
                                  (fun q => q));
        [exact Hpts | intros a b Hab; lra | intros a b Hab; lra
         | intros a b Hab; exact Hab |].
      intros v Hv. destruct (Hrot v Hv) as [Hx Hy]. unfold representable in Hx, Hy.
      unfold spec_vertex, rotate_z_float. cbn [x y z].
      rewrite Hx, Hy, H1, Hox, Hoy. repeat split; ring.
Qed.
End SolidMesh.

(** The cube under an instance scaled by 2 and moved to (3, 4). *)
Lemma transform_mesh_bounding_box_of_solid_mesh_witness :
  empty (@rotated_bounding_box libm_at_zero (mkInstance 0 2 (mkPointf 3 4) PVS_Inside) cube10)
  = false
  /\ @EPSILON libslic3r_h < Qabs (2 - 1)
  /\ bbox_eq (@transform_mesh_bounding_box libm_at_zero libslic3r_h
                (mkInstance 0 2 (mkPointf 3 4) PVS_Inside) cube10 false)
             (mkBB3 (mkPointf3 3 4 0) (mkPointf3 23 24 20) true).
Proof.
  assert (Hne : empty (@rotated_bounding_box libm_at_zero
                         (mkInstance 0 2 (mkPointf 3 4) PVS_Inside) cube10) = false)
    by (vm_compute; reflexivity).
  assert (He : @EPSILON libslic3r_h < Qabs (2 - 1)) by (vm_compute; reflexivity).
  split; [exact Hne|]. split; [exact He|].
  assert (Hrot : forall v, In v (mesh_vertices cube10) ->
             representable (@cos libm_at_zero 0 * x v - @sin libm_at_zero 0 * y v)
             /\ representable (@sin libm_at_zero 0 * x v + @cos libm_at_zero 0 * y v)).
  { intros v Hv.
    assert (Hall : forallb (fun v =>
                     Qeq_bool (to_float (@cos libm_at_zero 0 * x v - @sin libm_at_zero 0 * y v))
                              (@cos libm_at_zero 0 * x v - @sin libm_at_zero 0 * y v)
                     && Qeq_bool (to_float (@sin libm_at_zero 0 * x v + @cos libm_at_zero 0 * y v))
                                 (@sin libm_at_zero 0 * x v + @cos libm_at_zero 0 * y v))
                   (mesh_vertices cube10) = true) by (vm_compute; reflexivity).
    rewrite forallb_forall in Hall. specialize (Hall v Hv).
    apply andb_true_iff in Hall. destruct Hall as [Hx Hy].
    split; apply Qeq_bool_iff; assumption. }
  pose proof (@transform_mesh_bounding_box_of_solid_mesh libm_at_zero libslic3r_h
                (mkInstance 0 2 (mkPointf 3 4) PVS_Inside) cube10 false
                Hne ltac:(simpl; lra) (or_introl He)
                ltac:(vm_compute; reflexivity) ltac:(vm_compute; reflexivity)
                ltac:(vm_compute; reflexivity) Hrot) as Hbox.
  destruct Hbox as [[Hx [Hy Hz]] [[Hx' [Hy' Hz']] Hd]].
  unfold bbox_eq, Pointf3_eq.
  split; [split; [|split] | split; [split; [|split] | exact Hd]].
  - eapply Qeq_trans; [exact Hx | vm_compute; reflexivity].
  - eapply Qeq_trans; [exact Hy | vm_compute; reflexivity].
  - eapply Qeq_trans; [exact Hz | vm_compute; reflexivity].
  - eapply Qeq_trans; [exact Hx' | vm_compute; reflexivity].
  - eapply Qeq_trans; [exact Hy' | vm_compute; reflexivity].
  - eapply Qeq_trans; [exact Hz' | vm_compute; reflexivity].
Defined.

(** ** Classification of an object with a single solid volume *)

Lemma Qle_bool_compat (a a' b b' : Q) :
  a == a' -> b == b' -> Qle_bool a b = Qle_bool a' b'.
Proof.
  intros Ea Eb.
  destruct (Qle_bool a b) eqn:E, (Qle_bool a' b') eqn:E'; try reflexivity.
  - apply Qle_bool_iff in E. assert (H : a' <= b') by lra.
    apply Qle_bool_iff in H. congruence.
  - apply Qle_bool_iff in E'. assert (H : a <= b) by lra.
    apply Qle_bool_iff in H. congruence.
Qed.

Ltac compare_coordinates :=
  repeat match goal with
         | |- andb _ _ = andb _ _ => apply (f_equal2 andb)
         | |- negb _ = negb _ => apply f_equal
         | |- Qle_bool _ _ = Qle_bool _ _ =>
             apply Qle_bool_compat; try reflexivity; try assumption
         end.

Lemma classify_compat (print_volume a b : BoundingBoxf3) :
  bbox_eq a b -> classify print_volume a = classify print_volume b.
Proof.
  intros [[Hx [Hy Hz]] [[Hx' [Hy' Hz']] _]].
  assert (Hc : contains print_volume a = contains print_volume b).
  { unfold contains, contains_point. compare_coordinates. }
  assert (Hi : intersects print_volume a = intersects print_volume b).
  { unfold intersects, Qltb. compare_coordinates. }
  unfold classify. rewrite Hc, Hi. reflexivity.
Qed.

Section SingleVolume.
Context {libm : Libm}.

Lemma merge_placed_facets_points (inst : ModelInstance) (m : TriangleMesh) :
  merge_placed_facets inst m BoundingBoxf3_default
  = points_bbox (map (placed_vertex inst (cos (rotation inst)) (sin (rotation inst)))
                     (mesh_vertices m)).
Proof.
  unfold merge_placed_facets, mesh_vertices.
  rewrite (fold_facets_flat (fun bb v => merge_point bb (placed_vertex inst _ _ v))).
  rewrite (fold_left_mapped merge_point). apply fold_merge_points.
Qed.

(** When the object has one volume and it is solid, the state stored for
    every instance is the classification of its snug box. *)
Lemma check_instances_print_volume_state_single_volume
      (o : ModelObject) (v : ModelVolume) (print_volume : BoundingBoxf3) :
  volumes o = [v] ->
  modifier v = false ->
  map print_volume_state (instances (check_instances_print_volume_state o print_volume))
  = map (fun inst => classify print_volume (snug_instance_box o inst)) (instances o).
Proof.
  intros Hvol Hsolid. unfold check_instances_print_volume_state, snug_instance_box.
  rewrite Hvol. simpl. rewrite Hsolid. simpl. rewrite map_map, app_nil_r.
  apply map_ext. intro inst. simpl. apply classify_compat.
  rewrite merge_placed_facets_points.
  destruct (mesh_vertices (mesh v)) as [|v0 rest].
  - repeat split; reflexivity.
  - apply (points_bbox_image (fun q => q) (fun q => q) (fun q => q));
      try (intros a b Hab; exact Hab);
      intro w; unfold spec_vertex, placed_vertex; cbn [x y z]; ring.
Qed.
End SingleVolume.

(** * Further properties of the model *)

(** ** Deleting an owned object *)

Lemma delete_object_search_filter (objs : list ModelObject) (object : ptr) :
  NoDup (map this objs) ->
  delete_object_search objs object
  = filter (fun o => negb (N.eqb (this o) object)) objs.
Proof.
  induction objs as [|obj rest IH]; simpl; intro Hnodup; [reflexivity|].
  inversion Hnodup as [|a l Hnotin Hrest]; subst.
  destruct (N.eqb_spec (this obj) object) as [E | N]; simpl.
  - rewrite <- (delete_object_search_absent rest object) at 1
      by (rewrite <- E; exact Hnotin).
    apply IH. exact Hrest.
  - f_equal. apply IH. exact Hrest.
Qed.

(** X1.  When the owned objects have distinct addresses, [delete_object]
    with a non-null pointer keeps exactly the objects at other addresses, in
    their order, and the materials; afterwards the pointer is not owned. *)
Theorem delete_object_removes_the_object (m : Model) (object : ptr) :
  object <> nullptr ->
  NoDup (map this (objects m)) ->
  objects (delete_object m object)
  = filter (fun o => negb (N.eqb (this o) object)) (objects m)
  /\ materials (delete_object m object) = materials m
  /\ ~ In object (map this (objects (delete_object m object))).
Proof.
  intros Hnull Hnodup. unfold delete_object.
  destruct (N.eqb_spec object nullptr) as [E | _]; [contradiction|].
  simpl. rewrite (delete_object_search_filter _ _ Hnodup).
  split; [reflexivity|]. split; [reflexivity|].
  intro Hin. apply in_map_iff in Hin. destruct Hin as [o [Ho Hin]].
  apply filter_In in Hin. destruct Hin as [_ Hkeep].
  rewrite Ho, N.eqb_refl in Hkeep. discriminate Hkeep.
Qed.

Lemma delete_object_removes_the_object_witness :
  2%N <> nullptr
  /\ NoDup (map this (objects pair_model))
  /\ objects (delete_object pair_model 2%N) = [cube_object].
Proof.
  assert (Hnull : 2%N <> nullptr) by discriminate.
  assert (Hnodup : NoDup (map this (objects pair_model))).
  { simpl. constructor; [intros [E | []]; discriminate E|].
    constructor; [intros []|constructor]. }
  split; [exact Hnull|]. split; [exact Hnodup|].
  rewrite (proj1 (delete_object_removes_the_object pair_model 2%N Hnull Hnodup)).
  reflexivity.
Defined.

(** ** The material map *)

Lemma materials_find_assign_same (mats : list (string * ModelMaterial)) (id : string)
      (mat : ModelMaterial) :
  materials_find (materials_assign mats id mat) id = Some mat.
Proof.
  induction mats as [|[k v] rest IH]; simpl.
  - rewrite String.eqb_refl. reflexivity.
  - destruct (String.eqb k id) eqn:E; simpl.
    + rewrite String.eqb_refl. reflexivity.
    + rewrite E. exact IH.
Qed.

Lemma materials_find_assign_other (mats : list (string * ModelMaterial)) (id other : string)
      (mat : ModelMaterial) :
  other <> id ->
  materials_find (materials_assign mats id mat) other = materials_find mats other.
Proof.
  intro Hneq. apply not_eq_sym in Hneq. apply String.eqb_neq in Hneq.
  induction mats as [|[k v] rest IH]; simpl.
  - rewrite Hneq. reflexivity.
  - destruct (String.eqb k id) eqn:E; simpl.
    + apply String.eqb_eq in E. subst k. rewrite Hneq. reflexivity.
    + destruct (String.eqb k other); [reflexivity | exact IH].
Qed.

Lemma materials_find_erase_same (mats : list (string * ModelMaterial)) (id : string) :
  materials_find (materials_erase mats id) id = None.
Proof.
  unfold materials_erase.
  induction mats as [|[k v] rest IH]; simpl; [reflexivity|].
  destruct (String.eqb k id) eqn:E; simpl; [exact IH | rewrite E; exact IH].
Qed.

Lemma materials_find_erase_other (mats : list (string * ModelMaterial)) (id other : string) :
  other <> id ->
  materials_find (materials_erase mats id) other = materials_find mats other.
Proof.
  intro Hneq. unfold materials_erase.
  induction mats as [|[k v] rest IH]; simpl; [reflexivity|].
  destruct (String.eqb k id) eqn:E; simpl.
  - apply String.eqb_eq in E. subst k.
    apply not_eq_sym in Hneq. apply String.eqb_neq in Hneq. rewrite Hneq. exact IH.
  - destruct (String.eqb k other); [reflexivity | exact IH].
Qed.

Lemma add_material_lookup (m : Model) (id : string) :
  get_material (snd (add_material m id)) id = Some (fst (add_material m id))
  /\ (forall mat, get_material m id = Some mat -> add_material m id = (mat, m))
  /\ (forall other, other <> id ->
                    get_material (snd (add_material m id)) other = get_material m other)
  /\ objects (snd (add_material m id)) = objects m.
Proof.
  unfold add_material. destruct (get_material m id) as [mat|] eqn:E; simpl.
  - split; [exact E|]. split; [intros mat0 H; injection H as <-; reflexivity|].
    split; reflexivity.
  - split; [apply materials_find_assign_same|]. split; [discriminate|].
    split; [|reflexivity].
    intros other Hneq. apply materials_find_assign_other. exact Hneq.
Qed.

Lemma add_material_copy_lookup (m : Model) (id : string) (other : ModelMaterial) :
  get_material (snd (add_material_copy m id other)) id = Some (mkMaterial (attributes other))
  /\ objects (snd (add_material_copy m id other)) = objects m.
Proof.
  unfold add_material_copy, get_material. simpl.
  split; [apply materials_find_assign_same | reflexivity].
Qed.

(** X2.  [add_material(id)] never replaces: an id that has a material keeps
    it and the model is returned as it was; an id without one gets a fresh
    material without attributes.  Either way the id resolves to the returned
    material afterwards, every other id resolves as before, and the objects
    are untouched. *)
Theorem add_material_keeps_or_creates (m : Model) (id : string) :
  get_material (snd (add_material m id)) id = Some (fst (add_material m id))
  /\ (forall mat, get_material m id = Some mat -> add_material m id = (mat, m))
  /\ (get_material m id = None -> fst (add_material m id) = mkMaterial [])
  /\ (forall other, other <> id ->
                    get_material (snd (add_material m id)) other = get_material m other)
  /\ objects (snd (add_material m id)) = objects m.
Proof.
  unfold add_material. destruct (get_material m id) as [mat|] eqn:E; simpl.
  - split; [exact E|]. split; [intros mat0 H; injection H as <-; reflexivity|].
    split; [discriminate|]. split; [reflexivity | reflexivity].
  - split; [apply materials_find_assign_same|]. split; [discriminate|].
    split; [reflexivity|]. split; [|reflexivity].
    intros other Hneq. apply materials_find_assign_other. exact Hneq.
Qed.

(** X3.  [add_material(id, other)] always overwrites: afterwards the id
    resolves to a copy of [other], whatever it held before; every other id
    resolves as before and the objects are untouched. *)
Theorem add_material_copy_overwrites (m : Model) (id : string) (other : ModelMaterial) :
  get_material (snd (add_material_copy m id other)) id = Some (mkMaterial (attributes other))
  /\ fst (add_material_copy m id other) = mkMaterial (attributes other)
  /\ (forall id', id' <> id ->
                  get_material (snd (add_material_copy m id other)) id' = get_material m id')
  /\ objects (snd (add_material_copy m id other)) = objects m.
Proof.
  unfold add_material_copy, get_material. simpl.
  split; [apply materials_find_assign_same|]. split; [reflexivity|].
  split; [|reflexivity]. intros id' Hneq. apply materials_find_assign_other. exact Hneq.
Qed.

(** X4.  [delete_material(id)]: afterwards the id has no material and every
    other id resolves as before; deleting an id that has no material returns
    the model as it was. *)
Theorem delete_material_removes_the_entry (m : Model) (id : string) :
  get_material (delete_material m id) id = None
  /\ (forall other, other <> id ->
                    get_material (delete_material m id) other = get_material m other)
  /\ (get_material m id = None -> delete_material m id = m)
  /\ objects (delete_material m id) = objects m.
Proof.
  unfold delete_material, get_material.
  destruct (materials_find (materials m) id) as [mat|] eqn:E; simpl.
  - split; [apply materials_find_erase_same|]. split; [|split; [discriminate | reflexivity]].
    intros other Hneq. apply materials_find_erase_other. exact Hneq.
  - split; [exact E|]. split; [reflexivity|]. split; reflexivity.
Qed.

(** ** Material ids of volumes *)

Lemma volume_at_write_same (m : Model) (p : VolumePtr) (f : ModelVolume -> ModelVolume) :
  volume_at (write_volume m p f) p = option_map f (volume_at m p).
Proof.
  unfold volume_at, write_volume. simpl.
  rewrite nth_error_update_nth_same.
  destruct (nth_error (objects m) (fst p)) as [o|]; simpl; [|reflexivity].
  apply nth_error_update_nth_same.
Qed.

Lemma volume_at_write_other (m : Model) (p q : VolumePtr) (f : ModelVolume -> ModelVolume) :
  p <> q -> volume_at (write_volume m p f) q = volume_at m q.
Proof.
  intro Hneq. unfold volume_at, write_volume. simpl.
  destruct (Nat.eq_dec (fst p) (fst q)) as [Eo | No].
  - rewrite Eo, nth_error_update_nth_same.
    destruct (nth_error (objects m) (fst q)) as [o|]; simpl; [|reflexivity].
    apply nth_error_update_nth_other. intro Ei. apply Hneq.
    destruct p, q; simpl in *; congruence.
  - rewrite nth_error_update_nth_other by exact No. reflexivity.
Qed.

Lemma volume_at_same_objects (m m' : Model) (p : VolumePtr) :
  objects m' = objects m -> volume_at m' p = volume_at m p.
Proof. intro E. unfold volume_at. rewrite E. reflexivity. Qed.

(** X5.  [ModelVolume::material_id(id)] on an owned volume returns, stores
    the id on that volume only, and leaves the model with a material for the
    id, so that [material()] of the volume is not null: a material the id
    already had is kept, and all other ids resolve as before. *)
Theorem material_id_setter_ensures_material (m : Model) (p : VolumePtr) (v : ModelVolume)
        (id : string) :
  volume_at m p = Some v ->
  exists m',
    ModelVolume_material_id m p id = Ok m'
    /\ volume_at m' p = Some (set_material_id v id)
    /\ (forall q, q <> p -> volume_at m' q = volume_at m q)
    /\ (exists mat, ModelVolume_material m' p = Ok (Some mat)
                    /\ (forall old, get_material m id = Some old -> mat = old))
    /\ (forall other, other <> id -> get_material m' other = get_material m other).
Proof.
  intro Hv. unfold ModelVolume_material_id. rewrite Hv.
  set (w := write_volume m p (fun v0 => set_material_id v0 id)).
  destruct (add_material_lookup w id) as [Hget [Hold [Hother Hobjs]]].
  exists (snd (add_material w id)). split; [reflexivity|].
  assert (Hat : volume_at (snd (add_material w id)) p = Some (set_material_id v id)).
  { rewrite (volume_at_same_objects w _ p Hobjs). unfold w.
    rewrite volume_at_write_same, Hv. reflexivity. }
  split; [exact Hat|]. split; [|split].
  - intros q Hq. rewrite (volume_at_same_objects w _ q Hobjs). unfold w.
    apply volume_at_write_other. apply not_eq_sym. exact Hq.
  - exists (fst (add_material w id)). split.
    + unfold ModelVolume_material. rewrite Hat. simpl. rewrite Hget. reflexivity.
    + intros old Hold0. rewrite (Hold old); [reflexivity|]. exact Hold0.
  - intros other Hneq. rewrite (Hother other Hneq). reflexivity.
Qed.

Lemma material_id_setter_ensures_material_witness :
  volume_at pair_model (1%nat, 0%nat) = Some (mkVolume "far" far_cube false "" [])
  /\ exists m',
      ModelVolume_material_id pair_model (1%nat, 0%nat) "pla" = Ok m'
      /\ ModelVolume_material m' (1%nat, 0%nat)
         = Ok (Some (mkMaterial [("color"%string, "red"%string)])).
Proof.
  assert (Hv : volume_at pair_model (1%nat, 0%nat) = Some (mkVolume "far" far_cube false "" []))
    by reflexivity.
  split; [exact Hv|].
  destruct (material_id_setter_ensures_material pair_model (1%nat, 0%nat) _ "pla" Hv)
    as [m' [Hrun [_ [_ [[mat [Hmat Hold]] _]]]]].
  exists m'. split; [exact Hrun|].
  rewrite Hmat. rewrite (Hold (mkMaterial [("color"%string, "red"%string)]) eq_refl).
  reflexivity.
Defined.

(** X6.  [ModelVolume::set_material(id, material)] replaces the material
    stored under the id, and the map is shared: every volume of the model
    that carries this id, not only the one the method was called on,
    resolves to the copy of [material] afterwards. *)
Theorem set_material_is_seen_by_all_volumes_of_the_id
        (m : Model) (p : VolumePtr) (v : ModelVolume) (id : string) (material : ModelMaterial) :
  volume_at m p = Some v ->
  exists m',
    ModelVolume_set_material m p id material = Ok m'
    /\ ModelVolume_material m' p = Ok (Some (mkMaterial (attributes material)))
    /\ (forall q w, q <> p -> volume_at m q = Some w -> material_id w = id ->
                    ModelVolume_material m' q = Ok (Some (mkMaterial (attributes material)))).
Proof.
  intro Hv. unfold ModelVolume_set_material. rewrite Hv.
  set (w := write_volume m p (fun v0 => set_material_id v0 id)).
  destruct (add_material_copy_lookup w id material) as [Hget Hobjs].
  exists (snd (add_material_copy w id material)). split; [reflexivity|]. split.
  - unfold ModelVolume_material.
    rewrite (volume_at_same_objects w _ p Hobjs). unfold w at 1.
    rewrite volume_at_write_same, Hv. cbn [option_map material_id set_material_id].
    rewrite Hget. reflexivity.
  - intros q u Hq Hu Hid. unfold ModelVolume_material.
    rewrite (volume_at_same_objects w _ q Hobjs). unfold w at 1.
    rewrite volume_at_write_other by (apply not_eq_sym; exact Hq).
    rewrite Hu, Hid, Hget. reflexivity.
Qed.

Lemma set_material_is_seen_by_all_volumes_of_the_id_witness :
  volume_at pair_model (1%nat, 0%nat) = Some (mkVolume "far" far_cube false "" [])
  /\ exists m',
      ModelVolume_set_material pair_model (1%nat, 0%nat) "" (mkMaterial []) = Ok m'
      /\ ModelVolume_material m' (0%nat, 0%nat) = Ok (Some (mkMaterial [])).
Proof.
  assert (Hv : volume_at pair_model (1%nat, 0%nat) = Some (mkVolume "far" far_cube false "" []))
    by reflexivity.
  split; [exact Hv|].
  destruct (set_material_is_seen_by_all_volumes_of_the_id
              pair_model (1%nat, 0%nat) _ "" (mkMaterial []) Hv) as [m' [Hrun [_ Hall]]].
  exists m'. split; [exact Hrun|].
  apply (Hall (0%nat, 0%nat) cube_volume); [discriminate | reflexivity | reflexivity].
Defined.

(** ** Default instances *)

(** X7.  [add_default_instances] returns true and leaves every object with
    at least one instance: an object that had instances is untouched, one
    that had none gets exactly the default instance; volumes are kept, and a
    second call changes nothing. *)
Theorem add_default_instances_gives_every_object_an_instance (m : Model) :
  fst (add_default_instances m) = true
  /\ Forall (fun o => instances o <> []) (objects (snd (add_default_instances m)))
  /\ Forall2 (fun o o' => volumes o' = volumes o
                          /\ (instances o <> [] -> o' = o)
                          /\ (instances o = [] -> instances o' = [ModelInstance_default]))
             (objects m) (objects (snd (add_default_instances m)))
  /\ snd (add_default_instances (snd (add_default_instances m)))
     = snd (add_default_instances m).
Proof.
  unfold add_default_instances. simpl. split; [reflexivity|].
  unfold set_objects. simpl.
  split; [|split].
  - apply Forall_forall. intros o' Hin. apply in_map_iff in Hin.
    destruct Hin as [o [E _]]. subst o'.
    destruct (instances o) eqn:Ei.
    + simpl. rewrite Ei. discriminate.
    + rewrite Ei. discriminate.
  - induction (objects m) as [|o rest IH]; simpl; constructor; [|exact IH].
    destruct (instances o) eqn:Ei.
    + split; [reflexivity|]. split; [intro H; contradiction|].
      simpl. rewrite Ei. reflexivity.
    + split; [reflexivity|]. split; [reflexivity | discriminate].
  - f_equal. rewrite map_map. apply map_ext. intro o.
    destruct (instances o) eqn:Ei.
    + simpl. rewrite Ei. reflexivity.
    + rewrite Ei. reflexivity.
Qed.

(** ** Automatic extruder numbering *)

Lemma succ_mod (k n : N) :
  (0 < n)%N ->
  ((k + 1) mod n = if (k mod n + 1 =? n) then 0 else k mod n + 1)%N.
Proof.
  intro Hn.
  assert (Hn0 : n <> 0%N) by lia.
  pose proof (N.div_mod k n Hn0) as Hk.
  pose proof (N.mod_lt k n Hn0) as Hr.
  destruct (N.eqb_spec (k mod n + 1) n) as [E | N]; symmetry.
  - apply N.mod_unique with (q := (k / n + 1)%N); [lia | nia].
  - apply N.mod_unique with (q := (k / n)%N); [lia | nia].
Qed.

Lemma auto_extruder_ids_from (n k0 : nat) (max_extruders : N) :
  (1 <= max_extruders)%N ->
  (max_extruders + 1 < 2 ^ 32)%N ->
  auto_extruder_ids n (N.of_nat k0 mod max_extruders + 1) max_extruders
  = (map (fun k => (N.of_nat k mod max_extruders + 1)%N) (seq k0 n),
     (N.of_nat (k0 + n) mod max_extruders + 1)%N).
Proof.
  intros Hmin Hmax. revert k0. induction n as [|n IH]; intro k0.
  - simpl. rewrite Nat.add_0_r. reflexivity.
  - assert (Hr : (N.of_nat k0 mod max_extruders < max_extruders)%N)
      by (apply N.mod_lt; lia).
    assert (Hnext : snd (get_auto_extruder_id (N.of_nat k0 mod max_extruders + 1)
                                              max_extruders)
                    = (N.of_nat (S k0) mod max_extruders + 1)%N).
    { unfold get_auto_extruder_id, uint_incr, reset_auto_extruder_id.
      rewrite N.mod_small by lia.
      rewrite Nat2N.inj_succ, <- N.add_1_r, succ_mod by lia.
      destruct (N.ltb_spec max_extruders (N.of_nat k0 mod max_extruders + 1 + 1)) as [Hlt | Hge];
        destruct (N.eqb_spec (N.of_nat k0 mod max_extruders + 1) max_extruders) as [E | N];
        simpl; try reflexivity; lia. }
    cbn [auto_extruder_ids].
    destruct (get_auto_extruder_id (N.of_nat k0 mod max_extruders + 1) max_extruders)
      as [id s] eqn:Ecall.
    assert (Hid : id = (N.of_nat k0 mod max_extruders + 1)%N).
    { unfold get_auto_extruder_id in Ecall.
      destruct (max_extruders <? _)%N; injection Ecall as <- _; reflexivity. }
    cbn [snd] in Hnext. subst s id. rewrite IH. cbn [seq map].
    rewrite Nat.add_succ_r. reflexivity.
Qed.

(** X8.  After a reset, successive calls of [get_auto_extruder_id] with a
    fixed [max_extruders] between 1 and 2^32 - 2 return 1, 2, ...,
    max_extruders and start again at 1: call number [k] (from 0) returns
    [k mod max_extruders + 1], so every id lies in [1, max_extruders]. *)
Theorem auto_extruder_ids_cycle (n : nat) (s max_extruders : N) :
  (1 <= max_extruders)%N ->
  (max_extruders + 1 < 2 ^ 32)%N ->
  auto_extruder_ids n (reset_auto_extruder_id s) max_extruders
  = (map (fun k => (N.of_nat k mod max_extruders + 1)%N) (seq 0 n),
     (N.of_nat n mod max_extruders + 1)%N)
  /\ Forall (fun id => (1 <= id <= max_extruders)%N)
            (fst (auto_extruder_ids n (reset_auto_extruder_id s) max_extruders)).
Proof.
  intros Hmin Hmax.
  assert (Hrun : auto_extruder_ids n (reset_auto_extruder_id s) max_extruders
                 = (map (fun k => (N.of_nat k mod max_extruders + 1)%N) (seq 0 n),
                    (N.of_nat n mod max_extruders + 1)%N)).
  { pose proof (auto_extruder_ids_from n 0 max_extruders Hmin Hmax) as H.
    simpl N.of_nat in H. rewrite N.Div0.mod_0_l in H. exact H. }
  split; [exact Hrun|]. rewrite Hrun. cbn [fst].
  apply Forall_forall. intros id Hin. apply in_map_iff in Hin.
  destruct Hin as [k [E _]]. subst id.
  assert (Hk : (N.of_nat k mod max_extruders < max_extruders)%N) by (apply N.mod_lt; lia).
  clear Hrun Hmax. revert Hk. generalize (N.of_nat k mod max_extruders)%N. intros r Hk. lia.
Qed.

Lemma auto_extruder_ids_cycle_witness :
  (1 <= 3)%N /\ (3 + 1 < 2 ^ 32)%N
  /\ fst (auto_extruder_ids 7 (reset_auto_extruder_id 9) 3) = [1; 2; 3; 1; 2; 3; 1]%N.
Proof.
  assert (Hmin : (1 <= 3)%N) by lia.
  assert (Hmax : (3 + 1 < 2 ^ 32)%N) by (vm_compute; reflexivity).
  split; [exact Hmin|]. split; [exact Hmax|].
  rewrite (proj1 (auto_extruder_ids_cycle 7 9 3 Hmin Hmax)). reflexivity.
Defined.

(** At the largest [unsigned int] the increment wraps to 0, which is not
    above [max_extruders], so the counter is left at 0 and the next id is 0. *)
Remark auto_extruder_id_wraps_at_uint_max :
  get_auto_extruder_id (2 ^ 32 - 1) (2 ^ 32 - 1) = ((2 ^ 32 - 1)%N, 0%N).
Proof. vm_compute. reflexivity. Qed.

(** ** Grid duplication: when it is refused *)

Section GridRejection.
Context {libm : Libm}.

(** X9.  [duplicate_objects_grid] refuses every model that does not have
    exactly one object: without objects it throws "No objects!", with two or
    more it throws the multiple-objects message.  For grid counts below
    [SIZE_MAX] it returns normally exactly on a model with one object.  On
    such a model the call does not return when [x] is [SIZE_MAX], or when
    [y] is [SIZE_MAX] and [x] is not 0: the loop condition [c <= SIZE_MAX]
    never fails. *)
Theorem duplicate_objects_grid_needs_exactly_one_object (m : Model) (nx ny : N) (dist : Q) :
  (objects m = [] -> duplicate_objects_grid m nx ny dist = Throw "No objects!")
  /\ ((1 < length (objects m))%nat ->
      duplicate_objects_grid m nx ny dist
      = Throw "Grid duplication is not supported with multiple objects")
  /\ ((nx < SIZE_MAX)%N -> (ny < SIZE_MAX)%N ->
      ((exists m', duplicate_objects_grid m nx ny dist = Ok m')
       <-> length (objects m) = 1%nat))
  /\ (length (objects m) = 1%nat ->
      (ny <= SIZE_MAX)%N ->
      nx = SIZE_MAX \/ ((0 < nx)%N /\ ny = SIZE_MAX) ->
      duplicate_objects_grid m nx ny dist = Diverges).
Proof.
  destruct m as [mats objs]. destruct objs as [|o [|o2 rest]]; cbn [objects length].
  - split; [reflexivity|]. split; [intro H; inversion H|]. split.
    + intros _ _. split; [intros [m' H]; discriminate H | intro H; discriminate H].
    + intro H. discriminate H.
  - split; [discriminate|]. split; [intro H; lia|]. split.
    + intros Hnx Hny. split; [reflexivity|]. intros _.
      destruct (duplicate_objects_grid_offsets mats o nx ny dist Hnx Hny) as [o' [H _]].
      exists (mkModel mats [o']). exact H.
    + intros _ Hsize Hmax. unfold duplicate_objects_grid.
      cbn [objects length Nat.ltb Nat.leb].
      destruct (bounding_box (clear_instances o)) as [bb object].
      assert (Hinner : forall c s,
                 for_size_t SIZE_MAX
                   (fun y_copy object0 =>
                      Ok (set_instances (add_instance object0)
                            (update_nth
                               (fun instance =>
                                  set_offset instance
                                    (mkPointf
                                       ((x (bb_size bb) + dist) * inject_Z (Z.of_nat (c - 1)))
                                       ((y (bb_size bb) + dist)
                                        * inject_Z (Z.of_nat (y_copy - 1)))))
                               (instances (add_instance object0))
                               (length (instances (add_instance object0)) - 1)))) s
                 = Diverges).
      { intros c s0. unfold for_size_t. rewrite N.eqb_refl. reflexivity. }
      destruct Hmax as [-> | [Hpos ->]].
      * unfold for_size_t at 1. rewrite N.eqb_refl.
        destruct (N.eqb_spec ny SIZE_MAX) as [-> | Hny].
        -- rewrite Hinner. reflexivity.
        -- rewrite for_size_t_returns by lia. reflexivity.
      * unfold for_size_t at 1.
        destruct (N.eqb_spec nx SIZE_MAX) as [_ | _]; [rewrite Hinner; reflexivity|].
        destruct (N.to_nat nx) as [|k] eqn:Ek; [lia|].
        cbn [seq foldM]. rewrite Hinner. reflexivity.
  - split; [discriminate|]. split; [reflexivity|]. split.
    + intros _ _. split; [intros [m' H]; discriminate H | intro H; discriminate H].
    + intro H. discriminate H.
Qed.
End GridRejection.

(** ** Facet count *)

Lemma facets_count_from (vols : list ModelVolume) (acc : TriangleMesh) (num : nat) :
  number_of_facets acc = num ->
  number_of_facets
    (fold_left (fun acc v => if negb (modifier v) then mesh_merge acc (mesh v) else acc) vols acc)
  = fold_left (fun num v => if negb (modifier v)
                            then (num + number_of_facets (mesh v))%nat else num) vols num.
Proof.
  revert acc num. induction vols as [|v rest IH]; intros acc num Hacc; simpl; [exact Hacc|].
  apply IH. destruct (modifier v); simpl; [exact Hacc|].
  unfold number_of_facets, mesh_merge in *. simpl. rewrite length_app, Hacc. reflexivity.
Qed.

(** X10.  [facets_count] and [raw_mesh] agree: the count is the number of
    facets of the merged mesh of the volumes that are not modifiers; in
    particular facets of modifier volumes are never counted. *)
Theorem facets_count_is_the_size_of_raw_mesh (o : ModelObject) :
  facets_count o = number_of_facets (raw_mesh o).
Proof.
  unfold facets_count, raw_mesh. symmetry. apply facets_count_from. reflexivity.
Qed.

(** ** The rectangular packer wrapper *)

Section RectangularPacking.
Context {libm : Libm} {consts : Libslic3r} {geom : GeometryLib}.

Lemma _arrange_returns (sizes : Pointfs) (dist : Q) (bb : option BoundingBoxf) (out : Pointfs) :
  exists result, _arrange sizes dist bb out = Ok result.
Proof.
  destruct sizes as [|p rest]; [eexists; reflexivity|].
  unfold _arrange.
  destruct (BoundingBoxf_of_points (p :: rest)) as [cell| | | | |] eqn:Ecell;
    try (simpl in Ecell; discriminate Ecell).
  cbn [bind].
  destruct (geometry_arrange (length (p :: rest)) (bmax2 cell) dist bb out)
    as [result out1].
  destruct result; cbn [negb andb]; [eexists; reflexivity|].
  destruct bb as [b|]; cbn [bind]; eexists; reflexivity.
Qed.

(** X11.  [_arrange] never reaches the confessing constructor of
    [BoundingBoxf]: an empty size list returns success at once, with the
    output vector untouched and the packer not called.  A non-empty list
    returns the packer's verdict for the cell that bounds the sizes: the
    verdict of the call with the given bin when no bin was given or that
    call succeeded, and otherwise the verdict of a second call without a
    bin, on the output vector the first call left.  So it reports failure
    only when the packer has failed without a bin. *)
Theorem _arrange_returns_and_fails_only_without_bin
        (sizes : Pointfs) (dist : Q) (bb : option BoundingBoxf) (out : Pointfs) :
  _arrange [] dist bb out = Ok (true, out)
  /\ (sizes <> [] ->
      exists cell,
        BoundingBoxf_of_points sizes = Ok cell
        /\ _arrange sizes dist bb out
           = Ok (let first := geometry_arrange (length sizes) (bmax2 cell) dist bb out in
                 match bb with
                 | Some _ =>
                     if fst first then first
                     else geometry_arrange (length sizes) (bmax2 cell) dist None (snd first)
                 | None => first
                 end))
  /\ (forall positions,
        _arrange sizes dist bb out = Ok (false, positions) ->
        exists cell out',
          BoundingBoxf_of_points sizes = Ok cell
          /\ geometry_arrange (length sizes) (bmax2 cell) dist None out' = (false, positions)).
Proof.
  split; [reflexivity|].
  destruct sizes as [|p rest].
  { split; [intro H; contradiction | intros ps H; discriminate H]. }
  unfold _arrange.
  destruct (BoundingBoxf_of_points (p :: rest)) as [cell| | | | |] eqn:Ecell;
    try (simpl in Ecell; discriminate Ecell).
  cbn [bind]. cbv zeta.
  destruct (geometry_arrange (length (p :: rest)) (bmax2 cell) dist bb out)
    as [result out1] eqn:Efirst.
  cbn [fst snd].
  destruct result; cbn [negb andb].
  - split; [|intros ps H; discriminate H].
    intros _. exists cell. split; [reflexivity|]. cbv zeta. rewrite Efirst.
    destruct bb; reflexivity.
  - destruct bb as [b|]; cbn [bind].
    + split.
      * intros _. exists cell. split; [reflexivity|]. cbv zeta. rewrite Efirst. reflexivity.
      * intros ps H. injection H as H. exists cell, out1. split; [reflexivity | exact H].
    + split.
      * intros _. exists cell. split; [reflexivity|]. cbv zeta. rewrite Efirst. reflexivity.
      * intros ps H. injection H as <-. exists cell, out. split; [reflexivity | exact Efirst].
Qed.

Lemma instance_bounding_box_in_range (o : ModelObject) (idx : nat) (dont_translate : bool) :
  (idx < length (instances o))%nat ->
  exists bb, instance_bounding_box o idx dont_translate = Ok bb.
Proof.
  intro Hidx. unfold instance_bounding_box.
  destruct (nth_error (instances o) idx) as [inst|] eqn:Einst;
    [|apply nth_error_None in Einst; lia].
  generalize BoundingBoxf3_default.
  induction (volumes o) as [|v rest IH]; intro bb; cbn [foldM]; [eexists; reflexivity|].
  destruct (modifier v); cbn [negb bind]; [apply IH|].
  unfold vec_at at 1. rewrite Einst. cbn [bind]. apply IH.
Qed.

Lemma instance_sizes_centers_object (o : ModelObject) (idxs : list nat)
      (acc : Pointfs * Pointfs) :
  Forall (fun i => (i < length (instances o))%nat) idxs ->
  exists sizes centers,
    foldM (fun (acc : Pointfs * Pointfs) i =>
             let (instance_sizes, instance_centers) := acc in
             bbox <- instance_bounding_box o i true ;;
             Ok (instance_sizes ++ [to_Pointf (bb_size bbox)],
                 instance_centers ++ [to_Pointf (bb_center bbox)]))
          idxs acc
    = Ok (fst acc ++ sizes, snd acc ++ centers)
    /\ length sizes = length idxs /\ length centers = length idxs.
Proof.
  revert acc. induction idxs as [|i rest IH]; intros [s c] Hall; simpl.
  - exists [], []. rewrite !app_nil_r. repeat split.
  - inversion Hall as [|a l Hi Hrest]; subst.
    destruct (instance_bounding_box_in_range o i true Hi) as [bbox Hbox].
    rewrite Hbox. simpl.
    destruct (IH (s ++ [to_Pointf (bb_size bbox)], c ++ [to_Pointf (bb_center bbox)]) Hrest)
      as [sizes [centers [Hrun [Hs Hc]]]].
    exists (to_Pointf (bb_size bbox) :: sizes), (to_Pointf (bb_center bbox) :: centers).
    rewrite Hrun. simpl. rewrite <- !app_assoc. simpl.
    repeat split; [rewrite Hs | rewrite Hc]; reflexivity.
Qed.

Lemma instance_sizes_centers_from (objs : list ModelObject) (acc : Pointfs * Pointfs) :
  exists sizes centers,
    foldM (fun (acc : Pointfs * Pointfs) o =>
             foldM (fun (acc : Pointfs * Pointfs) i =>
                      let (instance_sizes, instance_centers) := acc in
                      bbox <- instance_bounding_box o i true ;;
                      Ok (instance_sizes ++ [to_Pointf (bb_size bbox)],
                          instance_centers ++ [to_Pointf (bb_center bbox)]))
                   (seq 0 (length (instances o))) acc)
          objs acc
    = Ok (fst acc ++ sizes, snd acc ++ centers)
    /\ length sizes = length (flat_map instances objs)
    /\ length centers = length (flat_map instances objs).
Proof.
  revert acc. induction objs as [|o rest IH]; intro acc; simpl.
  - exists [], []. rewrite !app_nil_r. destruct acc. repeat split.
  - destruct (instance_sizes_centers_object o (seq 0 (length (instances o))) acc)
      as [s1 [c1 [Hrun [Hs Hc]]]].
    { apply Forall_forall. intros i Hin. apply in_seq in Hin. lia. }
    rewrite Hrun. simpl.
    destruct (IH (fst acc ++ s1, snd acc ++ c1)) as [s2 [c2 [Hrest [Hs2 Hc2]]]].
    exists (s1 ++ s2), (c1 ++ c2). rewrite Hrest. simpl. rewrite !app_assoc.
    rewrite !length_app, Hs, Hc, Hs2, Hc2, length_seq. repeat split.
Qed.

(** The first loop of the branch without a bin always returns, with one
    size and one centre per instance of the model. *)
Lemma instance_sizes_centers_returns (m : Model) :
  exists sizes centers,
    instance_sizes_centers m = Ok (sizes, centers)
    /\ length sizes = length (flat_map instances (objects m))
    /\ length centers = length (flat_map instances (objects m)).
Proof.
  unfold instance_sizes_centers.
  destruct (instance_sizes_centers_from (objects m) ([], [])) as [s [c H]].
  exists s, c. exact H.
Qed.
End RectangularPacking.

(** The packer that gives up with a bin: [_arrange] returns the verdict of
    the retry without the bin. *)
Lemma _arrange_returns_and_fails_only_without_bin_witness :
  [mkPointf 10 10; mkPointf 10 10] <> []
  /\ @_arrange bin_shy_packer [mkPointf 10 10; mkPointf 10 10] 5
               (Some (mkBB2 (mkPointf 0 0) (mkPointf 12 12) true)) []
     = Ok (true, [mkPointf 0 0; mkPointf 15 0]).
Proof.
  assert (Hsome : [mkPointf 10 10; mkPointf 10 10] <> []) by discriminate.
  split; [exact Hsome|].
  destruct (proj1 (proj2 (@_arrange_returns_and_fails_only_without_bin bin_shy_packer
                            [mkPointf 10 10; mkPointf 10 10] 5
                            (Some (mkBB2 (mkPointf 0 0) (mkPointf 12 12) true)) []))
                  Hsome) as [cell [Hcell Hrun]].
  rewrite Hrun. vm_compute in Hcell. injection Hcell as <-. vm_compute. reflexivity.
Defined.

(** ** What an arrangement leaves alone *)

Lemma map_update_nth_invariant {A B : Type} (g : A -> B) (f : A -> A) (l : list A) (n : nat) :
  (forall a, g (f a) = g a) -> map g (update_nth f l n) = map g l.
Proof.
  intro Hinv. revert n. induction l as [|h t IH]; intros [|n]; simpl; try reflexivity.
  - rewrite Hinv. reflexivity.
  - rewrite IH. reflexivity.
Qed.

Lemma write_placement_kept (m : Model) (p : InstancePtr) (rot : Q) (off : Pointf) :
  map kept_by_packing (objects (write_instance m p (fun i => set_placement i rot off)))
  = map kept_by_packing (objects m).
Proof.
  unfold write_instance. simpl. apply map_update_nth_invariant.
  intro o. unfold kept_by_packing. simpl. f_equal.
  apply map_update_nth_invariant. intro i. reflexivity.
Qed.

Section ArrangeKeeps.
Context {libm : Libm} {consts : Libslic3r} {meshops : MeshOps} {geom : GeometryLib}
        {nest : Nest2D}.

Lemma applyResult_kept (shapemap : ShapeData2D) (group : PackGroup) (batch_offset : Z)
      (m m' : Model) :
  applyResult shapemap m group batch_offset = Ok m' ->
  map kept_by_packing (objects m') = map kept_by_packing (objects m)
  /\ materials m' = materials m.
Proof.
  unfold applyResult. revert m.
  induction group as [|r rest IH]; intros m Hrun; simpl in Hrun.
  - injection Hrun as <-. split; reflexivity.
  - unfold vec_at in Hrun.
    destruct (nth_error shapemap (fst r)) as [entry|]; simpl in Hrun; [|discriminate Hrun].
    destruct (IH _ Hrun) as [Hk Hm]. rewrite Hk, Hm, write_placement_kept.
    split; reflexivity.
Qed.

Lemma applyResult_batches_kept (shapemap : ShapeData2D) (stride : Z) (groups : list PackGroup)
      (m m' : Model) (b b' : Z) :
  foldM (fun (acc : Model * Z) group =>
           let (model, batch_offset) := acc in
           model <- applyResult shapemap model group batch_offset ;;
           Ok (model, (batch_offset + stride)%Z))
        groups (m, b) = Ok (m', b') ->
  map kept_by_packing (objects m') = map kept_by_packing (objects m)
  /\ materials m' = materials m
  /\ b' = (b + Z.of_nat (length groups) * stride)%Z.
Proof.
  revert m b. induction groups as [|g rest IH]; intros m b Hrun; simpl in Hrun.
  - injection Hrun as <- <-. repeat split. simpl. lia.
  - destruct (applyResult shapemap m g b) as [m1| | | | |] eqn:E1; simpl in Hrun;
      try discriminate Hrun.
    destruct (IH _ _ Hrun) as [Hk [Hm Hb]].
    destruct (applyResult_kept _ _ _ _ _ E1) as [Hk1 Hm1].
    rewrite Hk, Hm, Hk1, Hm1, Hb. repeat split.
    change (length (g :: rest)) with (S (length rest)). lia.
Qed.

Lemma arrange_kept (m m' : Model) (dist : Q) (bb : option BoundingBoxf)
      (first_bin_only r : bool) :
  arrange m dist bb first_bin_only = Ok (r, m') ->
  map kept_by_packing (objects m') = map kept_by_packing (objects m)
  /\ materials m' = materials m.
Proof.
  unfold arrange. intro H.
  destruct (projectModelFromTop m) as [shapemap| | | | |]; simpl in H; try discriminate H.
  match type of H with
  | bind ?c _ = _ => destruct c as [written| | | | |] eqn:Ew; simpl in H; try discriminate H
  end.
  injection H as _ <-. simpl.
  assert (Hkept : map kept_by_packing (objects written) = map kept_by_packing (objects m)
                  /\ materials written = materials m).
  { destruct first_bin_only.
    - destruct (vec_front (arrange_result shapemap dist bb)) as [front| | | | |];
        simpl in Ew; try discriminate Ew.
      apply (applyResult_kept _ _ _ _ _ Ew).
    - match type of Ew with
      | bind ?c _ = _ => destruct c as [[m1 b1]| | | | |] eqn:Eb; simpl in Ew; try discriminate Ew
      end.
      injection Ew as <-.
      destruct (applyResult_batches_kept _ _ _ _ _ _ _ Eb) as [Hk [Hm _]].
      split; assumption. }
  destruct Hkept as [Hk Hm]. split; [|exact Hm].
  rewrite map_map. rewrite <- Hk. rewrite <- (map_map invalidate_bounding_box kept_by_packing).
  rewrite map_map. reflexivity.
Qed.

(** X12.  Whenever [arr::arrange] returns, with either setting of
    [first_bin_only], the model has the same objects with the same volumes
    and the same number of instances, every instance has the scaling factor
    and the stored classification it had, the materials are untouched, and
    the bounding-box cache of every object is flagged invalid. *)
Theorem arrange_keeps_scaling_and_invalidates
        (m m' : Model) (dist : Q) (bb : option BoundingBoxf) (first_bin_only r : bool) :
  arrange m dist bb first_bin_only = Ok (r, m') ->
  map kept_by_packing (objects m') = map kept_by_packing (objects m)
  /\ materials m' = materials m
  /\ Forall (fun o => m_bounding_box_valid o = false) (objects m').
Proof.
  unfold arrange. intro H.
  destruct (projectModelFromTop m) as [shapemap| | | | |]; simpl in H; try discriminate H.
  match type of H with
  | bind ?c _ = _ => destruct c as [written| | | | |] eqn:Ew; simpl in H; try discriminate H
  end.
  injection H as _ <-. simpl.
  assert (Hkept : map kept_by_packing (objects written) = map kept_by_packing (objects m)
                  /\ materials written = materials m).
  { destruct first_bin_only.
    - destruct (vec_front (arrange_result shapemap dist bb)) as [front| | | | |];
        simpl in Ew; try discriminate Ew.
      apply (applyResult_kept _ _ _ _ _ Ew).
    - match type of Ew with
      | bind ?c _ = _ => destruct c as [[m1 b1]| | | | |] eqn:Eb; simpl in Ew; try discriminate Ew
      end.
      injection Ew as <-.
      destruct (applyResult_batches_kept _ _ _ _ _ _ _ Eb) as [Hk [Hm _]].
      split; assumption. }
  destruct Hkept as [Hk Hm]. split; [|split].
  - rewrite map_map. rewrite <- Hk. rewrite <- (map_map invalidate_bounding_box kept_by_packing).
    rewrite map_map. reflexivity.
  - exact Hm.
  - apply Forall_forall. intros o Hin. apply in_map_iff in Hin.
    destruct Hin as [o0 [<- _]]. reflexivity.
Qed.
End ArrangeKeeps.

Lemma arrange_keeps_scaling_and_invalidates_witness :
  exists m',
    @arrange libslic3r_h cube_meshops one_item_per_bin two_cubes_model 5 (Some small_bin) false
    = Ok (false, m')
    /\ map (fun o => map scaling_factor (instances o)) (objects m') = [[1; 1]]
    /\ Forall (fun o => m_bounding_box_valid o = false) (objects m').
Proof.
  destruct (@arrange libslic3r_h cube_meshops one_item_per_bin two_cubes_model 5
                     (Some small_bin) false) as [[r m']| | | | |] eqn:E;
    try (vm_compute in E; discriminate E).
  assert (Hr : r = false) by (vm_compute in E; injection E as <- _; reflexivity).
  subst r. exists m'. split; [reflexivity|].
  destruct (@arrange_keeps_scaling_and_invalidates libslic3r_h cube_meshops one_item_per_bin
              two_cubes_model m' 5 (Some small_bin) false false E) as [Hk [_ Hinv]].
  split; [|exact Hinv].
  assert (Hs : map (fun o => map fst (snd (kept_by_packing o))) (objects m')
               = map (fun o => map fst (snd (kept_by_packing o))) (objects two_cubes_model)).
  { rewrite <- !(map_map kept_by_packing (fun k => map fst (snd k))). rewrite Hk. reflexivity. }
  unfold kept_by_packing in Hs. simpl in Hs.
  rewrite <- Hs. apply map_ext. intro o. rewrite map_map. reflexivity.
Defined.

Section ArrangeObjectsKeeps.
Context {libm : Libm} {consts : Libslic3r} {meshops : MeshOps} {geom : GeometryLib}
        {nest : Nest2D}.

Lemma apply_positions_instances (positions centers : Pointfs) (insts placed : list ModelInstance)
      (idx : nat) (r : list ModelInstance * nat) :
  foldM (fun (acc : list ModelInstance * nat) i =>
           let (placed, idx) := acc in
           pos <- vec_at positions idx ;;
           ctr <- vec_at centers idx ;;
           Ok (placed ++ [set_offset i (Pointf_minus pos ctr)], S idx))
        insts (placed, idx) = Ok r ->
  map (fun i => (rotation i, scaling_factor i, print_volume_state i)) (fst r)
  = map (fun i => (rotation i, scaling_factor i, print_volume_state i)) (placed ++ insts).
Proof.
  revert placed idx. induction insts as [|i rest IH]; intros placed idx Hrun; simpl in Hrun.
  - injection Hrun as <-. rewrite app_nil_r. reflexivity.
  - destruct (vec_at positions idx) as [pos| | | | |]; simpl in Hrun; try discriminate Hrun.
    destruct (vec_at centers idx) as [ctr| | | | |]; simpl in Hrun; try discriminate Hrun.
    rewrite (IH _ _ Hrun). rewrite <- app_assoc. rewrite !map_app. reflexivity.
Qed.

Lemma apply_positions_objects (positions centers : Pointfs) (objs done : list ModelObject)
      (idx : nat) (r : list ModelObject * nat) :
  foldM (fun (acc : list ModelObject * nat) o =>
           let (done, idx) := acc in
           r <- foldM (fun (acc : list ModelInstance * nat) i =>
                         let (placed, idx) := acc in
                         pos <- vec_at positions idx ;;
                         ctr <- vec_at centers idx ;;
                         Ok (placed ++ [set_offset i (Pointf_minus pos ctr)], S idx))
                      (instances o) ([], idx) ;;
           Ok (done ++ [invalidate_bounding_box (set_instances o (fst r))], snd r))
        objs (done, idx) = Ok r ->
  map kept_by_packing (fst r) = map kept_by_packing (done ++ objs)
  /\ map (fun o => map rotation (instances o)) (fst r)
     = map (fun o => map rotation (instances o)) (done ++ objs).
Proof.
  revert done idx. induction objs as [|o rest IH]; intros done idx Hrun; simpl in Hrun.
  - injection Hrun as <-. simpl. rewrite app_nil_r. split; reflexivity.
  - match type of Hrun with
    | bind (bind ?c _) _ = _ => destruct c as [ri| | | | |] eqn:Ei; simpl in Hrun;
                                  try discriminate Hrun
    end.
    pose proof (apply_positions_instances _ _ _ _ _ _ Ei) as Hinst. simpl in Hinst.
    destruct (IH _ _ Hrun) as [Hk Hrot].
    assert (Hscale : map (fun i => (scaling_factor i, print_volume_state i)) (fst ri)
                     = map (fun i => (scaling_factor i, print_volume_state i)) (instances o)).
    { apply (f_equal (map (fun t : Q * Q * PrintVolumeState => (snd (fst t), snd t)))) in Hinst.
      rewrite !map_map in Hinst. exact Hinst. }
    assert (Hrotation : map rotation (fst ri) = map rotation (instances o)).
    { apply (f_equal (map (fun t : Q * Q * PrintVolumeState => fst (fst t)))) in Hinst.
      rewrite !map_map in Hinst. exact Hinst. }
    split.
    + rewrite Hk, <- app_assoc, !map_app. simpl. unfold kept_by_packing at 2. simpl.
      rewrite Hscale. reflexivity.
    + rewrite Hrot, <- app_assoc, !map_app. simpl. rewrite Hrotation. reflexivity.
Qed.

Lemma arrange_objects_kept (m m' : Model) (dist : Q) (bb : option BoundingBoxf) (r : bool) :
  arrange_objects m dist bb = Ok (r, m') ->
  map kept_by_packing (objects m') = map kept_by_packing (objects m).
Proof.
  unfold arrange_objects. intro H. destruct (hasbin_of bb).
  - destruct (arrange m dist bb false) as [[r0 m0]| | | | |] eqn:E; simpl in H; try discriminate H.
    injection H as _ <-. apply (arrange_kept _ _ _ _ _ _ E).
  - destruct (instance_sizes_centers m) as [[sizes centers]| | | | |]; simpl in H;
      try discriminate H.
    destruct (_arrange sizes dist bb []) as [[ok positions]| | | | |]; simpl in H;
      try discriminate H.
    destruct ok; simpl in H.
    + unfold apply_positions in H.
      match type of H with
      | bind (bind ?c _) _ = _ => destruct c as [ro| | | | |] eqn:Eo; simpl in H;
                                    try discriminate H
      end.
      injection H as _ <-. simpl.
      apply (apply_positions_objects _ _ _ _ _ _ Eo).
    + injection H as _ <-. reflexivity.
Qed.

(** X13.  Whenever [arrange_objects] returns, on the nesting branch as on
    the branch without a bin, the model has the same objects with the same
    volumes and the same number of instances, and every instance has the
    scaling factor and the stored classification it had; the branch without
    a bin also keeps every rotation, it only rewrites offsets. *)
Theorem arrange_objects_keeps_instance_count_and_scaling
        (m m' : Model) (dist : Q) (bb : option BoundingBoxf) (r : bool) :
  arrange_objects m dist bb = Ok (r, m') ->
  map kept_by_packing (objects m') = map kept_by_packing (objects m)
  /\ materials m' = materials m
  /\ (hasbin_of bb = false ->
      map (fun o => map rotation (instances o)) (objects m')
      = map (fun o => map rotation (instances o)) (objects m)).
Proof.
  unfold arrange_objects. intro H. destruct (hasbin_of bb) eqn:Hbin.
  - destruct (arrange m dist bb false) as [[r0 m0]| | | | |] eqn:E; simpl in H; try discriminate H.
    injection H as _ <-.
    destruct (arrange_kept _ _ _ _ _ _ E) as [Hk Hm].
    split; [exact Hk|]. split; [exact Hm | discriminate].
  - destruct (instance_sizes_centers m) as [[sizes centers]| | | | |]; simpl in H;
      try discriminate H.
    destruct (_arrange sizes dist bb []) as [[ok positions]| | | | |]; simpl in H;
      try discriminate H.
    destruct ok; simpl in H.
    + unfold apply_positions in H.
      match type of H with
      | bind (bind ?c _) _ = _ => destruct c as [ro| | | | |] eqn:Eo; simpl in H;
                                    try discriminate H
      end.
      injection H as _ <-. simpl.
      destruct (apply_positions_objects _ _ _ _ _ _ Eo) as [Hk Hrot].
      split; [exact Hk|]. split; [reflexivity | intros _; exact Hrot].
    + injection H as _ <-. split; [reflexivity|]. split; [reflexivity | reflexivity].
Qed.

(** X14.  On the branch without a bin, when the rectangular packer finds no
    layout for the instance sizes of this model, neither in the call that
    [_arrange] makes with the bin argument it was handed nor, if one was
    handed, in the retry without it, [arrange_objects] returns false and
    the model is exactly as before: no offset was written and no cache
    invalidated. *)
Theorem arrange_objects_failed_packing_changes_nothing
        (m : Model) (dist : Q) (bb : option BoundingBoxf)
        (sizes centers : Pointfs) (cell : BoundingBoxf) :
  hasbin_of bb = false ->
  instance_sizes_centers m = Ok (sizes, centers) ->
  BoundingBoxf_of_points sizes = Ok cell ->
  fst (geometry_arrange (length sizes) (bmax2 cell) dist bb []) = false ->
  (bb <> None ->
   fst (geometry_arrange (length sizes) (bmax2 cell) dist None
          (snd (geometry_arrange (length sizes) (bmax2 cell) dist bb []))) = false) ->
  arrange_objects m dist bb = Ok (false, m).
Proof.
  intros Hbin Hrun Hcell Hfirst Hretry. unfold arrange_objects. rewrite Hbin, Hrun.
  cbn [bind].
  assert (Hsome : sizes <> []) by (intro E; rewrite E in Hcell; discriminate Hcell).
  unfold _arrange. destruct sizes as [|p rest]; [contradiction|].
  rewrite Hcell. cbn [bind].
  destruct (geometry_arrange (length (p :: rest)) (bmax2 cell) dist bb []) as [res out1].
  cbn [fst snd] in Hfirst, Hretry. subst res. cbn [negb andb].
  destruct bb as [b|]; cbn [bind]; [|reflexivity].
  assert (Hfail : fst (geometry_arrange (length (p :: rest)) (bmax2 cell) dist None out1)
                  = false) by (apply Hretry; discriminate).
  destruct (geometry_arrange (length (p :: rest)) (bmax2 cell) dist None out1) as [res out2].
  cbn [fst] in Hfail. subst res. reflexivity.
Qed.
End ArrangeObjectsKeeps.

Lemma arrange_objects_keeps_instance_count_and_scaling_witness :
  exists m',
    @arrange_objects libm_at_zero libslic3r_h cube_meshops row_packer one_item_per_bin
                     two_cubes_model 5 None = Ok (false, m')
    /\ map (fun o => map rotation (instances o)) (objects m') = [[0; 0]]
    /\ map (fun o => length (volumes o)) (objects m') = [1%nat].
Proof.
  destruct (@arrange_objects libm_at_zero libslic3r_h cube_meshops row_packer one_item_per_bin
                             two_cubes_model 5 None) as [[r m']| | | | |] eqn:E;
    try (vm_compute in E; discriminate E).
  assert (Hr : r = false) by (vm_compute in E; injection E as <- _; reflexivity).
  subst r. exists m'. split; [reflexivity|].
  destruct (@arrange_objects_keeps_instance_count_and_scaling
              libm_at_zero libslic3r_h cube_meshops row_packer one_item_per_bin
              two_cubes_model m' 5 None false E) as [Hk [_ Hrot]].
  split; [rewrite (Hrot eq_refl); reflexivity|].
  assert (Hv : map (fun o => length (volumes o)) (objects m')
               = map (fun k => length (snd (fst (fst k)))) (map kept_by_packing (objects m')))
    by (rewrite map_map; reflexivity).
  rewrite Hv, Hk. reflexivity.
Defined.

Lemma arrange_objects_failed_packing_changes_nothing_witness :
  @arrange_objects libm_at_zero libslic3r_h cube_meshops single_cell_packer one_item_per_bin
                   two_cubes_model 5 None = Ok (false, two_cubes_model)
  /\ exists m', @arrange_objects libm_at_zero libslic3r_h cube_meshops single_cell_packer
                                 one_item_per_bin cube_model 5 None = Ok (false, m')
                /\ m' <> cube_model.
Proof.
  split.
  - apply (@arrange_objects_failed_packing_changes_nothing
             libm_at_zero libslic3r_h cube_meshops single_cell_packer one_item_per_bin
             two_cubes_model 5 None
             [mkPointf 10 10; mkPointf 10 10]
             [mkPointf (10 # 2) (10 # 2); mkPointf (10 # 2) (10 # 2)]
             (mkBB2 (mkPointf 10 10) (mkPointf 10 10) false)).
    + reflexivity.
    + vm_compute. reflexivity.
    + vm_compute. reflexivity.
    + reflexivity.
    + intro H. contradiction.
  - eexists. split; [vm_compute; reflexivity|]. intro H. discriminate H.
Defined.

(** ** Pack groups beyond the first *)

Lemma same_but_placement_trans (a b c : option ModelInstance) :
  same_but_placement a b -> same_but_placement b c -> same_but_placement a c.
Proof.
  intros [H1 H2] [H3 H4]. split; congruence.
Qed.

Section Batches.
Context {consts : Libslic3r}.

Lemma applyResult_batches_frame (shapemap : ShapeData2D) (stride : Z) (groups : list PackGroup)
      (m m' : Model) (b b' : Z) (p : InstancePtr) :
  foldM (fun (acc : Model * Z) group =>
           let (model, batch_offset) := acc in
           model <- applyResult shapemap model group batch_offset ;;
           Ok (model, (batch_offset + stride)%Z))
        groups (m, b) = Ok (m', b') ->
  same_but_placement (instance_at m' p) (instance_at m p)
  /\ (Forall (fun g => ~ targets shapemap g p) groups -> instance_at m' p = instance_at m p).
Proof.
  revert m b. induction groups as [|g rest IH]; intros m b Hrun; simpl in Hrun.
  - injection Hrun as <- _. split; [split; reflexivity | reflexivity].
  - destruct (applyResult shapemap m g b) as [m1| | | | |] eqn:E1; simpl in Hrun;
      try discriminate Hrun.
    destruct (IH _ _ Hrun) as [Hsame Hframe]. split.
    + apply (same_but_placement_trans _ _ _ Hsame).
      apply (applyResult_keeps_the_rest shapemap g b m m1 p E1).
    + intro Hall. inversion Hall as [|g0 l Hg Hrest]; subst.
      rewrite (Hframe Hrest). apply (applyResult_frame shapemap g b m m1 p E1 Hg).
Qed.
End Batches.

Section MultiBin.
Context {libm : Libm} {consts : Libslic3r} {meshops : MeshOps} {geom : GeometryLib}
        {nest : Nest2D}.

(** X15.  With [first_bin_only = false] every pack group is written back,
    group number [k] (from 0) with the batch offset [k * stride], where the
    stride is 1.2 times the bin width: an instance whose last entry in the
    result is [(idx, item)] in group [k] ends with the item's rotation and
    the offset [(X * SCALING_FACTOR + k * stride, Y * SCALING_FACTOR)], so
    later groups lie beside the bin along X and keep their Y. *)
Theorem arrange_shifts_later_groups_by_stride
        (m m' : Model) (dist : Q) (bb : option BoundingBoxf) (r : bool)
        (shapemap : ShapeData2D) (pre post : list PackGroup) (g1 g2 : PackGroup)
        (idx : nat) (item it : Item) (p : InstancePtr) :
  arrange m dist bb false = Ok (r, m') ->
  projectModelFromTop m = Ok shapemap ->
  arrange_result shapemap dist bb = pre ++ (g1 ++ (idx, item) :: g2) :: post ->
  nth_error shapemap idx = Some (p, it) ->
  ~ targets shapemap g2 p ->
  Forall (fun g => ~ targets shapemap g p) post ->
  instance_at m' p
  = option_map (placed item (Z.of_nat (length pre) * arrange_stride bb)) (instance_at m p).
Proof.
  intros Hrun Hproj Hres Hentry Hg2 Hpost.
  unfold arrange in Hrun. rewrite Hproj in Hrun. cbn [bind] in Hrun.
  rewrite Hres in Hrun.
  match type of Hrun with
  | bind (bind ?c _) _ = _ => destruct c as [[written b3]| | | | |] eqn:Eall; cbn [bind] in Hrun;
                                try discriminate Hrun
  end.
  injection Hrun as _ <-. rewrite instance_at_invalidated. cbn [fst].
  rewrite foldM_app in Eall.
  match type of Eall with
  | bind ?c _ = _ => destruct c as [[m1 b1]| | | | |] eqn:Epre; cbn [bind] in Eall;
                       try discriminate Eall
  end.
  cbn [foldM] in Eall.
  destruct (applyResult shapemap m1 (g1 ++ (idx, item) :: g2) b1) as [m2| | | | |] eqn:Egroup;
    cbn [bind] in Eall; try discriminate Eall.
  destruct (applyResult_batches_frame _ _ _ _ _ _ _ p Eall) as [_ Hframe].
  rewrite (Hframe Hpost).
  rewrite (applyResult_written shapemap g1 g2 idx item it b1 m1 m2 p Egroup Hentry Hg2).
  destruct (applyResult_batches_kept _ _ _ _ _ _ _ Epre) as [_ [_ Hb1]].
  destruct (applyResult_batches_frame _ _ _ _ _ _ _ p Epre) as [Hsame _].
  rewrite Hb1. rewrite Z.add_0_l.
  apply (placed_only_reads_the_rest item _ _ _ Hsame).
Qed.
End MultiBin.

Lemma arrange_shifts_later_groups_by_stride_witness :
  exists m',
    @arrange libslic3r_h cube_meshops one_item_per_bin two_cubes_model 5 (Some small_bin) false
    = Ok (false, m')
    /\ @arrange_stride libslic3r_h (Some small_bin) = 14%Z
    /\ option_map offset (instance_at m' (0%nat, 1%nat))
       = Some (mkPointf (inject_Z 6000000 * (1 # 1000000) + inject_Z (1 * 14))
                        (inject_Z 6000000 * (1 # 1000000))).
Proof.
  destruct (@arrange libslic3r_h cube_meshops one_item_per_bin two_cubes_model 5
                     (Some small_bin) false) as [[r m']| | | | |] eqn:E;
    try (vm_compute in E; discriminate E).
  assert (Hr : r = false) by (vm_compute in E; injection E as <- _; reflexivity).
  subst r. exists m'. split; [reflexivity|]. split; [vm_compute; reflexivity|].
  rewrite (@arrange_shifts_later_groups_by_stride
             libslic3r_h cube_meshops one_item_per_bin
             two_cubes_model m' 5 (Some small_bin) false two_cubes_shapemap
             [hd [] two_cubes_groups] [] [] [] 1%nat
             (snd (hd (O, mkItem [] 0 (0, 0)%Z) (hd [] (tl two_cubes_groups))))
             (snd (hd ((O, O), mkItem [] 0 (0, 0)%Z) (tl two_cubes_shapemap)))
             (0%nat, 1%nat) E).
  - reflexivity.
  - vm_compute. reflexivity.
  - vm_compute. reflexivity.
  - reflexivity.
  - intros [i [item [entry [[] _]]]].
  - constructor.
Defined.

(** ** Duplicating the model *)

Section Duplicate.
Context {libm : Libm} {geom : GeometryLib}.

Lemma bounding_box_keeps_volumes (o : ModelObject) :
  volumes (snd (bounding_box o)) = volumes o.
Proof.
  unfold bounding_box. destruct (negb (m_bounding_box_valid o)); reflexivity.
Qed.

Lemma merge_object_boxes_keeps_volumes (objs : list ModelObject) (bb : BoundingBoxf3) :
  map volumes (snd (merge_object_boxes objs bb)) = map volumes objs.
Proof.
  revert bb. induction objs as [|o rest IH]; intro bb; simpl; [reflexivity|].
  destruct (bounding_box o) as [ob o'] eqn:Eo.
  specialize (IH (merge_box bb ob)).
  destruct (merge_object_boxes rest (merge_box bb ob)) as [bb' rest'].
  simpl in *. rewrite IH. f_equal.
  change o' with (snd (ob, o')). rewrite <- Eo. apply bounding_box_keeps_volumes.
Qed.

Let duplicate_step (i : ModelInstance) (o : ModelObject) (pos : Pointf) : ModelObject :=
  let o := add_instance_copy o i in
  set_instances o
    (update_nth
       (fun inst => set_offset inst (Pointf_translate (offset inst) (px pos) (py pos)))
       (instances o) (length (instances o) - 1)).

Lemma duplicate_positions (i : ModelInstance) (positions : Pointfs) (o : ModelObject) :
  instances (fold_left (duplicate_step i) positions o)
  = instances o ++ map (duplicate_at i) positions
  /\ volumes (fold_left (duplicate_step i) positions o) = volumes o.
Proof.
  revert o. induction positions as [|pos rest IH]; intro o; simpl.
  - rewrite app_nil_r. split; reflexivity.
  - destruct (IH (duplicate_step i o pos)) as [Hi Hv]. rewrite Hi, Hv.
    unfold duplicate_step. simpl. rewrite update_nth_last, <- app_assoc.
    split; reflexivity.
Qed.

Lemma duplicate_snapshot (snapshot : list ModelInstance) (positions : Pointfs)
      (o : ModelObject) :
  instances (fold_left (fun o i => fold_left (duplicate_step i) positions o) snapshot o)
  = instances o ++ flat_map (fun i => map (duplicate_at i) positions) snapshot
  /\ volumes (fold_left (fun o i => fold_left (duplicate_step i) positions o) snapshot o)
     = volumes o.
Proof.
  revert o. induction snapshot as [|i rest IH]; intro o; simpl.
  - rewrite app_nil_r. split; reflexivity.
  - destruct (IH (fold_left (duplicate_step i) positions o)) as [Hi Hv].
    destruct (duplicate_positions i positions o) as [Hi0 Hv0].
    rewrite Hi, Hv, Hi0, Hv0, <- app_assoc. split; reflexivity.
Qed.

(** X16.  Whenever [duplicate] returns, the rectangular packer has
    succeeded with some positions for [copies_num - 1] cells of the model's
    size, and every object keeps its volumes and its instances, in order,
    followed for each of them by one copy per position, moved by that
    position and with rotation and scaling factor of the original: all
    objects are replicated with the same displacements, the object count does
    not change, and every cache is left invalid. *)
Theorem duplicate_replicates_every_instance
        (m m' : Model) (copies_num : N) (dist : Q) (bb : option BoundingBoxf) :
  duplicate m copies_num dist bb = Ok m' ->
  exists positions,
    _arrange (repeat (to_Pointf (bb_size (fst (Model_bounding_box m))))
                     (N.to_nat (size_t_sub copies_num 1))) dist bb []
    = Ok (true, positions)
    /\ map instances (objects m')
       = map (fun o => instances o
                       ++ flat_map (fun i => map (duplicate_at i) positions) (instances o))
             (objects m)
    /\ map volumes (objects m') = map volumes (objects m)
    /\ Forall (fun o => m_bounding_box_valid o = false) (objects m').
Proof.
  unfold duplicate, Model_bounding_box. intro Hrun.
  pose proof (merge_object_boxes_keeps_instances (objects m) BoundingBoxf3_default) as Hinst.
  pose proof (merge_object_boxes_keeps_volumes (objects m) BoundingBoxf3_default) as Hvols.
  destruct (merge_object_boxes (objects m) BoundingBoxf3_default) as [mbb objs].
  cbn [fst snd] in *. cbn [objects set_objects] in Hrun.
  destruct (_arrange (repeat (to_Pointf (bb_size mbb)) (N.to_nat (size_t_sub copies_num 1)))
                     dist bb []) as [[ok positions]| | | | |]; cbn [bind] in Hrun;
    try discriminate Hrun.
  destruct ok; cbn [negb] in Hrun; [|discriminate Hrun].
  injection Hrun as <-. exists positions. split; [reflexivity|].
  cbn [objects set_objects]. split; [|split].
  - rewrite map_map.
    rewrite <- (map_map instances
                  (fun l => l ++ flat_map (fun i => map (duplicate_at i) positions) l)
                  (objects m)).
    rewrite <- Hinst, map_map. apply map_ext. intro o.
    change (instances (invalidate_bounding_box ?x)) with (instances x).
    apply (proj1 (duplicate_snapshot (instances o) positions o)).
  - rewrite map_map, <- Hvols. apply map_ext. intro o.
    change (volumes (invalidate_bounding_box ?x)) with (volumes x).
    apply (proj2 (duplicate_snapshot (instances o) positions o)).
  - apply Forall_forall. intros o Hin. apply in_map_iff in Hin.
    destruct Hin as [o0 [<- _]]. reflexivity.
Qed.
End Duplicate.

Lemma duplicate_replicates_every_instance_witness :
  exists m',
    @duplicate libm_at_zero row_packer two_cubes_model 3 5 None = Ok m'
    /\ map (fun o => map offset (instances o)) (objects m')
       = [[mkPointf 0 0; mkPointf 40 0;
           mkPointf (0 + (50 + 5) * 0) (0 + 0); mkPointf (0 + (50 + 5) * 1) (0 + 0);
           mkPointf (40 + (50 + 5) * 0) (0 + 0); mkPointf (40 + (50 + 5) * 1) (0 + 0)]].
Proof.
  destruct (@duplicate libm_at_zero row_packer two_cubes_model 3 5 None) as [m'| | | | |] eqn:E;
    try (vm_compute in E; discriminate E).
  exists m'. split; [reflexivity|].
  destruct (@duplicate_replicates_every_instance libm_at_zero row_packer
              two_cubes_model m' 3 5 None E) as [positions [Hpos [Hinst _]]].
  assert (Hp : positions = [mkPointf ((50 + 5) * 0) 0; mkPointf ((50 + 5) * 1) 0]).
  { vm_compute in Hpos. injection Hpos as <-. reflexivity. }
  subst positions.
  rewrite <- (map_map instances (map offset)), Hinst. reflexivity.
Defined.

Section DuplicateObjects.
Context {libm : Libm} {consts : Libslic3r} {meshops : MeshOps} {geom : GeometryLib}
        {nest : Nest2D}.

Lemma append_copies (i : ModelInstance) (ks : list nat) (o : ModelObject) :
  instances (fold_left (fun o _ => add_instance_copy o i) ks o)
  = instances o
    ++ map (fun _ => mkInstance (rotation i) (scaling_factor i) (offset i) PVS_Inside) ks
  /\ volumes (fold_left (fun o _ => add_instance_copy o i) ks o) = volumes o.
Proof.
  revert o. induction ks as [|k rest IH]; intro o; simpl.
  - rewrite app_nil_r. split; reflexivity.
  - destruct (IH (add_instance_copy o i)) as [Hi Hv]. rewrite Hi, Hv. simpl.
    rewrite <- app_assoc. split; reflexivity.
Qed.

Lemma append_copies_of_all (snapshot : list ModelInstance) (ks : list nat) (o : ModelObject) :
  instances (fold_left (fun o i => fold_left (fun o _ => add_instance_copy o i) ks o)
                       snapshot o)
  = instances o
    ++ flat_map (fun i => map (fun _ => mkInstance (rotation i) (scaling_factor i) (offset i)
                                                   PVS_Inside) ks) snapshot
  /\ volumes (fold_left (fun o i => fold_left (fun o _ => add_instance_copy o i) ks o)
                        snapshot o) = volumes o.
Proof.
  revert o. induction snapshot as [|i rest IH]; intro o; simpl.
  - rewrite app_nil_r. split; reflexivity.
  - destruct (IH (fold_left (fun o _ => add_instance_copy o i) ks o)) as [Hi Hv].
    destruct (append_copies i ks o) as [Hi0 Hv0].
    rewrite Hi, Hv, Hi0, Hv0. simpl. rewrite <- app_assoc. split; reflexivity.
Qed.

Lemma length_flat_map_constant {A B : Type} (f : A -> list B) (l : list A) (k : nat) :
  (forall a, length (f a) = k) -> length (flat_map f l) = (length l * k)%nat.
Proof.
  intro Hk. induction l as [|a rest IH]; simpl; [reflexivity|].
  rewrite length_app, Hk, IH. reflexivity.
Qed.

(** X17.  Whenever [duplicate_objects] returns, every object has its volumes
    and [copies_num] times as many instances as before (the same number when
    [copies_num] is 0 or 1): the copies are appended first and the
    arrangement that follows neither adds nor removes an instance.  The
    success flag of the arrangement is not looked at. *)
Theorem duplicate_objects_multiplies_instances
        (m m' : Model) (copies_num : N) (dist : Q) (bb : option BoundingBoxf) :
  duplicate_objects m copies_num dist bb = Ok m' ->
  map (fun o => length (instances o)) (objects m')
  = map (fun o => (length (instances o) * Nat.max 1 (N.to_nat copies_num))%nat) (objects m)
  /\ map volumes (objects m') = map volumes (objects m).
Proof.
  unfold duplicate_objects. intro Hrun.
  match type of Hrun with
  | bind (arrange_objects ?appended _ _) _ = _ =>
      destruct (arrange_objects appended dist bb) as [[r arranged]| | | | |] eqn:Earr;
        cbn [bind] in Hrun; try discriminate Hrun;
        pose proof (arrange_objects_kept _ _ _ _ _ Earr) as Hkept
  end.
  injection Hrun as <-. cbn [snd objects set_objects] in *.
  rewrite map_map in Hkept. split.
  - assert (Hlen : map (fun o => length (instances o)) (objects arranged)
                   = map (fun k => length (snd k)) (map kept_by_packing (objects arranged))).
    { rewrite map_map. apply map_ext. intro o. unfold kept_by_packing. simpl.
      rewrite length_map. reflexivity. }
    rewrite Hlen, Hkept, map_map. apply map_ext. intro o.
    unfold kept_by_packing. cbn [snd]. rewrite length_map.
    rewrite (proj1 (append_copies_of_all (instances o) _ o)).
    rewrite length_app.
    rewrite (length_flat_map_constant _ _ (N.to_nat copies_num - 1)).
    + nia.
    + intro i. rewrite length_map, length_seq. reflexivity.
  - assert (Hvol : map volumes (objects arranged)
                   = map (fun k => snd (fst (fst k))) (map kept_by_packing (objects arranged)))
      by (rewrite map_map; reflexivity).
    rewrite Hvol, Hkept, map_map. apply map_ext. intro o.
    unfold kept_by_packing. cbn [fst snd].
    apply (proj2 (append_copies_of_all (instances o) _ o)).
Qed.
End DuplicateObjects.

Lemma duplicate_objects_multiplies_instances_witness :
  exists m',
    @duplicate_objects libm_at_zero libslic3r_h cube_meshops row_packer one_item_per_bin
                       two_cubes_model 3 5 None = Ok m'
    /\ map (fun o => length (instances o)) (objects m') = [6%nat].
Proof.
  destruct (@duplicate_objects libm_at_zero libslic3r_h cube_meshops row_packer
                               one_item_per_bin two_cubes_model 3 5 None)
    as [m'| | | | |] eqn:E; try (vm_compute in E; discriminate E).
  exists m'. split; [reflexivity|].
  rewrite (proj1 (@duplicate_objects_multiplies_instances
                    libm_at_zero libslic3r_h cube_meshops row_packer one_item_per_bin
                    two_cubes_model m' 3 5 None E)).
  reflexivity.
Defined.

(** ** Snug boxes: how they relate and what they bound *)

Section SnugBoxes.
Context {libm : Libm} {consts : Libslic3r}.

(** X18.  For an object with at least one instance [raw_bounding_box] is
    [instance_bounding_box] of instance 0 without translation: the two
    return the same box. *)
Theorem raw_bounding_box_is_first_instance_box (o : ModelObject) :
  instances o <> [] ->
  raw_bounding_box o = instance_bounding_box o 0 true.
Proof.
  intro Hsome. unfold raw_bounding_box, instance_bounding_box.
  destruct (instances o) as [|front rest]; [contradiction|].
  generalize BoundingBoxf3_default.
  induction (volumes o) as [|v vols IH]; intro bb; cbn [foldM]; [reflexivity|].
  destruct (modifier v); cbn [negb bind vec_front vec_at nth_error]; apply IH.
Qed.

Lemma points_bbox_bounds (pts : list Pointf3) (q : Pointf3) :
  In q pts -> contains_point (points_bbox pts) q = true.
Proof.
  intro Hin. destruct pts as [|p rest]; [destruct Hin|].
  unfold contains_point, points_bbox. cbn [bmin bmax x y z].
  assert (Hmin : forall f : Pointf3 -> Q, min_element (f p) (map f rest) <= f q).
  { intro f. destruct (min_element_least (map f rest) (f p)) as [Hp [Hall _]].
    destruct Hin as [<- | Hin]; [exact Hp|].
    rewrite Forall_forall in Hall. apply Hall. apply in_map. exact Hin. }
  assert (Hmax : forall f : Pointf3 -> Q, f q <= max_element (f p) (map f rest)).
  { intro f. destruct (max_element_greatest (map f rest) (f p)) as [Hp [Hall _]].
    destruct Hin as [<- | Hin]; [exact Hp|].
    rewrite Forall_forall in Hall. apply Hall. apply in_map. exact Hin. }
  repeat (apply andb_true_intro; split); apply Qle_bool_iff;
    first [apply Hmin | apply Hmax].
Qed.

Lemma points_bbox_snug (pts : list Pointf3) (f : Pointf3 -> Q) :
  pts <> [] ->
  (exists q, In q pts /\ f q = match pts with
                              | [] => 0
                              | p :: rest => min_element (f p) (map f rest)
                              end)
  /\ (exists q, In q pts /\ f q = match pts with
                                 | [] => 0
                                 | p :: rest => max_element (f p) (map f rest)
                                 end).
Proof.
  intro Hsome. destruct pts as [|p rest]; [contradiction|]. split.
  - destruct (min_element_least (map f rest) (f p)) as [_ [_ Hin]].
    change (f p :: map f rest) with (map f (p :: rest)) in Hin.
    apply in_map_iff in Hin. destruct Hin as [q [E Hq]]. exists q. split; assumption.
  - destruct (max_element_greatest (map f rest) (f p)) as [_ [_ Hin]].
    change (f p :: map f rest) with (map f (p :: rest)) in Hin.
    apply in_map_iff in Hin. destruct Hin as [q [E Hq]]. exists q. split; assumption.
Qed.

(** All the vertices [tight_bounding_box] merges, in loop order. *)
Lemma tight_bounding_box_points (o : ModelObject) (include_modifiers : bool) :
  tight_bounding_box o include_modifiers
  = points_bbox
      (flat_map
         (fun vol =>
            if include_modifiers || negb (modifier vol) then
              flat_map (fun inst =>
                          map (placed_vertex inst (cos (rotation inst)) (sin (rotation inst)))
                              (mesh_vertices (mesh vol)))
                       (instances o)
            else [])
         (volumes o)).
Proof.
  unfold tight_bounding_box. rewrite <- fold_merge_points.
  generalize BoundingBoxf3_default.
  induction (volumes o) as [|vol vols IH]; intro bb; cbn [fold_left flat_map]; [reflexivity|].
  rewrite fold_left_app, IH. f_equal.
  destruct (include_modifiers || negb (modifier vol)); [|reflexivity].
  clear IH. revert bb.
  induction (instances o) as [|inst insts IHi]; intro bb; cbn [fold_left flat_map];
    [reflexivity|].
  rewrite fold_left_app, IHi. f_equal.
  unfold merge_placed_facets, mesh_vertices.
  rewrite (fold_facets_flat (fun b v => merge_point b (placed_vertex inst _ _ v))).
  apply (fold_left_mapped merge_point).
Qed.

(** The box in terms of the vertex the loop itself writes. *)
Lemma tight_bounding_box_of_placed
      (o : ModelObject) (include_modifiers : bool) (vol : ModelVolume)
      (inst : ModelInstance) (v : Pointf3) :
  In vol (volumes o) ->
  include_modifiers || negb (modifier vol) = true ->
  In inst (instances o) ->
  In v (mesh_vertices (mesh vol)) ->
  contains_point (tight_bounding_box o include_modifiers)
                 (placed_vertex inst (cos (rotation inst)) (sin (rotation inst)) v) = true
  /\ defined (tight_bounding_box o include_modifiers) = true
  /\ forall f : Pointf3 -> Q,
      In f [x; y; z] ->
      exists vol1 inst1 v1 vol2 inst2 v2,
        (In vol1 (volumes o) /\ include_modifiers || negb (modifier vol1) = true
         /\ In inst1 (instances o) /\ In v1 (mesh_vertices (mesh vol1))
         /\ f (placed_vertex inst1 (cos (rotation inst1)) (sin (rotation inst1)) v1)
            = f (bmin (tight_bounding_box o include_modifiers)))
        /\ (In vol2 (volumes o) /\ include_modifiers || negb (modifier vol2) = true
            /\ In inst2 (instances o) /\ In v2 (mesh_vertices (mesh vol2))
            /\ f (placed_vertex inst2 (cos (rotation inst2)) (sin (rotation inst2)) v2)
               = f (bmax (tight_bounding_box o include_modifiers))).
Proof.
  intros Hvol Hcount Hinst Hv. rewrite tight_bounding_box_points.
  set (pts := flat_map _ (volumes o)).
  assert (Hmember : forall q, In q pts <->
            exists vol0 inst0 v0,
              In vol0 (volumes o) /\ include_modifiers || negb (modifier vol0) = true
              /\ In inst0 (instances o) /\ In v0 (mesh_vertices (mesh vol0))
              /\ q = placed_vertex inst0 (cos (rotation inst0)) (sin (rotation inst0)) v0).
  { intro q. unfold pts. rewrite in_flat_map. split.
    - intros [vol0 [Hvol0 Hq]].
      destruct (include_modifiers || negb (modifier vol0)) eqn:Ec; [|destruct Hq].
      apply in_flat_map in Hq. destruct Hq as [inst0 [Hinst0 Hq]].
      apply in_map_iff in Hq. destruct Hq as [v0 [E Hv0]].
      exists vol0, inst0, v0. repeat split; try assumption. symmetry. exact E.
    - intros [vol0 [inst0 [v0 [Hvol0 [Hc [Hinst0 [Hv0 E]]]]]]].
      exists vol0. split; [exact Hvol0|]. rewrite Hc.
      apply in_flat_map. exists inst0. split; [exact Hinst0|].
      apply in_map_iff. exists v0. split; [symmetry; exact E | exact Hv0]. }
  assert (Hin : In (placed_vertex inst (cos (rotation inst)) (sin (rotation inst)) v) pts).
  { apply Hmember. exists vol, inst, v. repeat split; assumption. }
  split; [apply points_bbox_bounds; exact Hin|].
  assert (Hsome : pts <> []) by (intro E; rewrite E in Hin; destruct Hin).
  split; [destruct pts; [contradiction | reflexivity]|].
  intros f Hf.
  destruct (points_bbox_snug pts f Hsome) as [[q1 [Hq1 E1]] [q2 [Hq2 E2]]].
  apply Hmember in Hq1. destruct Hq1 as [vol1 [inst1 [v1 [Ha [Hk [Hb [Hc Hd]]]]]]].
  apply Hmember in Hq2. destruct Hq2 as [vol2 [inst2 [v2 [Ha2 [Hk2 [Hb2 [Hc2 Hd2]]]]]]].
  exists vol1, inst1, v1, vol2, inst2, v2.
  destruct pts as [|p rest]; [contradiction|].
  assert (Hmin : f (bmin (points_bbox (p :: rest))) = min_element (f p) (map f rest)
                 /\ f (bmax (points_bbox (p :: rest))) = max_element (f p) (map f rest)).
  { destruct Hf as [<- | [<- | [<- | []]]]; split; reflexivity. }
  destruct Hmin as [Hlo Hhi]. rewrite Hlo, Hhi, <- Hd, <- Hd2, E1, E2.
  repeat split; assumption.
Qed.

Lemma placed_vertex_is_spec_vertex (inst : ModelInstance) (v : Pointf3) :
  Pointf3_eq (placed_vertex inst (cos (rotation inst)) (sin (rotation inst)) v)
             (spec_vertex (rotation inst) (scaling_factor inst) (offset inst) false v).
Proof.
  unfold Pointf3_eq, placed_vertex, spec_vertex. cbn [x y z]. repeat split; ring.
Qed.

Lemma contains_point_compat (bb : BoundingBoxf3) (p q : Pointf3) :
  Pointf3_eq p q -> contains_point bb p = contains_point bb q.
Proof.
  intros [Hx [Hy Hz]]. unfold contains_point.
  rewrite (Qle_bool_compat _ _ (x p) (x q) (Qeq_refl _) Hx).
  rewrite (Qle_bool_compat (x p) (x q) _ _ Hx (Qeq_refl _)).
  rewrite (Qle_bool_compat _ _ (y p) (y q) (Qeq_refl _) Hy).
  rewrite (Qle_bool_compat (y p) (y q) _ _ Hy (Qeq_refl _)).
  rewrite (Qle_bool_compat _ _ (z p) (z q) (Qeq_refl _) Hz).
  rewrite (Qle_bool_compat (z p) (z q) _ _ Hz (Qeq_refl _)).
  reflexivity.
Qed.

(** X19.  [tight_bounding_box] is a bounding box and it is snug.  For every
    vertex [v] of a counted volume (a solid one, or any when modifiers are
    included) and every instance with rotation theta, scaling factor s and
    offset t, the box contains the point [R_z(theta) (s v) + t]; it is
    defined as soon as there is one such point, and each of its six faces
    passes through one such point of a counted volume. *)
Theorem tight_bounding_box_bounds_and_touches
        (o : ModelObject) (include_modifiers : bool) (vol : ModelVolume)
        (inst : ModelInstance) (v : Pointf3) :
  In vol (volumes o) ->
  include_modifiers || negb (modifier vol) = true ->
  In inst (instances o) ->
  In v (mesh_vertices (mesh vol)) ->
  contains_point (tight_bounding_box o include_modifiers)
                 (spec_vertex (rotation inst) (scaling_factor inst) (offset inst) false v)
  = true
  /\ defined (tight_bounding_box o include_modifiers) = true
  /\ forall f : Pointf3 -> Q,
      In f [x; y; z] ->
      exists vol1 inst1 v1 vol2 inst2 v2,
        (In vol1 (volumes o) /\ include_modifiers || negb (modifier vol1) = true
         /\ In inst1 (instances o) /\ In v1 (mesh_vertices (mesh vol1))
         /\ f (spec_vertex (rotation inst1) (scaling_factor inst1) (offset inst1) false v1)
            == f (bmin (tight_bounding_box o include_modifiers)))
        /\ (In vol2 (volumes o) /\ include_modifiers || negb (modifier vol2) = true
            /\ In inst2 (instances o) /\ In v2 (mesh_vertices (mesh vol2))
            /\ f (spec_vertex (rotation inst2) (scaling_factor inst2) (offset inst2) false v2)
               == f (bmax (tight_bounding_box o include_modifiers))).
Proof.
  intros Hvol Hcount Hinst Hv.
  destruct (tight_bounding_box_of_placed o include_modifiers vol inst v Hvol Hcount Hinst Hv)
    as [Hin [Hdef Hfaces]].
  split; [|split; [exact Hdef|]].
  - rewrite <- (contains_point_compat _ _ _ (placed_vertex_is_spec_vertex inst v)).
    exact Hin.
  - intros f Hf.
    destruct (Hfaces f Hf)
      as [vol1 [inst1 [v1 [vol2 [inst2 [v2 [[A1 [K1 [B1 [C1 D1]]]] [A2 [K2 [B2 [C2 D2]]]]]]]]]]].
    exists vol1, inst1, v1, vol2, inst2, v2.
    assert (Hf_eq : forall p q, Pointf3_eq p q -> f p == f q).
    { intros p q [Hx [Hy Hz]]. destruct Hf as [<- | [<- | [<- | []]]]; assumption. }
    split; (split; [assumption|]; split; [assumption|]; split; [assumption|];
            split; [assumption|]).
    + rewrite <- D1. symmetry. apply Hf_eq. apply placed_vertex_is_spec_vertex.
    + rewrite <- D2. symmetry. apply Hf_eq. apply placed_vertex_is_spec_vertex.
Qed.
End SnugBoxes.

Lemma raw_bounding_box_is_first_instance_box_witness :
  instances scaled_cube_object <> []
  /\ @raw_bounding_box libm_at_zero libslic3r_h scaled_cube_object
     = @instance_bounding_box libm_at_zero libslic3r_h scaled_cube_object 0 true.
Proof.
  assert (H : instances scaled_cube_object <> []) by discriminate.
  split; [exact H|].
  exact (@raw_bounding_box_is_first_instance_box libm_at_zero libslic3r_h scaled_cube_object H).
Defined.

Lemma tight_bounding_box_bounds_and_touches_witness :
  contains_point (@tight_bounding_box libm_at_zero scaled_cube_object false)
                 (mkPointf3 (1 * (2 * 10) - 0 * (2 * 10) + 0) (0 * (2 * 10) + 1 * (2 * 10) + 0)
                            (2 * 10)) = true.
Proof.
  refine (proj1 (@tight_bounding_box_bounds_and_touches libm_at_zero scaled_cube_object false
                   cube_volume (mkInstance 0 2 (mkPointf 0 0) PVS_Inside) (mkPointf3 10 10 10)
                   _ _ _ _)).
  - left. reflexivity.
  - reflexivity.
  - left. reflexivity.
  - vm_compute. do 8 right. left. reflexivity.
Defined.

(** ** Centring the instances of a model *)

Lemma std_min_shift (a a' b b' d : Q) :
  a' == a + d -> b' == b + d -> std_min a' b' == std_min a b + d.
Proof.
  intros Ea Eb.
  destruct (std_min_cases a b) as [[H ->] | [H ->]];
    destruct (std_min_cases a' b') as [[H' ->] | [H' ->]]; lra.
Qed.

Lemma std_max_shift (a a' b b' d : Q) :
  a' == a + d -> b' == b + d -> std_max a' b' == std_max a b + d.
Proof.
  intros Ea Eb.
  destruct (std_max_cases a b) as [[H ->] | [H ->]];
    destruct (std_max_cases a' b') as [[H' ->] | [H' ->]]; lra.
Qed.

Lemma merge_box_moved (sx sy sz : Q) (a a' b b' : BoundingBoxf3) :
  moved_box sx sy sz a a' -> moved_box sx sy sz b b' ->
  moved_box sx sy sz (merge_box a b) (merge_box a' b').
Proof.
  intros [Da Ha] [Db Hb]. unfold merge_box. rewrite <- Da, <- Db.
  destruct (defined b) eqn:Eb; [|split; assumption].
  destruct (Hb eq_refl) as [[Hb1 [Hb2 Hb3]] [Hb4 [Hb5 Hb6]]].
  destruct (defined a) eqn:Ea.
  - destruct (Ha eq_refl) as [[Ha1 [Ha2 Ha3]] [Ha4 [Ha5 Ha6]]].
    split; [reflexivity|]. intros _. cbn [bmin bmax x y z].
    repeat split; first [apply std_min_shift | apply std_max_shift]; assumption.
  - split; [reflexivity|]. intros _. cbn [bmin bmax]. repeat split; assumption.
Qed.

Section CentringProperties.
Context {libm : Libm} {consts : Libslic3r}.

Lemma transform_mesh_bounding_box_moves (inst : ModelInstance) (m : TriangleMesh) (sx sy : Q) :
  empty (rotated_bounding_box inst m) = false
  \/ defined (rotated_bounding_box inst m) = false ->
  placed_on_floats sx sy inst ->
  moved_box sx sy 0
    (transform_mesh_bounding_box inst m false)
    (transform_mesh_bounding_box
       (set_offset inst (Pointf_translate (offset inst) sx sy)) m false).
Proof.
  intros Hflat [Hx [Hy [Hx' Hy']]]. unfold representable in *.
  unfold transform_mesh_bounding_box.
  assert (Erot : rotated_bounding_box (set_offset inst (Pointf_translate (offset inst) sx sy)) m
                 = rotated_bounding_box inst m) by reflexivity.
  rewrite Erot. cbn [scaling_factor set_offset offset Pointf_translate px py negb].
  destruct (empty (rotated_bounding_box inst m)) eqn:Eempty; cbn [negb].
  - destruct Hflat as [H | H]; [discriminate H|].
    split; [reflexivity|]. intro Hdef. congruence.
  - destruct (Qltb EPSILON (Qabs (scaling_factor inst - 1)));
      (split; [reflexivity|]); intros _; cbn [bmin bmax x y z px py];
      rewrite Hx', Hy', Hx, Hy; repeat split; ring.
Qed.

Lemma volume_boxes_moved (inst : ModelInstance) (sx sy : Q) (idx : nat)
      (vec vec' : list ModelInstance) (vols : list ModelVolume) :
  nth_error vec idx = Some inst ->
  nth_error vec' idx = Some (set_offset inst (Pointf_translate (offset inst) sx sy)) ->
  placed_on_floats sx sy inst ->
  (forall v, In v vols -> modifier v = false ->
             empty (rotated_bounding_box inst (mesh v)) = false
             \/ defined (rotated_bounding_box inst (mesh v)) = false) ->
  forall a a',
    moved_box sx sy 0 a a' ->
    exists b b',
      foldM (fun bb v =>
               if negb (modifier v) then
                 inst <- vec_at vec idx ;;
                 Ok (merge_box bb (transform_mesh_bounding_box inst (mesh v) false))
               else Ok bb) vols a = Ok b
      /\ foldM (fun bb v =>
                  if negb (modifier v) then
                    inst <- vec_at vec' idx ;;
                    Ok (merge_box bb (transform_mesh_bounding_box inst (mesh v) false))
                  else Ok bb) vols a' = Ok b'
      /\ moved_box sx sy 0 b b'.
Proof.
  intros Hinst Hinst' Hfloat. unfold vec_at. rewrite Hinst, Hinst'. cbn [bind].
  induction vols as [|v rest IH]; intros Hflat a a' Hmoved; cbn [foldM].
  - exists a, a'. split; [reflexivity | split; [reflexivity | exact Hmoved]].
  - destruct (modifier v) eqn:Emod; cbn [negb bind].
    + apply IH; [|exact Hmoved]. intros w Hw. apply Hflat. right. exact Hw.
    + apply IH; [intros w Hw; apply Hflat; right; exact Hw|].
      apply merge_box_moved; [exact Hmoved|].
      apply transform_mesh_bounding_box_moves; [|exact Hfloat].
      apply Hflat; [left; reflexivity | exact Emod].
Qed.

Lemma instance_boxes_moved (o : ModelObject) (sx sy : Q) (idxs : list nat) :
  no_flat_volume o ->
  (forall i, In i (instances o) -> placed_on_floats sx sy i) ->
  Forall (fun i => (i < length (instances o))%nat) idxs ->
  forall a a',
    moved_box sx sy 0 a a' ->
    exists b b',
      foldM (fun bb i => b <- instance_bounding_box o i false ;; Ok (merge_box bb b)) idxs a
      = Ok b
      /\ foldM (fun bb i =>
                  b <- instance_bounding_box
                         (invalidate_bounding_box
                            (set_instances o
                               (map (fun i => set_offset i (Pointf_translate (offset i) sx sy))
                                    (instances o)))) i false ;;
                  Ok (merge_box bb b)) idxs a' = Ok b'
      /\ moved_box sx sy 0 b b'.
Proof.
  intros Hflat Hfloat Hidxs.
  induction Hidxs as [|i rest Hi Hrest IH]; intros a a' Hmoved; cbn [foldM].
  - exists a, a'. split; [reflexivity | split; [reflexivity | exact Hmoved]].
  - destruct (nth_error (instances o) i) as [inst|] eqn:Einst;
      [|apply nth_error_None in Einst; lia].
    assert (Hin : In inst (instances o)) by (apply nth_error_In with (n := i); exact Einst).
    destruct (volume_boxes_moved inst sx sy i (instances o)
                (map (fun i => set_offset i (Pointf_translate (offset i) sx sy)) (instances o))
                (volumes o) Einst)
      with (a := BoundingBoxf3_default) (a' := BoundingBoxf3_default)
      as [b [b' [Hb [Hb' Hbb]]]].
    + rewrite nth_error_map, Einst. reflexivity.
    + apply Hfloat. exact Hin.
    + intros v Hv Hmod. apply Hflat; [exact Hv | exact Hmod | exact Hin].
    + split; [reflexivity|]. intro H. discriminate H.
    + unfold instance_bounding_box at 1 3.
      cbn [volumes instances invalidate_bounding_box set_instances set_cache].
      rewrite Hb, Hb'. cbn [bind]. apply IH. apply merge_box_moved; assumption.
Qed.

Lemma all_instances_moved (sx sy : Q) (objs : list ModelObject) :
  (forall o, In o objs -> no_flat_volume o) ->
  (forall o i, In o objs -> In i (instances o) -> placed_on_floats sx sy i) ->
  forall a a',
    moved_box sx sy 0 a a' ->
    exists b b',
      foldM (fun bb o =>
               foldM (fun bb i => b <- instance_bounding_box o i false ;; Ok (merge_box bb b))
                     (seq 0 (length (instances o))) bb) objs a = Ok b
      /\ foldM (fun bb o =>
                  foldM (fun bb i => b <- instance_bounding_box o i false ;; Ok (merge_box bb b))
                        (seq 0 (length (instances o))) bb)
               (map (fun o =>
                       invalidate_bounding_box
                         (set_instances o
                            (map (fun i => set_offset i (Pointf_translate (offset i) sx sy))
                                 (instances o)))) objs) a' = Ok b'
      /\ moved_box sx sy 0 b b'.
Proof.
  induction objs as [|o rest IH]; intros Hflat Hfloat a a' Hmoved; cbn [foldM map].
  - exists a, a'. split; [reflexivity | split; [reflexivity | exact Hmoved]].
  - destruct (instance_boxes_moved o sx sy (seq 0 (length (instances o))))
      with (a := a) (a' := a') as [b [b' [Hb [Hb' Hbb]]]].
    + apply Hflat. left. reflexivity.
    + intros i Hi. apply (Hfloat o i); [left; reflexivity | exact Hi].
    + apply Forall_forall. intros i Hi. apply in_seq in Hi. lia.
    + exact Hmoved.
    + cbn [instances invalidate_bounding_box set_instances set_cache].
      rewrite length_map, Hb, Hb'. cbn [bind].
      apply IH; [| |exact Hbb].
      * intros w Hw. apply Hflat. right. exact Hw.
      * intros w i Hw. apply Hfloat. right. exact Hw.
Qed.

Lemma all_instances_bounding_box_returns (m : Model) :
  exists bb, all_instances_bounding_box m = Ok bb.
Proof.
  unfold all_instances_bounding_box. generalize BoundingBoxf3_default.
  induction (objects m) as [|o rest IH]; intro a; cbn [foldM]; [eexists; reflexivity|].
  assert (Hobj : forall idxs a0,
             Forall (fun i => (i < length (instances o))%nat) idxs ->
             exists b, foldM (fun bb i => b <- instance_bounding_box o i false ;;
                                          Ok (merge_box bb b)) idxs a0 = Ok b).
  { induction idxs as [|i t IHt]; intros a0 Hall; cbn [foldM]; [eexists; reflexivity|].
    inversion Hall as [|? ? Hi Ht]; subst.
    destruct (instance_bounding_box_in_range o i false Hi) as [b Hb].
    rewrite Hb. cbn [bind]. apply IHt. exact Ht. }
  destruct (Hobj (seq 0 (length (instances o))) a) as [b Hb].
  { apply Forall_forall. intros i Hi. apply in_seq in Hi. lia. }
  rewrite Hb. cbn [bind]. apply IH.
Qed.

(** X20.  [center_instances_around_point] always returns, whatever the
    model.  It moves the offset of every instance of every object by one
    and the same vector, the one from the centre of the merged box of all
    instance boxes to [point]; rotations, scaling factors, volumes and
    materials are the ones of before, and every cached box of the new model
    is marked invalid. *)
Theorem center_instances_around_point_shifts_every_offset (m : Model) (point : Pointf) :
  exists bb m' sx sy,
    all_instances_bounding_box m = Ok bb
    /\ center_instances_around_point m point = Ok m'
    /\ sx == px point - x (bb_center bb)
    /\ sy == py point - y (bb_center bb)
    /\ map (fun o => map offset (instances o)) (objects m')
       = map (fun o => map (fun i => Pointf_translate (offset i) sx sy) (instances o))
             (objects m)
    /\ map (fun o => map (fun i => (rotation i, scaling_factor i, print_volume_state i))
                         (instances o)) (objects m')
       = map (fun o => map (fun i => (rotation i, scaling_factor i, print_volume_state i))
                           (instances o)) (objects m)
    /\ map volumes (objects m') = map volumes (objects m)
    /\ materials m' = materials m
    /\ Forall (fun o => m_bounding_box_valid o = false) (objects m').
Proof.
  destruct (all_instances_bounding_box_returns m) as [bb Hbb].
  unfold center_instances_around_point. rewrite Hbb. cbn [bind].
  exists bb. eexists.
  exists (- x (bmin bb) + px point - x (bb_size bb) / 2).
  exists (- y (bmin bb) + py point - y (bb_size bb) / 2).
  split; [reflexivity|]. split; [reflexivity|].
  cbn [objects materials set_objects].
  split; [unfold bb_center, bb_size; cbn [x y z]; field|].
  split; [unfold bb_center, bb_size; cbn [x y z]; field|].
  split; [|split; [|split; [|split; [reflexivity|]]]].
  - rewrite map_map. apply map_ext. intro o.
    cbn [instances invalidate_bounding_box set_instances set_cache].
    rewrite map_map. apply map_ext. intro i. reflexivity.
  - rewrite map_map. apply map_ext. intro o.
    cbn [instances invalidate_bounding_box set_instances set_cache].
    rewrite map_map. apply map_ext. intro i. reflexivity.
  - rewrite map_map. apply map_ext. intro o. reflexivity.
  - apply Forall_forall. intros o Ho. apply in_map_iff in Ho.
    destruct Ho as [o0 [<- _]]. reflexivity.
Qed.

(** X26.  [center_instances_around_point] centres: when no solid volume is
    flat under an instance and the offsets of all instances are
    single-precision numbers before and after the move, the merged box of
    all instance boxes of the new model has its centre at [point] in x and
    y, the size it had and the same floor. *)
Theorem center_instances_around_point_centres (m : Model) (point : Pointf)
        (bb : BoundingBoxf3) :
  all_instances_bounding_box m = Ok bb ->
  defined bb = true ->
  (forall o, In o (objects m) -> no_flat_volume o) ->
  (forall o i, In o (objects m) -> In i (instances o) ->
               placed_on_floats (px point - x (bmin bb) - x (bb_size bb) / 2)
                                (py point - y (bmin bb) - y (bb_size bb) / 2) i) ->
  exists m' bb',
    center_instances_around_point m point = Ok m'
    /\ all_instances_bounding_box m' = Ok bb'
    /\ defined bb' = true
    /\ x (bb_center bb') == px point
    /\ y (bb_center bb') == py point
    /\ Pointf3_eq (bb_size bb') (bb_size bb)
    /\ z (bmin bb') == z (bmin bb).
Proof.
  intros Hbb Hd Hflat Hfloat.
  unfold center_instances_around_point. rewrite Hbb. cbn [bind].
  set (sx := - x (bmin bb) + px point - x (bb_size bb) / 2).
  set (sy := - y (bmin bb) + py point - y (bb_size bb) / 2).
  assert (Hfloat' : forall o i, In o (objects m) -> In i (instances o) ->
                                placed_on_floats sx sy i).
  { intros o i Ho Hi. destruct (Hfloat o i Ho Hi) as [H1 [H2 [H3 H4]]].
    unfold placed_on_floats, representable in *.
    split; [exact H1|]. split; [exact H2|]. split.
    - rewrite (to_float_compat (px (offset i) + sx)
                 (px (offset i) + (px point - x (bmin bb) - x (bb_size bb) / 2)))
        by (unfold sx; ring).
      rewrite H3. unfold sx. ring.
    - rewrite (to_float_compat (py (offset i) + sy)
                 (py (offset i) + (py point - y (bmin bb) - y (bb_size bb) / 2)))
        by (unfold sy; ring).
      rewrite H4. unfold sy. ring. }
  assert (Hstart : moved_box sx sy 0 BoundingBoxf3_default BoundingBoxf3_default).
  { split; [reflexivity|]. intro H. discriminate H. }
  destruct (all_instances_moved sx sy (objects m) Hflat Hfloat' _ _ Hstart)
    as [bb0 [bb' [Hbb0 [Hbb' [Hdef Hmoved]]]]].
  unfold all_instances_bounding_box in Hbb. rewrite Hbb in Hbb0. injection Hbb0 as <-.
  eexists. exists bb'. split; [reflexivity|].
  unfold all_instances_bounding_box at 1. cbn [objects set_objects].
  split; [exact Hbb'|]. split; [congruence|].
  destruct (Hmoved Hd) as [[H1 [H2 H3]] [H4 [H5 H6]]].
  unfold bb_center, bb_size, Pointf3_eq. cbn [x y z].
  subst sx sy. unfold bb_size in *. cbn [x y z] in *.
  repeat split; try lra.
  - rewrite H1, H4. field.
  - rewrite H2, H5. field.
Qed.
End CentringProperties.

Lemma center_instances_around_point_centres_witness :
  exists m' bb',
    @center_instances_around_point libm_at_zero libslic3r_h two_cubes_model
                                   (mkPointf 100 100) = Ok m'
    /\ @all_instances_bounding_box libm_at_zero libslic3r_h m' = Ok bb'
    /\ x (bb_center bb') == 100 /\ y (bb_center bb') == 100.
Proof.
  assert (Hbb : @all_instances_bounding_box libm_at_zero libslic3r_h two_cubes_model
                = Ok (mkBB3 (mkPointf3 0 0 0) (mkPointf3 50 10 10) true))
    by (vm_compute; reflexivity).
  assert (Hflat : forall o, In o (objects two_cubes_model) -> @no_flat_volume libm_at_zero o).
  { intros o [<- | []] v inst [<- | []] _ [<- | [<- | []]]; left; vm_compute; reflexivity. }
  destruct (@center_instances_around_point_centres libm_at_zero libslic3r_h two_cubes_model
              (mkPointf 100 100) _ Hbb eq_refl Hflat)
    as [m' [bb' [Hm [Hbb' [_ [Hx [Hy _]]]]]]].
  - intros o i [<- | []] [<- | [<- | []]]; vm_compute; repeat split.
  - exists m', bb'. repeat split; assumption.
Defined.

(** ** Centring an object around the origin *)







Section CentringObjects.
Context {libm : Libm} {consts : Libslic3r}.

Lemma translate_instances (o : ModelObject) (dx dy dz : Q) :
  instances (translate o dx dy dz) = instances o.
Proof.
  unfold translate. destruct (m_bounding_box_valid (map_meshes _ o)); reflexivity.
Qed.

Lemma translate_volumes (o : ModelObject) (dx dy dz : Q) :
  volumes (translate o dx dy dz)
  = map (fun v => set_mesh v (mesh_translate (to_float dx) (to_float dy) (to_float dz)
                                             (mesh v)))
        (volumes o).
Proof.
  unfold translate. destruct (m_bounding_box_valid (map_meshes _ o)); reflexivity.
Qed.




End CentringObjects.


(** ** The shape map of [projectModelFromTop] *)

Section ShapeMap.
Context {consts : Libslic3r} {meshops : MeshOps}.

Lemma project_instance_entries (rmesh : TriangleMesh) (oi : nat) (insts : list ModelInstance) :
  forall (ret ret' : ShapeData2D) (ii ii' : nat),
    foldM (project_instance rmesh oi) insts (ret, ii) = Ok (ret', ii') ->
    exists added,
      ret' = ret ++ added
      /\ NoDup (map fst added)
      /\ Forall (fun e : InstancePtr * Item =>
                   fst (fst e) = oi /\ (ii <= snd (fst e))%nat
                   /\ exists inst,
                       nth_error insts (snd (fst e) - ii) = Some inst
                       /\ item_rotation (snd e) = rotation inst
                       /\ item_translation (snd e)
                          = (to_Coord (px (offset inst) / SCALING_FACTOR),
                             to_Coord (py (offset inst) / SCALING_FACTOR))
                       /\ (3 < vertexCount (snd e))%nat) added.
Proof.
  induction insts as [|objinst rest IH]; intros ret ret' ii ii' Hrun; cbn [foldM] in Hrun.
  - injection Hrun as <- _. exists []. rewrite app_nil_r.
    split; [reflexivity|]. split; constructor.
  - unfold project_instance at 1 in Hrun.
    destruct (vec_front (make_clockwise (convex_hull (mesh_scale (scaling_factor objinst) rmesh))))
      as [first_point| | | | |]; cbn [bind] in Hrun; try discriminate Hrun.
    match type of Hrun with
    | context [Nat.ltb 3 (vertexCount ?it)] =>
        destruct (Nat.ltb 3 (vertexCount it)) eqn:Ecount
    end; cbn [bind] in Hrun; apply IH in Hrun; destruct Hrun as [added [-> [Hnodup Hall]]].
    + eexists (_ :: added). split; [rewrite <- app_assoc; reflexivity|]. split.
      * cbn [map fst]. constructor; [|exact Hnodup].
        intro Hin. apply in_map_iff in Hin. destruct Hin as [e [Ekey He]].
        rewrite Forall_forall in Hall. destruct (Hall e He) as [_ [Hle _]].
        rewrite Ekey in Hle. cbn [snd] in Hle. lia.
      * constructor.
        -- cbn [fst snd]. split; [reflexivity|]. split; [lia|].
           exists objinst. rewrite Nat.sub_diag. split; [reflexivity|].
           split; [reflexivity|]. split; [reflexivity|].
           apply Nat.ltb_lt in Ecount. exact Ecount.
        -- eapply Forall_impl; [|exact Hall]. cbv beta.
           intros e [Hoi [Hle [inst [Hinst Hprops]]]].
           split; [exact Hoi|]. split; [lia|]. exists inst. split; [|exact Hprops].
           replace (snd (fst e) - ii)%nat with (S (snd (fst e) - S ii)) by lia. exact Hinst.
    + exists added. split; [reflexivity|]. split; [exact Hnodup|].
      eapply Forall_impl; [|exact Hall]. cbv beta.
      intros e [Hoi [Hle [inst [Hinst Hprops]]]].
      split; [exact Hoi|]. split; [lia|]. exists inst. split; [|exact Hprops].
      replace (snd (fst e) - ii)%nat with (S (snd (fst e) - S ii)) by lia. exact Hinst.
Qed.

Lemma project_objects_entries (objs : list ModelObject) :
  forall (ret ret' : ShapeData2D) (oi oi' : nat),
    foldM (fun (acc : ShapeData2D * nat) objptr =>
             let (ret, oi) := acc in
             let rmesh := raw_mesh objptr in
             '(ret, _) <- foldM (project_instance rmesh oi) (instances objptr) (ret, O) ;;
             Ok (ret, S oi))
          objs (ret, oi) = Ok (ret', oi') ->
    exists added,
      ret' = ret ++ added
      /\ NoDup (map fst added)
      /\ Forall (fun e : InstancePtr * Item =>
                   (oi <= fst (fst e))%nat
                   /\ exists o inst,
                       nth_error objs (fst (fst e) - oi) = Some o
                       /\ nth_error (instances o) (snd (fst e)) = Some inst
                       /\ item_rotation (snd e) = rotation inst
                       /\ item_translation (snd e)
                          = (to_Coord (px (offset inst) / SCALING_FACTOR),
                             to_Coord (py (offset inst) / SCALING_FACTOR))
                       /\ (3 < vertexCount (snd e))%nat) added.
Proof.
  induction objs as [|o rest IH]; intros ret ret' oi oi' Hrun; cbn [foldM] in Hrun.
  - injection Hrun as <- _. exists []. rewrite app_nil_r.
    split; [reflexivity|]. split; constructor.
  - cbv zeta in Hrun.
    destruct (foldM (project_instance (raw_mesh o) oi) (instances o) (ret, O))
      as [[ret1 ii1]| | | | |] eqn:Einner; cbn [bind] in Hrun; try discriminate Hrun.
    apply project_instance_entries in Einner. destruct Einner as [here [-> [Hnd1 Hall1]]].
    apply IH in Hrun. destruct Hrun as [later [-> [Hnd2 Hall2]]].
    rewrite Forall_forall in Hall1, Hall2.
    exists (here ++ later). split; [rewrite app_assoc; reflexivity|]. split.
    + rewrite map_app. apply NoDup_app; [exact Hnd1 | exact Hnd2 |].
      intros p Hin1 Hin2. apply in_map_iff in Hin1, Hin2.
      destruct Hin1 as [e1 [E1 He1]]. destruct Hin2 as [e2 [E2 He2]].
      destruct (Hall1 e1 He1) as [Hoi _]. destruct (Hall2 e2 He2) as [Hle _].
      rewrite E1 in Hoi. rewrite E2 in Hle. lia.
    + apply Forall_forall. intros e He. apply in_app_iff in He. destruct He as [He | He].
      * destruct (Hall1 e He) as [Hoi [_ [inst [Hinst Hprops]]]].
        split; [lia|]. exists o, inst. rewrite Hoi, Nat.sub_diag.
        split; [reflexivity|]. rewrite Nat.sub_0_r in Hinst. split; assumption.
      * destruct (Hall2 e He) as [Hle [o' [inst [Ho' Hprops]]]].
        split; [lia|]. exists o', inst. split; [|exact Hprops].
        replace (fst (fst e) - oi)%nat with (S (fst (fst e) - S oi)) by lia. exact Ho'.
Qed.

(** X23.  The shape map [projectModelFromTop] returns is keyed by distinct
    instances of the model: no instance occurs twice, every key is an
    instance of the model, and its item carries that instance's rotation,
    its offset divided by [SCALING_FACTOR] and truncated, and a contour of
    more than three vertices. *)
Theorem projectModelFromTop_keys_are_distinct_instances (m : Model) (shapemap : ShapeData2D) :
  projectModelFromTop m = Ok shapemap ->
  NoDup (map fst shapemap)
  /\ forall p item,
      In (p, item) shapemap ->
      exists inst,
        instance_at m p = Some inst
        /\ item_rotation item = rotation inst
        /\ item_translation item
           = (to_Coord (px (offset inst) / SCALING_FACTOR),
              to_Coord (py (offset inst) / SCALING_FACTOR))
        /\ (3 < vertexCount item)%nat.
Proof.
  unfold projectModelFromTop. intro Hrun.
  match type of Hrun with
  | bind ?c _ = _ => destruct c as [[ret oi]| | | | |] eqn:Eloop
  end; cbn [bind fst] in Hrun; try discriminate Hrun.
  injection Hrun as <-.
  apply project_objects_entries in Eloop. destruct Eloop as [added [-> [Hnodup Hall]]].
  cbn [app]. split; [exact Hnodup|].
  intros p item Hin. rewrite Forall_forall in Hall.
  destruct (Hall _ Hin) as [_ [o [inst [Ho [Hinst Hprops]]]]].
  cbn [fst snd] in Ho, Hinst, Hprops. rewrite Nat.sub_0_r in Ho.
  exists inst. unfold instance_at. rewrite Ho. split; assumption.
Qed.
End ShapeMap.

Lemma projectModelFromTop_keys_are_distinct_instances_witness :
  @projectModelFromTop libslic3r_h cube_meshops two_cubes_model = Ok two_cubes_shapemap
  /\ NoDup (map fst two_cubes_shapemap).
Proof.
  assert (H : @projectModelFromTop libslic3r_h cube_meshops two_cubes_model
              = Ok two_cubes_shapemap) by (vm_compute; reflexivity).
  split; [exact H|].
  exact (proj1 (@projectModelFromTop_keys_are_distinct_instances
                  libslic3r_h cube_meshops two_cubes_model two_cubes_shapemap H)).
Defined.

(** ** Adding and deleting the last instance *)

Lemma erase_last {A : Type} (l : list A) (a : A) : erase (l ++ [a]) (length l) = l.
Proof.
  induction l as [|h t IH]; [reflexivity|]. cbn [app length erase]. rewrite IH. reflexivity.
Qed.

Lemma size_t_sub_succ (n : nat) :
  (N.of_nat n + 1 < 2 ^ 64)%N ->
  N.to_nat (size_t_sub (N.of_nat (n + 1)) 1) = n.
Proof.
  intro Hfit. unfold size_t_sub.
  replace (N.of_nat (n + 1) + 2 ^ 64 - 1)%N with (N.of_nat n + 1 * 2 ^ 64)%N by lia.
  rewrite N.Div0.mod_add, N.mod_small by lia. apply Nat2N.id.
Qed.

(** X24.  [delete_last_instance] undoes [add_instance]: after adding an
    instance, default or copied, to an object whose instance count fits
    size_t, deleting the last instance returns and gives the object back
    with the instances it had, its cache flagged invalid.  On an object
    without instances [delete_last_instance] erases at index [size() - 1],
    which has wrapped around: the behaviour is undefined. *)
Theorem delete_last_instance_undoes_add_instance (o : ModelObject) (other : ModelInstance) :
  (N.of_nat (length (instances o)) + 1 < 2 ^ 64)%N ->
  delete_last_instance (add_instance o) = Ok (invalidate_bounding_box o)
  /\ delete_last_instance (add_instance_copy o other) = Ok (invalidate_bounding_box o)
  /\ (instances o = [] -> delete_last_instance o = Undefined).
Proof.
  intro Hfit.
  assert (Hadd : forall i,
             delete_last_instance (invalidate_bounding_box (set_instances o (instances o ++ [i])))
             = Ok (invalidate_bounding_box o)).
  { intro i. unfold delete_last_instance, delete_instance.
    cbn [instances invalidate_bounding_box set_instances set_cache].
    rewrite length_app. cbn [length]. rewrite (size_t_sub_succ _ Hfit).
    unfold vec_at. rewrite nth_error_app2, Nat.sub_diag by lia. cbn [nth_error bind].
    rewrite erase_last. reflexivity. }
  split; [apply Hadd|]. split; [apply Hadd|].
  intro Hnone. unfold delete_last_instance, delete_instance, vec_at. rewrite Hnone.
  destruct (N.to_nat (size_t_sub (N.of_nat (length (@nil ModelInstance))) 1)); reflexivity.
Qed.

Lemma delete_last_instance_undoes_add_instance_witness :
  delete_last_instance (add_instance cube_object) = Ok (invalidate_bounding_box cube_object).
Proof.
  refine (proj1 (delete_last_instance_undoes_add_instance cube_object ModelInstance_default _)).
  vm_compute. reflexivity.
Defined.

(** ** Lifting objects onto the bed *)

Lemma merge_box_floor (a b : BoundingBoxf3) :
  (defined b = true -> z (bmin (merge_box a b)) <= z (bmin b))
  /\ (defined a = true ->
      z (bmin (merge_box a b)) <= z (bmin a) /\ defined (merge_box a b) = true).
Proof.
  unfold merge_box. destruct (defined b) eqn:Eb, (defined a) eqn:Ea; cbn [bmin z defined];
    (split; [intro H | intro H; try split]); try discriminate H; try reflexivity;
    try apply Qle_refl;
    destruct (std_min_cases (z (bmin b)) (z (bmin a))) as [[Hlt ->] | [Hle ->]]; lra.
Qed.

Lemma merge_boxes_floor (boxes : list BoundingBoxf3) (a : BoundingBoxf3) :
  (defined a = true ->
   z (bmin (fold_left merge_box boxes a)) <= z (bmin a)
   /\ defined (fold_left merge_box boxes a) = true)
  /\ (forall b, In b boxes -> defined b = true ->
                z (bmin (fold_left merge_box boxes a)) <= z (bmin b)).
Proof.
  revert a. induction boxes as [|b0 rest IH]; intro a; cbn [fold_left].
  - split; [intro H; split; [apply Qle_refl | exact H] | intros b []].
  - destruct (IH (merge_box a b0)) as [IHa IHb].
    destruct (merge_box_floor a b0) as [Hb0 Ha]. split.
    + intro Hd. destruct (Ha Hd) as [Hle Hdef]. destruct (IHa Hdef) as [Hle' Hdef'].
      split; [lra | exact Hdef'].
    + intros b [<- | Hin] Hd; [|apply IHb; assumption].
      assert (Hdef : defined (merge_box a b0) = true).
      { unfold merge_box. rewrite Hd. destruct (defined a); reflexivity. }
      destruct (IHa Hdef) as [Hle' _]. specialize (Hb0 Hd). lra.
Qed.

Section AdjustMinZ.
Context {libm : Libm} {consts : Libslic3r}.

Lemma merge_object_boxes_caches (objs : list ModelObject) (bb : BoundingBoxf3) :
  fst (merge_object_boxes objs bb)
  = fold_left merge_box (map m_bounding_box (snd (merge_object_boxes objs bb))) bb
  /\ Forall (fun o => m_bounding_box_valid o = true) (snd (merge_object_boxes objs bb)).
Proof.
  revert bb. induction objs as [|o rest IH]; intro bb; cbn [merge_object_boxes].
  - split; [reflexivity | constructor].
  - destruct (bounding_box o) as [ob o'] eqn:Eo.
    specialize (IH (merge_box bb ob)).
    destruct (merge_object_boxes rest (merge_box bb ob)) as [bb' rest'].
    cbn [fst snd map fold_left] in *. destruct IH as [IHbox IHvalid].
    assert (Ho' : o' = snd (bounding_box o)) by (rewrite Eo; reflexivity).
    assert (Hob : ob = m_bounding_box o').
    { rewrite Ho', <- bounding_box_returns_cache, Eo. reflexivity. }
    split.
    + rewrite <- Hob. exact IHbox.
    + constructor; [|exact IHvalid]. rewrite Ho'. apply bounding_box_marks_valid.
Qed.

(** X25.  After [adjust_min_z] every object of a non-empty model has a
    valid cached box, the box its [bounding_box()] reports, and no defined
    one reaches below z = 0.  Instances and materials are untouched, and an
    object keeps its volumes or has all its meshes lifted along z by one
    positive amount: nothing is lowered or moved sideways. *)
Theorem adjust_min_z_lifts_boxes_to_the_bed (m : Model) :
  Forall (fun o => m_bounding_box_valid o = true
                   /\ (defined (m_bounding_box o) = true -> 0 <= z (bmin (m_bounding_box o))))
         (objects (adjust_min_z m))
  /\ map instances (objects (adjust_min_z m)) = map instances (objects m)
  /\ materials (adjust_min_z m) = materials m
  /\ Forall2 (fun o o' =>
                volumes o' = volumes o
                \/ exists dz, 0 < dz
                              /\ volumes o'
                                 = map (fun v => set_mesh v (mesh_translate 0 0 dz (mesh v)))
                                       (volumes o))
             (objects m) (objects (adjust_min_z m)).
Proof.
  unfold adjust_min_z. destruct (objects m) as [|o0 rest0] eqn:Eobjs.
  - rewrite Eobjs. repeat split; constructor.
  - rewrite <- Eobjs. clear Eobjs o0 rest0. unfold Model_bounding_box.
    pose proof (merge_object_boxes_caches (objects m) BoundingBoxf3_default) as [Hbox Hvalid].
    pose proof (merge_object_boxes_keeps_instances (objects m) BoundingBoxf3_default) as Hinst.
    pose proof (merge_object_boxes_keeps_volumes (objects m) BoundingBoxf3_default) as Hvol.
    destruct (merge_object_boxes (objects m) BoundingBoxf3_default) as [bb objs].
    cbn [fst snd] in *. rewrite Forall_forall in Hvalid.
    destruct (Qltb (z (bmin bb)) 0) eqn:Ebelow; cbn [objects materials set_objects].
    + split; [|split; [|split; [reflexivity|]]].
      * apply Forall_forall. intros o' Hin. apply in_map_iff in Hin.
        destruct Hin as [o [<- Ho]].
        rewrite (bounding_box_when_valid o (Hvalid o Ho)).
        destruct (Qltb (z (bmin (m_bounding_box o))) 0) eqn:Eo.
        -- rewrite translate_keeps_flag. split; [apply Hvalid; exact Ho|].
           intros _. unfold translate. cbn [m_bounding_box_valid map_meshes set_volumes].
           rewrite (Hvalid o Ho).
           cbn [m_bounding_box set_cache set_volumes map_meshes bb_translate bmin
                Pointf3_translate z].
           lra.
        -- split; [apply Hvalid; exact Ho|]. intros _. apply Qltb_false. exact Eo.
      * rewrite <- Hinst, map_map. apply map_ext_in. intros o Ho.
        rewrite (bounding_box_when_valid o (Hvalid o Ho)).
        destruct (Qltb (z (bmin (m_bounding_box o))) 0); [apply translate_instances|].
        reflexivity.
      * assert (Hstep : Forall2 (fun o o' =>
                   volumes o' = volumes o
                   \/ exists dz, 0 < dz
                                 /\ volumes o'
                                    = map (fun v => set_mesh v (mesh_translate 0 0 dz (mesh v)))
                                          (volumes o))
                          objs
                          (map (fun obj =>
                                  let (obb, obj0) := bounding_box obj in
                                  if Qltb (z (bmin obb)) 0
                                  then translate obj0 0 0 (- z (bmin obb)) else obj0) objs)).
        { clear Hbox Hinst Hvol. induction objs as [|o rest IH]; cbn [map]; constructor.
          - rewrite (bounding_box_when_valid o (Hvalid o (or_introl eq_refl))).
            destruct (Qltb (z (bmin (m_bounding_box o))) 0) eqn:Eo; [|left; reflexivity].
            right. exists (to_float (- z (bmin (m_bounding_box o)))). split.
            + apply to_float_positive. apply Qltb_true in Eo. lra.
            + rewrite translate_volumes.
              change (to_float 0) with 0. reflexivity.
          - apply IH. intros w Hw. apply Hvalid. right. exact Hw. }
        revert Hstep Hvol. generalize (objects m).
        generalize (map (fun obj =>
                           let (obb, obj0) := bounding_box obj in
                           if Qltb (z (bmin obb)) 0
                           then translate obj0 0 0 (- z (bmin obb)) else obj0) objs).
        clear. intros after before Hstep. revert before.
        induction Hstep as [|o o' objs after Hoo' Hrest IH]; intros before Hvol;
          destruct before as [|b before']; try discriminate Hvol; constructor.
        -- cbn [map] in Hvol. injection Hvol as Hb _. rewrite <- Hb. exact Hoo'.
        -- apply IH. cbn [map] in Hvol. injection Hvol as _ Hrest'. exact Hrest'.
    + apply Qltb_false in Ebelow.
      split; [|split; [exact Hinst | split; [reflexivity|]]].
      * apply Forall_forall. intros o Ho. split; [apply Hvalid; exact Ho|].
        intro Hdef.
        destruct (merge_boxes_floor (map m_bounding_box objs) BoundingBoxf3_default)
          as [_ Hfloor].
        specialize (Hfloor (m_bounding_box o) (in_map m_bounding_box _ _ Ho) Hdef).
        rewrite <- Hbox in Hfloor. lra.
      * revert Hvol. generalize (objects m). clear.
        induction objs as [|o' rest IH]; intros before Hvol;
          destruct before as [|b before']; try discriminate Hvol; constructor.
        -- left. cbn [map] in Hvol. injection Hvol as Hb _. exact Hb.
        -- apply IH. cbn [map] in Hvol. injection Hvol as _ Hrest'. exact Hrest'.
Qed.
End AdjustMinZ.

(** ** The bounding-box cache under every writer *)

Section CacheWriters.
Context {libm : Libm} {consts : Libslic3r} {meshops : MeshOps} {parts : MeshParts}
        {geom : GeometryLib} {nest : Nest2D}.

Lemma map_invalidate_invalid (objs : list ModelObject) (f : ModelObject -> ModelObject) :
  Forall (fun o => m_bounding_box_valid o = false)
         (map (fun o => invalidate_bounding_box (f o)) objs).
Proof.
  apply Forall_forall. intros o Hin. apply in_map_iff in Hin.
  destruct Hin as [o0 [<- _]]. reflexivity.
Qed.

Lemma center_instances_around_point_invalidates (m m' : Model) (point : Pointf) :
  center_instances_around_point m point = Ok m' ->
  Forall (fun o => m_bounding_box_valid o = false) (objects m').
Proof.
  unfold center_instances_around_point. intro H.
  destruct (all_instances_bounding_box m) as [bb| | | | |]; cbn [bind] in H;
    try discriminate H.
  injection H as <-. cbn [objects set_objects]. apply map_invalidate_invalid.
Qed.

Lemma arrange_invalidates (m m' : Model) (dist : Q) (bb : option BoundingBoxf)
      (first_bin_only r : bool) :
  arrange m dist bb first_bin_only = Ok (r, m') ->
  Forall (fun o => m_bounding_box_valid o = false) (objects m').
Proof.
  unfold arrange. intro H.
  destruct (projectModelFromTop m) as [shapemap| | | | |]; cbn [bind] in H;
    try discriminate H.
  match type of H with
  | bind ?c _ = _ => destruct c as [written| | | | |]; cbn [bind] in H; try discriminate H
  end.
  injection H as _ <-. cbn [objects set_objects].
  apply (map_invalidate_invalid (objects written) (fun o => o)).
Qed.

Lemma apply_positions_invalidates (positions centers : Pointfs) (objs done : list ModelObject)
      (idx : nat) (r : list ModelObject * nat) :
  Forall (fun o => m_bounding_box_valid o = false) done ->
  foldM (fun (acc : list ModelObject * nat) o =>
           let (done, idx) := acc in
           r <- foldM (fun (acc : list ModelInstance * nat) i =>
                         let (placed, idx) := acc in
                         pos <- vec_at positions idx ;;
                         ctr <- vec_at centers idx ;;
                         Ok (placed ++ [set_offset i (Pointf_minus pos ctr)], S idx))
                      (instances o) ([], idx) ;;
           Ok (done ++ [invalidate_bounding_box (set_instances o (fst r))], snd r))
        objs (done, idx) = Ok r ->
  Forall (fun o => m_bounding_box_valid o = false) (fst r).
Proof.
  revert done idx. induction objs as [|o rest IH]; intros done idx Hdone Hrun;
    cbn [foldM] in Hrun.
  - injection Hrun as <-. exact Hdone.
  - match type of Hrun with
    | bind (bind ?c _) _ = _ => destruct c as [ri| | | | |]; cbn [bind] in Hrun;
                                  try discriminate Hrun
    end.
    apply IH in Hrun; [exact Hrun|].
    apply Forall_app. split; [exact Hdone|]. constructor; [reflexivity | constructor].
Qed.

Lemma arrange_objects_invalidates (m m' : Model) (dist : Q) (bb : option BoundingBoxf)
      (r : bool) :
  arrange_objects m dist bb = Ok (r, m') ->
  m' = m \/ Forall (fun o => m_bounding_box_valid o = false) (objects m').
Proof.
  unfold arrange_objects. intro H. destruct (hasbin_of bb).
  - destruct (arrange m dist bb false) as [[r0 m0]| | | | |] eqn:E; cbn [bind] in H;
      try discriminate H.
    injection H as _ <-. right. apply (arrange_invalidates _ _ _ _ _ _ E).
  - destruct (instance_sizes_centers m) as [[sizes centers]| | | | |]; cbn [bind] in H;
      try discriminate H.
    destruct (_arrange sizes dist bb []) as [[ok positions]| | | | |]; cbn [bind] in H;
      try discriminate H.
    destruct ok; cbn [negb] in H.
    + unfold apply_positions in H.
      match type of H with
      | bind (bind ?c _) _ = _ => destruct c as [ro| | | | |] eqn:Eo; cbn [bind] in H;
                                    try discriminate H
      end.
      injection H as _ <-. right. cbn [objects set_objects].
      apply (apply_positions_invalidates _ _ _ _ _ _ (Forall_nil _) Eo).
    + injection H as _ <-. left. reflexivity.
Qed.

Lemma duplicate_invalidates (m m' : Model) (copies_num : N) (dist : Q)
      (bb : option BoundingBoxf) :
  duplicate m copies_num dist bb = Ok m' ->
  Forall (fun o => m_bounding_box_valid o = false) (objects m').
Proof.
  unfold duplicate, Model_bounding_box. intro H.
  destruct (merge_object_boxes (objects m) BoundingBoxf3_default) as [mbb objs].
  cbn [objects set_objects] in H.
  match type of H with
  | bind ?c _ = _ => destruct c as [[ok positions]| | | | |]; cbn [bind] in H;
                       try discriminate H
  end.
  destruct ok; cbn [negb] in H; [|discriminate H].
  injection H as <-. cbn [objects set_objects].
  apply Forall_forall. intros o Hin. apply in_map_iff in Hin.
  destruct Hin as [o0 [<- _]]. reflexivity.
Qed.

(** C7, as amended.  Every mutation of an object's volumes or instances
    through add_volume, delete_volume, clear_volumes, add_instance,
    delete_instance, delete_last_instance, clear_instances, scale, rotate,
    mirror, transform with a matrix, or center_around_origin on an object
    with instances leaves the cache flagged invalid.  The next
    [bounding_box()] then returns the box of the object as it is now (the
    raw boxes of the solid volumes merged, transformed by every instance,
    the results merged), stores it and flags it valid, and a read after
    that returns the stored box without computing.  [translate],
    [center_around_origin] on an object without instances and
    [ModelVolume::split] are not among these mutations: they leave the flag
    as it was.  The methods of the model that write placements or add
    instances themselves, [center_instances_around_point], [arr::arrange],
    [duplicate] and an [arrange_objects] that changes the model, leave
    every object of the model flagged invalid. *)
Theorem invalidating_mutations_clear_valid_flag (o o' : ModelObject) :
  invalidating_mutation o o' ->
  m_bounding_box_valid o' = false
  /\ bounding_box o' = (spec_bounding_box o', set_cache o' (spec_bounding_box o') true)
  /\ cache_consistent (snd (bounding_box o'))
  /\ bounding_box (snd (bounding_box o')) = (spec_bounding_box o', snd (bounding_box o'))
  /\ (forall o2, cache_keeping_mutation o o2 ->
                 m_bounding_box_valid o2 = m_bounding_box_valid o)
  /\ (forall m m', model_writer m m' ->
                   Forall (fun o => m_bounding_box_valid o = false) (objects m')).
Proof.
  intro Hmut.
  assert (Hflag : m_bounding_box_valid o' = false).
  { destruct Hmut as [ | | idx o' H | | | | idx o' H | o' H | | | | | | Hsome];
      try reflexivity.
    - eapply delete_volume_invalidates; eassumption.
    - eapply delete_instance_invalidates; eassumption.
    - eapply delete_instance_invalidates; eassumption.
    - rewrite center_around_origin_flag. destruct (instances o); [contradiction | reflexivity]. }
  split; [exact Hflag|]. rewrite (bounding_box_recomputes o' Hflag). cbn [snd].
  split; [reflexivity|]. split; [intros _; reflexivity|].
  split; [apply bounding_box_when_valid; reflexivity|]. split.
  - intros o2 Hkeep.
    destruct Hkeep as [dx dy dz | Hnone | this max_extruders s n s' o2 Hsplit].
    + apply translate_keeps_flag.
    + rewrite center_around_origin_flag, Hnone. reflexivity.
    + apply (ModelVolume_split_keeps_flag _ _ _ _ _ _ _ Hsplit).
  - intros m m' Hwrite.
    destruct Hwrite as [point m' H | dist bb fbo r m' H | dist bb r m' H Hchanged
                        | copies_num dist bb m' H].
    + eapply center_instances_around_point_invalidates; eassumption.
    + eapply arrange_invalidates; eassumption.
    + destruct (arrange_objects_invalidates _ _ _ _ _ H) as [E | Hall];
        [contradiction | exact Hall].
    + eapply duplicate_invalidates; eassumption.
Qed.
End CacheWriters.

(** The cube with its box cached, scaled by 2: the flag is cleared and the
    next read gives the box of the scaled cube; and centring the model that
    holds the cached cube leaves its object flagged invalid. *)
Lemma invalidating_mutations_clear_valid_flag_witness :
  m_bounding_box_valid (snd (@bounding_box libm_at_zero cube_object)) = true
  /\ m_bounding_box (snd (@bounding_box libm_at_zero cube_object))
     = mkBB3 (mkPointf3 0 0 0) (mkPointf3 10 10 10) true
  /\ m_bounding_box_valid (scale (snd (@bounding_box libm_at_zero cube_object)) (mkPointf3 2 2 2))
     = false
  /\ fst (@bounding_box libm_at_zero
            (scale (snd (@bounding_box libm_at_zero cube_object)) (mkPointf3 2 2 2)))
     = mkBB3 (mkPointf3 0 0 0) (mkPointf3 20 20 20) true
  /\ exists m',
      @center_instances_around_point libm_at_zero libslic3r_h
        (set_objects cube_model [snd (@bounding_box libm_at_zero cube_object)])
        (mkPointf 100 100) = Ok m'
      /\ Forall (fun o => m_bounding_box_valid o = false) (objects m').
Proof.
  pose proof (@mut_scale libm_at_zero cube_meshops
                         (snd (@bounding_box libm_at_zero cube_object))
                         (mkPointf3 2 2 2)) as Hstep.
  destruct (@invalidating_mutations_clear_valid_flag libm_at_zero libslic3r_h cube_meshops
              box_parts row_packer one_item_per_bin _ _ Hstep)
    as [Hflag [Hbox [_ [_ [_ Hmodel]]]]].
  split; [reflexivity|]. split; [vm_compute; reflexivity|]. split; [exact Hflag|].
  split; [rewrite Hbox; vm_compute; reflexivity|].
  eexists. split; [vm_compute; reflexivity|].
  apply (Hmodel (set_objects cube_model [snd (@bounding_box libm_at_zero cube_object)])).
  apply (@write_center libm_at_zero libslic3r_h cube_meshops row_packer one_item_per_bin
           _ (mkPointf 100 100)).
  vm_compute. reflexivity.
Defined.

(** C7, the claim as stated fails.  [translate] moves the volumes of the
    cube and leaves the cache flagged valid; so does [center_around_origin]
    on the cube without instances; and [ModelVolume::split] turns the one
    volume of two boxes into two volumes and leaves the cache flagged
    valid. *)
Lemma some_mutations_do_not_invalidate :
  (m_bounding_box_valid (snd (@bounding_box libm_at_zero cube_object)) = true
   /\ volumes (translate (snd (@bounding_box libm_at_zero cube_object)) 1 0 0)
      <> volumes (snd (@bounding_box libm_at_zero cube_object))
   /\ m_bounding_box_valid (translate (snd (@bounding_box libm_at_zero cube_object)) 1 0 0)
      <> false)
  /\ (m_bounding_box_valid (snd (@bounding_box libm_at_zero cube_without_instances)) = true
      /\ volumes (@center_around_origin libm_at_zero
                    (snd (@bounding_box libm_at_zero cube_without_instances)))
         <> volumes (snd (@bounding_box libm_at_zero cube_without_instances))
      /\ m_bounding_box_valid (@center_around_origin libm_at_zero
                                 (snd (@bounding_box libm_at_zero cube_without_instances)))
         <> false)
  /\ (m_bounding_box_valid two_box_object = true
      /\ exists o' s',
          @ModelVolume_split box_parts two_box_object 0 2 5 = Ok (2%N, o', s')
          /\ map volume_name (volumes two_box_object) = ["pair"%string]
          /\ map volume_name (volumes o') = ["pair_1"%string; "pair_2"%string]
          /\ m_bounding_box_valid o' <> false).
Proof.
  split; [|split].
  - split; [reflexivity|]. split; vm_compute; intro H; discriminate H.
  - split; [reflexivity|]. split; vm_compute; intro H; discriminate H.
  - split; [reflexivity|]. eexists. eexists.
    split; [vm_compute; reflexivity|]. split; [reflexivity|].
    split; [reflexivity|]. vm_compute. intro H. discriminate H.
Qed.

(** The box [translate] keeps in the cache is the old box moved by the
    translation vector.  For the cube with an instance scaled by 2 the box
    of the object moves by twice the vector, so the cache flagged valid is
    no longer the box of the object as it is. *)
Remark translate_cache_differs_from_fresh_box :
  @cache_consistent libm_at_zero (snd (@bounding_box libm_at_zero scaled_cube_object))
  /\ ~ @cache_consistent libm_at_zero
         (translate (snd (@bounding_box libm_at_zero scaled_cube_object)) 1 0 0).
Proof.
  split.
  - intros _. vm_compute. reflexivity.
  - unfold cache_consistent. intro H. specialize (H eq_refl).
    vm_compute in H. discriminate H.
Qed.
